(** * agentregistry: internal names, runtime translation, daemon compose YAML,
    package validation, deployments schema

    A shallow embedding of the parts of the registry and runtime code that
    the specification talks about, with the properties the specification
    states about them.

    Go strings are byte sequences: they are modelled as [string], whose
    characters are the 256 byte values of [ascii].  Maps are [gmap]s, errors
    are the [Err] of a [result] with the message of the error. *)

From Stdlib Require Import ZArith Lia Bool List Ascii String DecimalString.
From stdpp Require Import base option list gmap strings.

Set Warnings "-register-all".
Local Open Scope string_scope.

(** Appending to a string literal computes. *)
Local Arguments String.append !s1 s2 : simpl nomatch.

(** Go's [(T, error)] results: the value, or the message of the error. *)
Inductive result (A : Type) : Type :=
| Ok (a : A)
| Err (msg : string).
Arguments Ok {A} a.
Arguments Err {A} msg.

Definition isErr {A : Type} (r : result A) : bool :=
  match r with Ok _ => false | Err _ => true end.

#[global] Instance result_fmap : FMap result :=
  fun A B f r => match r with Ok a => Ok (f a) | Err msg => Err msg end.

(** ** The Go [strings] package, as far as the code uses it *)

Module GoStrings.

(** [strings.HasPrefix s p]. *)
Definition HasPrefix (s p : string) : bool := String.prefix p s.

(** [strings.Contains s substr]: [substr] starts at some offset of [s]. *)
Fixpoint Contains (s substr : string) : bool :=
  HasPrefix s substr
  || match s with
     | EmptyString => false
     | String _ s' => Contains s' substr
     end.

(** [strings.HasSuffix s suffix]. *)
Definition HasSuffix (s suffix : string) : bool :=
  String.prefix (String.rev suffix) (String.rev s).

(** The scan of [strings.ReplaceAll]: left to right, occurrences that do not
    overlap.  [skip] counts the bytes of a matched occurrence that are still
    to be dropped. *)
Fixpoint replaceFrom (old new : string) (skip : nat) (s : string) : string :=
  match s with
  | EmptyString => EmptyString
  | String c s' =>
      match skip with
      | S k => replaceFrom old new k s'
      | O =>
          if HasPrefix s old
          then new +:+ replaceFrom old new (String.length old - 1) s'
          else String c (replaceFrom old new 0 s')
      end
  end.

(** [strings.ReplaceAll s old new] for a non-empty [old], which is how every
    call of the code uses it (the patterns are literals).  Go splices [new]
    at every rune boundary when [old] is empty; that case is outside this
    definition, which then returns [s]. *)
Definition ReplaceAll (s old new : string) : string :=
  match old with
  | EmptyString => s
  | _ => replaceFrom old new 0 s
  end.

(** The bytes below [utf8.RuneSelf]. *)
Definition isASCIIbyte (c : ascii) : bool := (nat_of_ascii c <? 128)%nat.

Definition isASCII (s : string) : bool :=
  forallb isASCIIbyte (list_ascii_of_string s).

(** The byte loop of [strings.ToLower] on an ASCII string:
    [c += 'a' - 'A'] for ['A' <= c <= 'Z']. *)
Definition lowerByte (c : ascii) : ascii :=
  let n := nat_of_ascii c in
  if ((65 <=? n) && (n <=? 90))%nat then ascii_of_nat (n + 32) else c.

Fixpoint mapBytes (f : ascii -> ascii) (s : string) : string :=
  match s with
  | EmptyString => EmptyString
  | String c s' => String (f c) (mapBytes f s')
  end.

Section ToLower.
(** [strings.Map(unicode.ToLower, s)], the path [strings.ToLower] takes for
    a string with a byte outside ASCII.  It depends on the Unicode case
    tables of the Go runtime, which are not part of the repository. *)
Variable unicodeToLower : string -> string.

(** [strings.ToLower]: the byte loop when the string is ASCII only, the
    Unicode mapping otherwise. *)
Definition ToLower (s : string) : string :=
  if isASCII s then mapBytes lowerByte s else unicodeToLower s.
End ToLower.

End GoStrings.

(** ** Internal names (package registry) *)

Module Registry.
Import GoStrings.

Section InternalName.
Variable unicodeToLower : string -> string.

(** [generateInternalName], statement by statement. *)
Definition generateInternalName (server : string) : string :=
  let name := ToLower unicodeToLower (ReplaceAll server " " "-") in
  let name := ReplaceAll name "." "-" in
  let name := ReplaceAll name "_" "-" in
  let name := ReplaceAll name "/" "-" in
  let name := ReplaceAll name ":" "-" in
  let name := ReplaceAll name "@" "-" in
  let name := ReplaceAll name "#" "-" in
  let name := ReplaceAll name "$" "-" in
  let name := ReplaceAll name "%" "-" in
  let name := ReplaceAll name "^" "-" in
  let name := ReplaceAll name "&" "-" in
  let name := ReplaceAll name "*" "-" in
  let name := ReplaceAll name "(" "-" in
  let name := ReplaceAll name ")" "-" in
  let name := ReplaceAll name "[" "-" in
  let name := ReplaceAll name "]" "-" in
  let name := ReplaceAll name "{" "-" in
  let name := ReplaceAll name "}" "-" in
  let name := ReplaceAll name "|" "-" in
  let name := ReplaceAll name "\" "-" in
  let name := ReplaceAll name "." "-" in
  let name := ReplaceAll name "," "-" in
  let name := ReplaceAll name "!" "-" in
  let name := ReplaceAll name "?" "-" in
  let name := ReplaceAll name " " "-" in
  name.

(** The normalisation in the words of the specification: the lower-cased name
    with every character outside [[a-z0-9-]] replaced by ['-'], runs of ['-']
    collapsed, leading and trailing ['-'] trimmed. *)
Definition isLabelByte (c : ascii) : bool :=
  let n := nat_of_ascii c in
  ((97 <=? n) && (n <=? 122) || (48 <=? n) && (n <=? 57) || (n =? 45))%nat.

Definition dashUnlessLabel (c : ascii) : ascii :=
  if isLabelByte c then c else "-"%char.

Fixpoint collapseDashes (s : string) : string :=
  match s with
  | EmptyString => EmptyString
  | String c s' =>
      let r := collapseDashes s' in
      match r with
      | String c' _ =>
          if Ascii.eqb c "-" && Ascii.eqb c' "-" then r else String c r
      | EmptyString => String c r
      end
  end.

Fixpoint trimLeadingDashes (s : string) : string :=
  match s with
  | String c s' => if Ascii.eqb c "-" then trimLeadingDashes s' else s
  | EmptyString => EmptyString
  end.

Definition trimDashes (s : string) : string :=
  String.rev (trimLeadingDashes (String.rev (trimLeadingDashes s))).

Definition specInternalName (name : string) : string :=
  trimDashes
    (collapseDashes (mapBytes dashUnlessLabel (ToLower unicodeToLower name))).

End InternalName.

(** The characters for which [generateInternalName] has a [ReplaceAll]. *)
Definition replacedBytes : list ascii :=
  list_ascii_of_string " ._/:@#$%^&*()[]{}|\.,!? ".

Definition isReplacedByte (c : ascii) : bool :=
  existsb (Ascii.eqb c) replacedBytes.

(** Letters, digits, ['-'] and the replaced characters. *)
Definition isHandledByte (c : ascii) : bool :=
  isLabelByte (lowerByte c) || isReplacedByte c.

(** What the chain of [generateInternalName] does to one ASCII byte. *)
Definition internalByte (c : ascii) : ascii :=
  if isReplacedByte c then "-"%char else lowerByte c.

(** An ASCII letter or digit. *)
Definition isAlnumByte (c : ascii) : bool :=
  let n := nat_of_ascii c in
  ((97 <=? n) && (n <=? 122) || (65 <=? n) && (n <=? 90)
   || (48 <=? n) && (n <=? 57))%nat.

Definition firstByte (s : string) : option ascii :=
  match s with
  | String c _ => Some c
  | EmptyString => None
  end.

Fixpoint lastByte (s : string) : option ascii :=
  match s with
  | EmptyString => None
  | String c EmptyString => Some c
  | String _ s' => lastByte s'
  end.

(** The name starts with a letter or digit and ends with one. *)
Definition alnumEnds (name : string) : bool :=
  match firstByte name, lastByte name with
  | Some a, Some b => isAlnumByte a && isAlnumByte b
  | _, _ => false
  end.

End Registry.


(** ** [path/filepath] on a Unix system *)

Module GoPath.

(** The elements of a path between its separators. *)
Fixpoint splitSlash (s : string) : list string :=
  match s with
  | EmptyString => [EmptyString]
  | String c s' =>
      if Ascii.eqb c "/" then EmptyString :: splitSlash s'
      else match splitSlash s' with
           | p :: ps => String c p :: ps
           | [] => [String c EmptyString]
           end
  end.

(** The element loop of [filepath.Clean].  [out] holds the elements kept so
    far, last one first: empty and [.] elements are dropped, [..] removes the
    element before it, is dropped at the root, and is kept at the start of a
    path that is not rooted. *)
Fixpoint cleanElems (rooted : bool) (out : list string) (elems : list string)
  : list string :=
  match elems with
  | [] => out
  | e :: rest =>
      if String.eqb e "" || String.eqb e "." then cleanElems rooted out rest
      else if String.eqb e ".." then
        match out with
        | q :: out' =>
            if String.eqb q ".." then cleanElems rooted (e :: out) rest
            else cleanElems rooted out' rest
        | [] =>
            if rooted then cleanElems rooted [] rest
            else cleanElems rooted [e] rest
        end
      else cleanElems rooted (e :: out) rest
  end.

(** The elements, first one first, written with separators between them. *)
Fixpoint joinSlash (elems : list string) : string :=
  match elems with
  | [] => EmptyString
  | [e] => e
  | e :: rest => e +:+ "/" +:+ joinSlash rest
  end.

Definition isRooted (path : string) : bool :=
  match path with
  | String c _ => Ascii.eqb c "/"
  | EmptyString => false
  end.

(** [filepath.Clean]. *)
Definition Clean (path : string) : string :=
  let rooted := isRooted path in
  let body := joinSlash (List.rev (cleanElems rooted [] (splitSlash path))) in
  let cleaned := if rooted then "/" +:+ body else body in
  if String.eqb cleaned "" then "." else cleaned.

(** [strings.Join elems "/"]. *)
Fixpoint joinRaw (elems : list string) : string :=
  match elems with
  | [] => EmptyString
  | [e] => e
  | e :: rest => e +:+ "/" +:+ joinRaw rest
  end.

(** [filepath.Join]: the elements from the first non-empty one on, joined and
    cleaned; the empty string when there is none. *)
Fixpoint Join (elem : list string) : string :=
  match elem with
  | [] => EmptyString
  | e :: rest => if String.eqb e "" then Join rest else Clean (joinRaw elem)
  end.

(** An element that [Clean] keeps as it is. *)
Definition plainElem (e : string) : bool :=
  negb (String.eqb e "") && negb (String.eqb e ".")
  && negb (String.eqb e "..")
  && match splitSlash e with [e'] => String.eqb e' e | _ => false end.

End GoPath.

(** ** A fragment of [regexp] *)

Module GoRegexp.

(** An item of a bracket expression: a range [lo-hi] or one character. *)
Inductive classItem : Type :=
| Range (lo hi : ascii)
| Single (c : ascii).

(** Expressions.  A pattern [^e$] is kept as its body [e]. *)
Inductive regex : Type :=
| Void
| Eps
| Class (items : list classItem)
| Cat (r1 r2 : regex)
| Alt (r1 r2 : regex)
| Star (r : regex).

(** [e+] *)
Definition Plus (r : regex) : regex := Cat r (Star r).

Definition inItem (c : ascii) (i : classItem) : bool :=
  match i with
  | Range lo hi =>
      ((nat_of_ascii lo <=? nat_of_ascii c)
       && (nat_of_ascii c <=? nat_of_ascii hi))%nat
  | Single d => Ascii.eqb c d
  end.

Definition inClass (items : list classItem) (c : ascii) : bool :=
  existsb (inItem c) items.

Fixpoint nullable (r : regex) : bool :=
  match r with
  | Void => false
  | Eps => true
  | Class _ => false
  | Cat r1 r2 => nullable r1 && nullable r2
  | Alt r1 r2 => nullable r1 || nullable r2
  | Star _ => true
  end.

(** The expression for what may follow a first byte [c]. *)
Fixpoint deriv (c : ascii) (r : regex) : regex :=
  match r with
  | Void => Void
  | Eps => Void
  | Class items => if inClass items c then Eps else Void
  | Cat r1 r2 =>
      if nullable r1 then Alt (Cat (deriv c r1) r2) (deriv c r2)
      else Cat (deriv c r1) r2
  | Alt r1 r2 => Alt (deriv c r1) (deriv c r2)
  | Star r1 => Cat (deriv c r1) (Star r1)
  end.

(** [MatchString] of the pattern [^body$]: the whole text matches [body]. *)
Fixpoint MatchString (body : regex) (s : string) : bool :=
  match s with
  | EmptyString => nullable body
  | String c s' => MatchString (deriv c body) s'
  end.

(** The language of an expression. *)
Inductive matches : regex -> string -> Prop :=
| matches_eps : matches Eps ""
| matches_class items c :
    inClass items c = true -> matches (Class items) (String c "")
| matches_cat r1 r2 s1 s2 :
    matches r1 s1 -> matches r2 s2 -> matches (Cat r1 r2) (s1 +:+ s2)
| matches_alt_l r1 r2 s : matches r1 s -> matches (Alt r1 r2) s
| matches_alt_r r1 r2 s : matches r2 s -> matches (Alt r1 r2) s
| matches_star_nil r : matches (Star r) ""
| matches_star_cons r s1 s2 :
    matches r s1 -> matches (Star r) s2 -> matches (Star r) (s1 +:+ s2).

End GoRegexp.

(** ** The process environment *)

Module GoOs.

(** [os.Getenv]: the value of the variable, empty when it is not set. *)
Definition Getenv (environ : gmap string string) (key : string) : string :=
  default "" (environ !! key).

End GoOs.

(** ** The desired state (package api) *)

Module Api.

Definition TransportTypeStdio : string := "stdio".
Definition TransportTypeHTTP : string := "http".

Record MCPServerDeployment : Type := {
  Image : string;
  Port : N;
  Cmd : string;
  Args : list string;
  Env : gmap string string
}.

Record HTTPTransport : Type := {
  TargetPort : N;
  TargetPath : string
}.

Record MCPServer : Type := {
  Name : string;
  Deployment : MCPServerDeployment;
  TransportType : string;
  Stdio : option unit;
  HTTP : option HTTPTransport
}.

Record DesiredState : Type := {
  MCPServers : list MCPServer
}.

End Api.

(** ** The Docker Compose translator (package dockercompose) *)

Module DockerCompose.
Import GoStrings GoRegexp.

Record ServicePortConfig : Type := {
  port_Name : string;
  port_Target : N;
  port_Published : string
}.

Record ServiceVolumeConfig : Type := {
  vol_Type : string;
  vol_Source : string;
  vol_Target : string
}.

Record ServiceConfig : Type := {
  svc_Name : string;
  svc_Image : string;
  svc_Command : list string;
  svc_Ports : list ServicePortConfig;
  svc_Volumes : list ServiceVolumeConfig
}.

Record DockerComposeConfig : Type := {
  Name : string;
  WorkingDir : string;
  Services : gmap string ServiceConfig
}.

Definition agentGatewayRepository : string := "ghcr.io/agentgateway/agentgateway".
Definition defaultAgentGatewayVersion : string := "0.9.0".

(** [versionRegex], the pattern [^[a-zA-Z0-9.\-]+$]. *)
Definition versionRegex : regex :=
  Plus (Class [Range "a" "z"; Range "A" "Z"; Range "0" "9";
               Single "."; Single "-"]).

(** The pattern as the specification writes it, [^[A-Za-z0-9.\-]+$]. *)
Definition specVersionRegex : regex :=
  Plus (Class [Range "A" "Z"; Range "a" "z"; Range "0" "9";
               Single "."; Single "-"]).

Record agentGatewayTranslator : Type := {
  composeWorkingDir : string;
  agentGatewayPort : N
}.

Definition NewAgentGatewayTranslator (composeWorkingDir : string)
  : agentGatewayTranslator :=
  {| composeWorkingDir := composeWorkingDir; agentGatewayPort := 0 |}.

(** [validateVersion]: [None] for [nil], the message of the error otherwise. *)
Definition validateVersion (version : string) : option string :=
  if negb (MatchString versionRegex version)
  then Some ("invalid version format: " +:+ version
             +:+ " (only alphanumeric characters, dots, and hyphens are allowed)")
  else None.

(** [getAgentGatewayImage]; the warning it logs on an invalid version is not
    part of the result. *)
Definition getAgentGatewayImage (environ : gmap string string) : string :=
  let agentGatewayVersion := GoOs.Getenv environ "TRANSPORT_ADAPTER_VERSION" in
  if String.eqb agentGatewayVersion "" then
    agentGatewayRepository +:+ ":" +:+ defaultAgentGatewayVersion +:+ "-musl"
  else
    match validateVersion agentGatewayVersion with
    | Some _ =>
        agentGatewayRepository +:+ ":" +:+ defaultAgentGatewayVersion +:+ "-musl"
    | None =>
        agentGatewayRepository +:+ ":" +:+ agentGatewayVersion +:+ "-musl"
    end.

(** [fmt.Sprintf("%d", port)]. *)
Definition formatDecimal (n : N) : string :=
  NilZero.string_of_uint (N.to_uint n).

Section Translator.
(** The gateway configuration and its translation are defined in a file of
    the package that is not among the sources; the translator only passes
    the result on (and drops the error). *)
Variable AgentGatewayConfig : Type.
Variable translateAgentGatewayConfig :
  list Api.MCPServer -> option AgentGatewayConfig.

(** The process environment, read by [getAgentGatewayImage]. *)
Variable environ : gmap string string.

Record AiRuntimeConfig : Type := {
  DockerCompose : DockerComposeConfig;
  AgentGateway : option AgentGatewayConfig
}.

Definition translateAgentGatewayService (t : agentGatewayTranslator)
  : result ServiceConfig :=
  let port := agentGatewayPort t in
  if (port =? 0)%N then Err "agent gateway port must be specified"
  else Ok {|
    svc_Name := "agent_gateway";
    svc_Image := getAgentGatewayImage environ;
    svc_Command := ["-f"; "/config/local.yaml"];
    svc_Ports := [{| port_Name := "http";
                     port_Target := port;
                     port_Published := formatDecimal port |}];
    svc_Volumes := [{| vol_Type := "volume";
                       vol_Source :=
                         GoPath.Join [composeWorkingDir t; "agent_gateway"];
                       vol_Target := "/config" |}]
  |}.

Definition translateMCPServerToServiceConfig (t : agentGatewayTranslator)
  (server : Api.MCPServer) : result ServiceConfig :=
  let image := Api.Image (Api.Deployment server) in
  let image :=
    if String.eqb image "" && String.eqb (Api.Cmd (Api.Deployment server)) "uvx"
    then "ghcr.io/astral-sh/uv:debian" else image in
  let image :=
    if String.eqb image "" && String.eqb (Api.Cmd (Api.Deployment server)) "npx"
    then "node:24-alpine3.21" else image in
  if String.eqb image "" then
    Err ("image must be specified for MCPServer " +:+ Api.Name server
         +:+ " or the command must be 'uvx' or 'npx'")
  else Ok {|
    svc_Name := Api.Name server;
    svc_Image := getAgentGatewayImage environ;
    svc_Command := ["-f"; "/config/local.yaml"];
    svc_Ports := [];
    svc_Volumes := [{| vol_Type := "volume";
                       vol_Source :=
                         GoPath.Join [composeWorkingDir t; "agent_gateway"];
                       vol_Target := "/config" |}]
  |}.

(** The loop of [TranslateRuntimeConfig] over [desired.MCPServers], with the
    service map built so far. *)
Fixpoint translateMCPServers (t : agentGatewayTranslator)
  (servers : list Api.MCPServer)
  (dockerComposeServices : gmap string ServiceConfig)
  : result (gmap string ServiceConfig) :=
  match servers with
  | [] => Ok dockerComposeServices
  | mcpServer :: rest =>
      if negb (String.eqb (Api.TransportType mcpServer) Api.TransportTypeHTTP)
      then translateMCPServers t rest dockerComposeServices
      else
        match dockerComposeServices !! Api.Name mcpServer with
        | Some _ =>
            Err ("duplicate MCPServer name found: " +:+ Api.Name mcpServer)
        | None =>
            match translateMCPServerToServiceConfig t mcpServer with
            | Err err =>
                Err ("failed to translate MCPServer " +:+ Api.Name mcpServer
                     +:+ " to service config: " +:+ err)
            | Ok serviceConfig =>
                translateMCPServers t rest
                  (<[Api.Name mcpServer := serviceConfig]> dockerComposeServices)
            end
        end
  end.

Definition TranslateRuntimeConfig (t : agentGatewayTranslator)
  (desired : Api.DesiredState) : result AiRuntimeConfig :=
  match translateAgentGatewayService t with
  | Err err => Err ("failed to translate agent gateway service: " +:+ err)
  | Ok agentGatewayService =>
      match translateMCPServers t (Api.MCPServers desired)
              {["agent_gateway" := agentGatewayService]} with
      | Err err => Err err
      | Ok dockerComposeServices =>
          Ok {| DockerCompose := {| Name := "ai_registry";
                                    WorkingDir := composeWorkingDir t;
                                    Services := dockerComposeServices |};
                AgentGateway :=
                  translateAgentGatewayConfig (Api.MCPServers desired) |}
      end
  end.

End Translator.

End DockerCompose.

(** ** The daemon manager and its compose YAML (package daemon) *)

Module Daemon.
Import GoStrings.

Record DaemonConfig : Type := {
  ProjectName : string;
  ContainerName : string;
  ComposeYAML : string;
  DockerRegistry : string;
  Version : string
}.

Record DefaultDaemonManager : Type := {
  config : DaemonConfig
}.

(** What [yaml.Unmarshal] puts into a [map[string]any]: values of dynamic
    type.  [VOther] stands for a value of any type the code does not assert
    (numbers, maps with keys that are not strings, ...). *)
Inductive any : Type :=
| VNil
| VBool (b : bool)
| VString (s : string)
| VSlice (l : list any)
| VMap (m : gmap string any)
| VOther (repr : string).

(** The machine the daemon manager runs on: the operating system the binary
    was built for, the environment, the regular files with their content, the
    directories, and the paths on which the file system refuses an
    operation. *)
Record World : Type := {
  GOOS : string;
  environ : gmap string string;
  files : gmap string string;
  dirs : gset string;
  denied : gset string
}.

(** [os.UserHomeDir] on darwin: [$HOME], an error when it is empty. *)
Definition UserHomeDir (w : World) : result string :=
  let v := GoOs.Getenv (environ w) "HOME" in
  if String.eqb v "" then Err "$HOME is not defined" else Ok v.

(** [os.ReadFile]. *)
Definition ReadFile (w : World) (name : string) : result string :=
  if decide (name ∈ denied w) then Err "permission denied"
  else match files w !! name with
       | Some content => Ok content
       | None => Err "no such file or directory"
       end.

(** [os.MkdirAll]: fails where the path is refused or names a regular file. *)
Definition MkdirAll (w : World) (path : string) : result World :=
  if decide (path ∈ denied w) then Err "permission denied"
  else match files w !! path with
       | Some _ => Err "not a directory"
       | None => Ok {| GOOS := GOOS w; environ := environ w; files := files w;
                       dirs := {[path]} ∪ dirs w; denied := denied w |}
       end.

(** [os.WriteFile]: fails where the path is refused or names a directory;
    otherwise the file has the new content afterwards. *)
Definition WriteFile (w : World) (name : string) (data : string)
  : result World :=
  if decide (name ∈ denied w) then Err "permission denied"
  else if decide (name ∈ dirs w) then Err "is a directory"
  else Ok {| GOOS := GOOS w; environ := environ w;
             files := <[name := data]> (files w);
             dirs := dirs w; denied := denied w |}.

(** The body of the loop over [clusters], on the map under the key
    [cluster].  The Go code updates that map in place; the map is reachable
    only through the kubeconfig it was decoded into, so the update is the
    new map put back at the same place. *)
Definition patchClusterData (clusterData : gmap string any) : gmap string any :=
  let server :=
    match clusterData !! "server" with
    | Some (VString s) => s
    | _ => ""
    end in
  if Contains server "localhost" || Contains server "127.0.0.1" then
    let server := ReplaceAll server "localhost" "host.docker.internal" in
    let server := ReplaceAll server "127.0.0.1" "host.docker.internal" in
    let clusterData := <["server" := VString server]> clusterData in
    let clusterData := <["insecure-skip-tls-verify" := VBool true]> clusterData in
    let clusterData := delete "certificate-authority-data" clusterData in
    delete "certificate-authority" clusterData
  else clusterData.

(** One iteration of the loop: entries that are not maps, or have no map
    under [cluster], are skipped. *)
Definition patchCluster (c : any) : any :=
  match c with
  | VMap cluster =>
      match cluster !! "cluster" with
      | Some (VMap clusterData) =>
          VMap (<["cluster" := VMap (patchClusterData clusterData)]> cluster)
      | _ => c
      end
  | _ => c
  end.

Definition patchKubeconfig (kubeconfig : gmap string any) : gmap string any :=
  match kubeconfig !! "clusters" with
  | Some (VSlice clusters) =>
      <["clusters" := VSlice (List.map patchCluster clusters)]> kubeconfig
  | _ => kubeconfig
  end.

Definition kubeconfigPathOf (homeDir : string) : string :=
  GoPath.Join [homeDir; ".kube"; "config"].

Definition arctlDirOf (homeDir : string) : string :=
  GoPath.Join [homeDir; ".arctl"].

Definition kubeconfigPatchedPathOf (homeDir : string) : string :=
  GoPath.Join [arctlDirOf homeDir; "kubeconfig"].

(** A server URL of a local cluster. *)
Definition isLocalURL (server : string) : bool :=
  Contains server "localhost" || Contains server "127.0.0.1".

(** What the specification asks of the data of a cluster whose server URL was
    [server]: the URL rewritten to host.docker.internal, TLS verification
    off, no certificate authority. *)
Definition patchedFor (server : string) (clusterData : gmap string any) : Prop :=
  clusterData !! "server"
  = Some (VString
            (ReplaceAll
               (ReplaceAll server "localhost" "host.docker.internal")
               "127.0.0.1" "host.docker.internal"))
  /\ clusterData !! "insecure-skip-tls-verify" = Some (VBool true)
  /\ clusterData !! "certificate-authority-data" = None
  /\ clusterData !! "certificate-authority" = None.

(** Every cluster of [kubeconfig] with a local server URL is, at the same
    place of [patched], a cluster patched for that URL. *)
Definition localClustersPatched (kubeconfig patched : gmap string any) : Prop :=
  forall (clusters : list any) (i : nat) (cluster clusterData : gmap string any)
         (server : string),
    kubeconfig !! "clusters" = Some (VSlice clusters) ->
    clusters !! i = Some (VMap cluster) ->
    cluster !! "cluster" = Some (VMap clusterData) ->
    clusterData !! "server" = Some (VString server) ->
    isLocalURL server = true ->
    exists (clusters' : list any) (cluster' clusterData' : gmap string any),
      patched !! "clusters" = Some (VSlice clusters')
      /\ clusters' !! i = Some (VMap cluster')
      /\ cluster' !! "cluster" = Some (VMap clusterData')
      /\ patchedFor server clusterData'.

Section ComposeYAML.
(** [yaml.Unmarshal] into a [map[string]any] and [yaml.Marshal] of such a map
    (gopkg.in/yaml.v3). *)
Variable yamlUnmarshal : string -> result (gmap string any).
Variable yamlMarshal : gmap string any -> result string.

(** [getComposeYAML]: the YAML handed to docker compose, and the machine as
    the call leaves it. *)
Definition getComposeYAML (d : DefaultDaemonManager) (w : World)
  : string * World :=
  if negb (String.eqb (GOOS w) "darwin") then (ComposeYAML (config d), w)
  else
    match UserHomeDir w with
    | Err _ => (ComposeYAML (config d), w)
    | Ok homeDir =>
        let kubeconfigPath := GoPath.Join [homeDir; ".kube"; "config"] in
        match ReadFile w kubeconfigPath with
        | Err _ => (ComposeYAML (config d), w)
        | Ok content =>
            if negb (Contains content "localhost")
               && negb (Contains content "127.0.0.1")
            then (ComposeYAML (config d), w)
            else
              match yamlUnmarshal content with
              | Err _ => (ComposeYAML (config d), w)
              | Ok kubeconfig =>
                  let kubeconfig := patchKubeconfig kubeconfig in
                  match yamlMarshal kubeconfig with
                  | Err _ => (ComposeYAML (config d), w)
                  | Ok patchedBytes =>
                      let arctlDir := GoPath.Join [homeDir; ".arctl"] in
                      match MkdirAll w arctlDir with
                      | Err _ => (ComposeYAML (config d), w)
                      | Ok w1 =>
                          let kubeconfigPatchedPath :=
                            GoPath.Join [arctlDir; "kubeconfig"] in
                          match WriteFile w1 kubeconfigPatchedPath patchedBytes with
                          | Err _ => (ComposeYAML (config d), w1)
                          | Ok w2 =>
                              (ReplaceAll (ComposeYAML (config d))
                                 "~/.kube/config:/root/.kube/config"
                                 (kubeconfigPatchedPath
                                  +:+ ":/root/.kube/config"),
                               w2)
                          end
                      end
                  end
              end
        end
    end.

(** The ways the patching can stop short: a step fails after the steps
    before it went through. *)
Inductive patchingFails (w : World) : Prop :=
| fails_home (e : string) :
    UserHomeDir w = Err e -> patchingFails w
| fails_read (homeDir e : string) :
    UserHomeDir w = Ok homeDir ->
    ReadFile w (kubeconfigPathOf homeDir) = Err e -> patchingFails w
| fails_unmarshal (homeDir content e : string) :
    UserHomeDir w = Ok homeDir ->
    ReadFile w (kubeconfigPathOf homeDir) = Ok content ->
    yamlUnmarshal content = Err e -> patchingFails w
| fails_marshal (homeDir content e : string) (kubeconfig : gmap string any) :
    UserHomeDir w = Ok homeDir ->
    ReadFile w (kubeconfigPathOf homeDir) = Ok content ->
    yamlUnmarshal content = Ok kubeconfig ->
    yamlMarshal (patchKubeconfig kubeconfig) = Err e -> patchingFails w
| fails_mkdir (homeDir content e : string) :
    UserHomeDir w = Ok homeDir ->
    ReadFile w (kubeconfigPathOf homeDir) = Ok content ->
    MkdirAll w (arctlDirOf homeDir) = Err e -> patchingFails w
| fails_write (homeDir content patchedBytes e : string)
    (kubeconfig : gmap string any) (w1 : World) :
    UserHomeDir w = Ok homeDir ->
    ReadFile w (kubeconfigPathOf homeDir) = Ok content ->
    yamlUnmarshal content = Ok kubeconfig ->
    yamlMarshal (patchKubeconfig kubeconfig) = Ok patchedBytes ->
    MkdirAll w (arctlDirOf homeDir) = Ok w1 ->
    WriteFile w1 (kubeconfigPatchedPathOf homeDir) patchedBytes = Err e ->
    patchingFails w.

End ComposeYAML.

End Daemon.

(** ** The deployments table (migrations of the registry database) *)

Module Deployments.

(** A tuple of [deployments]; [None] is SQL's NULL.  Timestamps are points
    on a time line, [config] is the text of the JSONB value. *)
Record Tuple : Type := {
  server_name : option string;
  version : option string;
  deployed_at : option Z;
  updated_at : option Z;
  status : option string;
  config : option string;
  prefer_remote : option bool;
  resource_type : option string
}.

(** What an INSERT says about a column: nothing (the column takes its
    default) or a value, which may be NULL. *)
Inductive given (A : Type) : Type :=
| UseDefault
| Value (v : option A).
Arguments UseDefault {A}.
Arguments Value {A} v.

Definition orDefault {A : Type} (g : given A) (dflt : option A) : option A :=
  match g with
  | UseDefault => dflt
  | Value v => v
  end.

Record InsertValues : Type := {
  i_server_name : given string;
  i_version : given string;
  i_deployed_at : given Z;
  i_updated_at : given Z;
  i_status : given string;
  i_config : given string;
  i_prefer_remote : given bool;
  i_resource_type : given string
}.

(** The column defaults of the CREATE TABLE and of the ADD COLUMN;
    [server_name] and [version] have none. *)
Definition withDefaults (now : Z) (v : InsertValues) : Tuple :=
  {| server_name := orDefault (i_server_name v) None;
     version := orDefault (i_version v) None;
     deployed_at := orDefault (i_deployed_at v) (Some now);
     updated_at := orDefault (i_updated_at v) (Some now);
     status := orDefault (i_status v) (Some "active");
     config := orDefault (i_config v) (Some "{}");
     prefer_remote := orDefault (i_prefer_remote v) (Some false);
     resource_type := orDefault (i_resource_type v) (Some "mcp") |}.

(** SQL's [trim(s)]: the spaces at both ends removed. *)
Fixpoint trimLeadingSpaces (s : string) : string :=
  match s with
  | String c s' => if Ascii.eqb c " " then trimLeadingSpaces s' else s
  | EmptyString => EmptyString
  end.

Definition trim (s : string) : string :=
  String.rev (trimLeadingSpaces (String.rev (trimLeadingSpaces s))).

(** Assignment to a VARCHAR(n) column: a longer value is cut to [n]
    characters when only spaces are lost, and is an error otherwise. *)
Definition varchar (n : nat) (v : option string) : result (option string) :=
  match v with
  | None => Ok None
  | Some s =>
      if (String.length s <=? n)%nat then Ok (Some s)
      else if String.eqb
                (trimLeadingSpaces (String.substring n (String.length s - n) s))
                ""
      then Ok (Some (String.substring 0 n s))
      else Err "value too long for type character varying"
  end.

Definition coerce (t : Tuple) : result Tuple :=
  match varchar 255 (server_name t), varchar 255 (version t),
        varchar 50 (status t), varchar 50 (resource_type t) with
  | Ok n, Ok v, Ok s, Ok r =>
      Ok {| server_name := n; version := v;
            deployed_at := deployed_at t; updated_at := updated_at t;
            status := s; config := config t;
            prefer_remote := prefer_remote t; resource_type := r |}
  | Err e, _, _, _ => Err e
  | _, Err e, _, _ => Err e
  | _, _, Err e, _ => Err e
  | _, _, _, Err e => Err e
  end.

Definition isNull {A : Type} (v : option A) : bool :=
  match v with None => true | Some _ => false end.

(** The NOT NULL columns (the primary key column is one of them). *)
Definition notNullOk (t : Tuple) : bool :=
  negb (isNull (server_name t)) && negb (isNull (version t))
  && negb (isNull (deployed_at t)) && negb (isNull (updated_at t))
  && negb (isNull (status t)) && negb (isNull (resource_type t)).

(** A CHECK holds when its condition is true or NULL. *)
Definition check {A : Type} (cond : A -> bool) (v : option A) : bool :=
  match v with None => true | Some a => cond a end.

Definition inList (l : list string) (s : string) : bool :=
  existsb (String.eqb s) l.

Definition check_deployment_status_valid (t : Tuple) : bool :=
  check (inList ["active"; "stopped"; "failed"]) (status t).

Definition check_deployment_server_name_not_empty (t : Tuple) : bool :=
  check (fun s => (0 <? String.length (trim s))%nat) (server_name t).

Definition check_deployment_version_not_empty (t : Tuple) : bool :=
  check (fun s => (0 <? String.length (trim s))%nat) (version t).

Definition check_deployment_resource_type_valid (t : Tuple) : bool :=
  check (inList ["mcp"; "agent"]) (resource_type t).

Definition checksOk (t : Tuple) : bool :=
  check_deployment_status_valid t
  && check_deployment_server_name_not_empty t
  && check_deployment_version_not_empty t
  && check_deployment_resource_type_valid t.

(** What a tuple must pass to be stored. *)
Definition admit_tuple (t : Tuple) : result Tuple :=
  match coerce t with
  | Err e => Err e
  | Ok t' =>
      if negb (notNullOk t') then Err "null value violates not-null constraint"
      else if negb (checksOk t') then Err "new row violates check constraint"
      else Ok t'
  end.

Definition sameKey (a b : Tuple) : bool :=
  match server_name a, server_name b with
  | Some x, Some y => String.eqb x y
  | _, _ => false
  end.

(** [deployments_pkey]: no two tuples with the same [server_name]. *)
Fixpoint deployments_pkey (tbl : list Tuple) : bool :=
  match tbl with
  | [] => true
  | t :: rest => negb (existsb (sameKey t) rest) && deployments_pkey rest
  end.

(** [trg_update_deployments_updated_at], run before each row is updated:
    [NEW.updated_at = NOW()]. *)
Definition update_deployments_updated_at (now : Z) (new : Tuple) : Tuple :=
  {| server_name := server_name new; version := version new;
     deployed_at := deployed_at new; updated_at := Some now;
     status := status new; config := config new;
     prefer_remote := prefer_remote new;
     resource_type := resource_type new |}.

(** INSERT of one tuple. *)
Definition insert (now : Z) (v : InsertValues) (tbl : list Tuple)
  : result (list Tuple) :=
  match admit_tuple (withDefaults now v) with
  | Err e => Err e
  | Ok t =>
      if existsb (sameKey t) tbl
      then Err "duplicate key value violates unique constraint"
      else Ok (tbl ++ [t])%list
  end.

(** The rows of an UPDATE in turn: a row the WHERE selects is replaced by
    what SET makes of it, after the trigger and the row constraints. *)
Fixpoint updateRows (now : Z) (where_ : Tuple -> bool) (set : Tuple -> Tuple)
  (tbl : list Tuple) : result (list Tuple) :=
  match tbl with
  | [] => Ok []
  | old :: rest =>
      let new :=
        if where_ old
        then admit_tuple (update_deployments_updated_at now (set old))
        else Ok old in
      match new, updateRows now where_ set rest with
      | Ok t, Ok rest' => Ok (t :: rest')
      | Err e, _ => Err e
      | _, Err e => Err e
      end
  end.

(** UPDATE ... SET ... WHERE.  The key is checked on the table the statement
    leaves (PostgreSQL checks it row by row and may refuse more). *)
Definition update (now : Z) (where_ : Tuple -> bool) (set : Tuple -> Tuple)
  (tbl : list Tuple) : result (list Tuple) :=
  match updateRows now where_ set tbl with
  | Err e => Err e
  | Ok tbl' =>
      if deployments_pkey tbl' then Ok tbl'
      else Err "duplicate key value violates unique constraint"
  end.

(** DELETE ... WHERE. *)
Definition delete (where_ : Tuple -> bool) (tbl : list Tuple) : list Tuple :=
  List.filter (fun t => negb (where_ t)) tbl.

Inductive statement : Type :=
| Insert (v : InsertValues)
| Update (where_ : Tuple -> bool) (set : Tuple -> Tuple)
| Delete (where_ : Tuple -> bool).

Definition exec (now : Z) (st : statement) (tbl : list Tuple)
  : result (list Tuple) :=
  match st with
  | Insert v => insert now v tbl
  | Update where_ set => update now where_ set tbl
  | Delete where_ => Ok (delete where_ tbl)
  end.

(** A history of statements, each at its time; a statement that fails
    leaves the table as it was. *)
Fixpoint run (script : list (Z * statement)) (tbl : list Tuple) : list Tuple :=
  match script with
  | [] => tbl
  | (now, st) :: rest =>
      match exec now st tbl with
      | Ok tbl' => run rest tbl'
      | Err _ => run rest tbl
      end
  end.

(** What the specification asks of a stored row. *)
Definition rowOk (t : Tuple) : Prop :=
  (exists s, status t = Some s /\ In s ["active"; "stopped"; "failed"])
  /\ (exists n, server_name t = Some n /\ (0 < String.length (trim n))%nat)
  /\ (exists v, version t = Some v /\ (0 < String.length (trim v))%nat).

(** The constraints as an invariant of the table. *)
Definition tableOk (tbl : list Tuple) : Prop :=
  Forall rowOk tbl /\ deployments_pkey tbl = true.

(** An INSERT that gives the server and its version and leaves the other
    columns to their defaults. *)
Definition weather : InsertValues :=
  {| i_server_name := Value (Some "io.example/weather");
     i_version := Value (Some "1.0.0");
     i_deployed_at := UseDefault; i_updated_at := UseDefault;
     i_status := UseDefault; i_config := UseDefault;
     i_prefer_remote := UseDefault; i_resource_type := UseDefault |}.

(** Trimming in the words of the specification, "trimming whitespace": the
    space, the tab, the line feed, the vertical tab, the form feed and the
    carriage return at both ends removed. *)
Definition isWhitespace (c : ascii) : bool :=
  let n := nat_of_ascii c in
  ((n =? 32) || (9 <=? n) && (n <=? 13))%nat.

Fixpoint trimLeadingWhitespace (s : string) : string :=
  match s with
  | String c s' => if isWhitespace c then trimLeadingWhitespace s' else s
  | EmptyString => EmptyString
  end.

Definition trimWhitespace (s : string) : string :=
  String.rev (trimLeadingWhitespace (String.rev (trimLeadingWhitespace s))).

(** What the specification asks of [server_name] and [version], in its
    words: not empty after trimming whitespace. *)
Definition specNamesOk (t : Tuple) : Prop :=
  (exists n, server_name t = Some n
             /\ (0 < String.length (trimWhitespace n))%nat)
  /\ (exists v, version t = Some v
                /\ (0 < String.length (trimWhitespace v))%nat).

(** An INSERT whose server name is a tab and whose version is a line
    feed. *)
Definition blank : InsertValues :=
  {| i_server_name := Value (Some (String "009" EmptyString));
     i_version := Value (Some (String "010" EmptyString));
     i_deployed_at := UseDefault; i_updated_at := UseDefault;
     i_status := UseDefault; i_config := UseDefault;
     i_prefer_remote := UseDefault; i_resource_type := UseDefault |}.

End Deployments.

(** ** The transport resolver (package mcp of the CLI) *)

Module Transport.

(** Modelled from the spec: [resolveTransport] is called by
    [TestResolveTransport] but its definition is not among the sources.  The
    specification gives it as: [(stdio, _)] to [(stdio, "")];
    [(streamable-http, url)] with the URL defaulting to
    [http://localhost:3000/mcp] when empty; any other value a validation
    error "invalid transport". *)
Definition resolveTransport (transportType transportURL : string)
  : result (string * string) :=
  if String.eqb transportType "stdio" then Ok ("stdio", "")
  else if String.eqb transportType "streamable-http" then
    if String.eqb transportURL ""
    then Ok ("streamable-http", "http://localhost:3000/mcp")
    else Ok ("streamable-http", transportURL)
  else Err "invalid transport".

End Transport.

(** ** The OCI package validator (package registries) *)

Module OCI.
Import GoStrings.

(** The fields of [model.Package] the validator looks at. *)
Record Package : Type := {
  RegistryType : string;
  Identifier : string;
  RegistryBaseURL : string;
  Version : string;
  FileSHA256 : string
}.

(** Modelled from the spec: a parsed OCI reference,
    [registry/repository[:tag|@digest]].  [ref_host] is the registry host
    the identifier names, if it names one. *)
Record Reference : Type := {
  ref_host : option string;
  ref_repository : string;
  ref_tagOrDigest : string
}.

(** Modelled from the spec: the registry of a reference; an identifier
    without a registry host stands for one on docker.io. *)
Definition registryOf (ref : Reference) : string :=
  default "docker.io" (ref_host ref).

(** Modelled from the spec: the allowlist [{docker.io, ghcr.io, *.pkg.dev}]
    of registry hosts. *)
Definition registryAllowed (host : string) : bool :=
  String.eqb host "docker.io" || String.eqb host "ghcr.io"
  || HasSuffix host ".pkg.dev".

Section Validate.
(** The parser of OCI references and the fetch of an image manifest's
    annotations belong to libraries and to the network. *)
Variable parseReference : string -> option Reference.
Variable fetchAnnotations : Reference -> result (gmap string string).
(** The key of the canonical MCP annotation. *)
Variable mcpAnnotation : string.

(** Modelled from the spec: [ValidateOCI] is called by the tests of
    src/internal/registry/validators/registries/oci_test.go but its
    definition is not among the sources.  In the order of the
    specification: parse the reference; enforce the allowlist; disallow
    [registryBaseUrl], [version], [fileSha256]; fetch the image manifest and
    compare the annotation with the server name.  The messages are those
    the specification and the tests quote.  [None] is success. *)
Definition ValidateOCI (pkg : Package) (serverName : string) : option string :=
  if String.eqb (Identifier pkg) "" then Some "package identifier is required"
  else
    match parseReference (Identifier pkg) with
    | None => Some ("invalid OCI reference: " +:+ Identifier pkg)
    | Some ref =>
        if negb (registryAllowed (registryOf ref)) then
          Some ("unsupported OCI registry: " +:+ registryOf ref)
        else if negb (String.eqb (RegistryBaseURL pkg) "") then
          Some "OCI packages must not have 'registryBaseUrl' field"
        else if negb (String.eqb (Version pkg) "") then
          Some "OCI packages must not have 'version' field"
        else if negb (String.eqb (FileSHA256 pkg) "") then
          Some "OCI packages must not have 'fileSha256' field"
        else
          match fetchAnnotations ref with
          | Err _ => Some "upstream unavailable"
          | Ok annotations =>
              match annotations !! mcpAnnotation with
              | None =>
                  Some ("missing required annotation: " +:+ mcpAnnotation)
              | Some value =>
                  if String.eqb value serverName then None
                  else Some ("ownership validation failed. Expected annotation "
                             +:+ mcpAnnotation +:+ " = " +:+ serverName
                             +:+ ", got " +:+ value)
              end
          end
    end.

End Validate.

End OCI.

(** ** The Kubernetes translator (package kagent) *)

Module Kagent.

(** The desired state as the tests of the package build it. *)
Record ResolvedMCPServerConfig : Type := {
  ref_Name : string;
  ref_Type : string;
  ref_URL : string;
  ref_Headers : gmap string string
}.

Record AgentDeployment : Type := {
  dep_Image : string;
  dep_Env : gmap string string
}.

Record Agent : Type := {
  Name : string;
  Version : string;
  Deployment : AgentDeployment;
  ResolvedMCPServers : list ResolvedMCPServerConfig
}.

Record DesiredState : Type := {
  Agents : list Agent
}.

(** The resources the tests read back. *)
Record Volume : Type := {
  vol_Name : string;
  vol_ConfigMapName : string
}.

Record VolumeMount : Type := {
  mount_Name : string;
  mount_MountPath : string
}.

Record ByoDeployment : Type := {
  byo_Image : string;
  byo_Env : gmap string string;
  byo_Volumes : list Volume;
  byo_VolumeMounts : list VolumeMount
}.

Record AgentCR : Type := {
  agent_Name : string;
  agent_Namespace : string;
  agent_Deployment : ByoDeployment
}.

Record ConfigMap : Type := {
  cm_Name : string;
  cm_Namespace : string;
  cm_Data : gmap string string
}.

Record KubernetesRuntimeConfig : Type := {
  AgentCRs : list AgentCR;
  ConfigMaps : list ConfigMap
}.

Section Translator.
(** The Unicode case mapping of [strings.ToLower], as for the internal names
    of package registry. *)
Variable unicodeToLower : string -> string.
(** [json.Marshal] of the resolved references (strings and maps of strings:
    the encoding cannot fail). *)
Variable jsonMarshal : list ResolvedMCPServerConfig -> string.

(** Modelled from the spec: the namespace of a resource is the value of the
    special env [KAGENT_NAMESPACE], otherwise [default]. *)
Definition namespaceOf (env : gmap string string) : string :=
  default "default" (env !! "KAGENT_NAMESPACE").

(** Modelled from the spec: the name of an agent's resource,
    [<internal>-<version>], where [<internal>] is the internal name of the
    agent's name: the name in lower case with every character outside
    [[a-z0-9-]] replaced by ['-'], repeats collapsed, leading and trailing
    ['-'] trimmed. *)
Definition agentResourceName (agent : Agent) : string :=
  Registry.specInternalName unicodeToLower (Name agent)
  +:+ "-" +:+ Version agent.

(** Modelled from the spec: the ConfigMap of an agent that references MCP
    servers, [<agent>-mcp-config] with the JSON of the references under
    [mcp-servers.json]; none for an agent without references. *)
Definition mcpConfigMap (agent : Agent) : option ConfigMap :=
  match ResolvedMCPServers agent with
  | [] => None
  | refs =>
      Some {| cm_Name := agentResourceName agent +:+ "-mcp-config";
              cm_Namespace := namespaceOf (dep_Env (Deployment agent));
              cm_Data := {["mcp-servers.json" := jsonMarshal refs]} |}
  end.

(** Modelled from the spec: the translation of one agent.  The definition of
    the translator is not among the sources, only its tests are.  An agent
    becomes an [Agent] resource named [<internal>-<version>] with the image
    and env of its deployment and, when it has a ConfigMap, a volume
    [mcp-config] of that ConfigMap mounted at [/config]. *)
Definition translateAgent (agent : Agent) : AgentCR :=
  {| agent_Name := agentResourceName agent;
     agent_Namespace := namespaceOf (dep_Env (Deployment agent));
     agent_Deployment :=
       {| byo_Image := dep_Image (Deployment agent);
          byo_Env := dep_Env (Deployment agent);
          byo_Volumes :=
            match mcpConfigMap agent with
            | Some cm => [{| vol_Name := "mcp-config";
                             vol_ConfigMapName := cm_Name cm |}]
            | None => []
            end;
          byo_VolumeMounts :=
            match mcpConfigMap agent with
            | Some _ => [{| mount_Name := "mcp-config";
                            mount_MountPath := "/config" |}]
            | None => []
            end |} |}.

(** Modelled from the spec: the agents of the desired state in turn, each
    adding its resource and, if it has one, its ConfigMap. *)
Definition TranslateRuntimeConfig (desired : DesiredState)
  : result KubernetesRuntimeConfig :=
  Ok {| AgentCRs := List.map translateAgent (Agents desired);
        ConfigMaps := omap mcpConfigMap (Agents desired) |}.

End Translator.

End Kagent.

(** ** The registry translator (package registry) *)

Module RegistryTranslator.

Section Translator.
(** The remotes and packages of a [ServerJSON] belong to the package of the
    upstream registry; the translator only looks whether there are any. *)
Variable Remote : Type.
Variable Package : Type.
Variable unicodeToLower : string -> string.

Record ServerJSON : Type := {
  Name : string;
  Remotes : list Remote;
  Packages : list Package
}.

(** [TranslateMCPServer]: both cases of its switch are empty, the result
    does not depend on the remotes and packages, and the error is [nil]. *)
Definition TranslateMCPServer (registryServer : ServerJSON)
  (env : gmap string string) : result Api.MCPServer :=
  Ok {| Api.Name :=
          Registry.generateInternalName unicodeToLower (Name registryServer);
        Api.Deployment :=
          {| Api.Image := ""; Api.Port := 0; Api.Cmd := ""; Api.Args := [];
             Api.Env := env |};
        Api.TransportType := "";
        Api.Stdio := None;
        Api.HTTP := None |}.

End Translator.

End RegistryTranslator.

(** ** Desired states, as the compose translator sees them *)

Module ComposeSpec.

(** The servers the compose translator makes a service for. *)
Definition isHTTP (server : Api.MCPServer) : bool :=
  String.eqb (Api.TransportType server) Api.TransportTypeHTTP.

(** A server with an image, or with one of the commands that have a default
    image. *)
Definition hasImage (server : Api.MCPServer) : bool :=
  negb (String.eqb (Api.Image (Api.Deployment server)) "")
  || String.eqb (Api.Cmd (Api.Deployment server)) "uvx"
  || String.eqb (Api.Cmd (Api.Deployment server)) "npx".

Definition httpNames (servers : list Api.MCPServer) : list string :=
  List.map Api.Name (List.filter isHTTP servers).

End ComposeSpec.

(** ** The configuration of the daemon manager (package daemon) *)

Module DaemonManager.
Import Daemon.

Section Defaults.
(** The compose file embedded in the binary and the build's registry and
    version: [daemon.DockerComposeYaml], [version.DockerRegistry],
    [version.Version]. *)
Variable DockerComposeYaml : string.
Variable versionDockerRegistry : string.
Variable versionVersion : string.

Definition DefaultConfig : DaemonConfig :=
  {| ProjectName := "agentregistry";
     ContainerName := "agentregistry-server";
     ComposeYAML := DockerComposeYaml;
     DockerRegistry := versionDockerRegistry;
     Version := versionVersion |}.

(** [NewDaemonManager]: the defaults, with each field of [config] that is
    not empty in their place; [None] is the nil pointer. *)
Definition NewDaemonManager (config : option DaemonConfig)
  : DefaultDaemonManager :=
  let cfg := DefaultConfig in
  match config with
  | None => {| Daemon.config := cfg |}
  | Some config =>
      let cfg :=
        if negb (String.eqb (ProjectName config) "")
        then {| ProjectName := ProjectName config;
                ContainerName := ContainerName cfg;
                ComposeYAML := ComposeYAML cfg;
                DockerRegistry := DockerRegistry cfg;
                Version := Version cfg |}
        else cfg in
      let cfg :=
        if negb (String.eqb (ContainerName config) "")
        then {| ProjectName := ProjectName cfg;
                ContainerName := ContainerName config;
                ComposeYAML := ComposeYAML cfg;
                DockerRegistry := DockerRegistry cfg;
                Version := Version cfg |}
        else cfg in
      let cfg :=
        if negb (String.eqb (ComposeYAML config) "")
        then {| ProjectName := ProjectName cfg;
                ContainerName := ContainerName cfg;
                ComposeYAML := ComposeYAML config;
                DockerRegistry := DockerRegistry cfg;
                Version := Version cfg |}
        else cfg in
      let cfg :=
        if negb (String.eqb (DockerRegistry config) "")
        then {| ProjectName := ProjectName cfg;
                ContainerName := ContainerName cfg;
                ComposeYAML := ComposeYAML cfg;
                DockerRegistry := DockerRegistry config;
                Version := Version cfg |}
        else cfg in
      let cfg :=
        if negb (String.eqb (Version config) "")
        then {| ProjectName := ProjectName cfg;
                ContainerName := ContainerName cfg;
                ComposeYAML := ComposeYAML cfg;
                DockerRegistry := DockerRegistry cfg;
                Version := Version config |}
        else cfg in
      {| Daemon.config := cfg |}
  end.

End Defaults.

(** A field of a configuration, or the default where the field is empty. *)
Definition orElse (given dflt : string) : string :=
  if String.eqb given "" then dflt else given.

(** A cluster entry the loop of [getComposeYAML] patches: a map with a map
    under [cluster] whose [server] is a local URL. *)
Definition isLocalCluster (c : any) : bool :=
  match c with
  | VMap cluster =>
      match cluster !! "cluster" with
      | Some (VMap clusterData) =>
          match clusterData !! "server" with
          | Some (VString server) => isLocalURL server
          | _ => false
          end
      | _ => false
      end
  | _ => false
  end.

End DaemonManager.

(** ** Helpers of the command line (packages cli and mcp) *)

Module Cli.
Import GoStrings.

(** [s[lo:hi]]. *)
Definition slice (s : string) (lo hi : nat) : string :=
  String.substring lo (hi - lo) s.

(** [splitServerName]; [strings.Split(fullName, "/")] is [splitSlash]. *)
Definition splitServerName (fullName : string) : string * string :=
  match GoPath.splitSlash fullName with
  | [namespace; name] => (namespace, name)
  | _ => ("", fullName)
  end.

(** The loop of [findFirstEquals] from the byte offset [i] on.  The loop
    ranges over runes; ['='] is one byte that is in no longer encoding, and
    a byte that starts no valid encoding is a rune of width one, so the
    offsets are those of the bytes. *)
Fixpoint findFirstEqualsFrom (i : Z) (s : string) : Z :=
  match s with
  | EmptyString => (-1)%Z
  | String c s' =>
      if Ascii.eqb c "=" then i else findFirstEqualsFrom (i + 1)%Z s'
  end.

Definition findFirstEquals (s : string) : Z := findFirstEqualsFrom 0 s.

(** The loop of [parseKeyValuePairs], with the map built so far. *)
Fixpoint parseKeyValuePairsInto (pairs : list string)
  (parsed : gmap string string) : result (gmap string string) :=
  match pairs with
  | [] => Ok parsed
  | kv :: rest =>
      let idx := findFirstEquals kv in
      if (idx =? -1)%Z then
        Err ("invalid key=value pair (missing =): " +:+ kv)
      else
        let key := slice kv 0 (Z.to_nat idx) in
        let value := slice kv (Z.to_nat (idx + 1)) (String.length kv) in
        parseKeyValuePairsInto rest (<[key := value]> parsed)
  end.

Definition parseKeyValuePairs (pairs : list string)
  : result (gmap string string) :=
  parseKeyValuePairsInto pairs ∅.

(** [strings.SplitN(s, "=", 2)]: [s] alone when it has no ['='], otherwise
    what is before the first ['='] and what is after it. *)
Definition SplitN2 (s : string) : list string :=
  let idx := findFirstEquals s in
  if (idx =? -1)%Z then [s]
  else [slice s 0 (Z.to_nat idx);
        slice s (Z.to_nat (idx + 1)) (String.length s)].

(** One of the three loops of [runDeploy] over flags [KEY=VALUE]: each entry
    is put into [config] under its key with [prefix] before it. *)
Fixpoint addFlags (what prefix : string) (flags : list string)
  (config : gmap string string) : result (gmap string string) :=
  match flags with
  | [] => Ok config
  | flag :: rest =>
      match SplitN2 flag with
      | [key; value] =>
          addFlags what prefix rest (<[prefix +:+ key := value]> config)
      | _ =>
          Err ("invalid " +:+ what +:+ " format (expected KEY=VALUE): "
               +:+ flag)
      end
  end.

(** The config that [runDeploy] of package mcp builds from its flags and
    passes to [DeployServer]: the env entries, the args under [ARG_], the
    headers under [HEADER_], and for the kubernetes runtime the namespace. *)
Definition deployConfig (deployEnv deployArgs deployHeaders : list string)
  (deployRuntime deployNamespace : string)
  : result (gmap string string) :=
  match addFlags "env" "" deployEnv ∅ with
  | Err e => Err e
  | Ok config =>
      match addFlags "arg" "ARG_" deployArgs config with
      | Err e => Err e
      | Ok config =>
          match addFlags "header" "HEADER_" deployHeaders config with
          | Err e => Err e
          | Ok config =>
              if String.eqb deployRuntime "kubernetes"
                 && negb (String.eqb deployNamespace "")
              then Ok (<["KAGENT_NAMESPACE" := deployNamespace]> config)
              else Ok config
          end
      end
  end.

(** A server of the registry as the commands see it. *)
Record ServerResponse : Type := {
  Name : string;
  Version : string
}.

Section Find.
Variable unicodeToLower : string -> string.

(** The name a server is found under without its namespace: what follows
    the ['/'] when there is exactly one, the whole name otherwise, in lower
    case. *)
Definition namePart (s : ServerResponse) : string :=
  match GoPath.splitSlash (Name s) with
  | [_; part] => ToLower unicodeToLower part
  | _ => ToLower unicodeToLower (Name s)
  end.

(** The first loop of [findServersByName]. *)
Fixpoint firstExact (servers : list ServerResponse) (searchName : string)
  : option ServerResponse :=
  match servers with
  | [] => None
  | s :: rest =>
      if String.eqb (Name s) searchName then Some s
      else firstExact rest searchName
  end.

(** [findServersByName] on the servers the API client returned. *)
Definition findServersByName (servers : list ServerResponse)
  (searchName : string) : list ServerResponse :=
  match firstExact servers searchName with
  | Some s => [s]
  | None =>
      let searchLower := ToLower unicodeToLower searchName in
      List.filter (fun s => String.eqb (namePart s) searchLower) servers
  end.

End Find.

(** One byte in two hexadecimal digits, as [hex.EncodeToString] writes it. *)
Definition hexDigit (n : nat) : ascii :=
  if (n <? 10)%nat then ascii_of_nat (48 + n) else ascii_of_nat (87 + n).

Fixpoint EncodeToString (src : list ascii) : string :=
  match src with
  | [] => EmptyString
  | b :: rest =>
      String (hexDigit (nat_of_ascii b / 16))
        (String (hexDigit (nat_of_ascii b mod 16)) (EncodeToString rest))
  end.

(** [generateRandomName], given what [rand.Read] put into the eight bytes
    or its error. *)
Definition generateRandomName (random : result (list ascii))
  : result string :=
  match random with
  | Err e => Err ("failed to generate random name: " +:+ e)
  | Ok randomBytes => Ok (EncodeToString randomBytes)
  end.

(** [generateRuntimePaths]: the project name and the runtime directory. *)
Definition generateRuntimePaths (random : result (list ascii))
  (w : Daemon.World) (prefix : string) : result (string * string) :=
  match generateRandomName random with
  | Err e => Err e
  | Ok randomName =>
      let projectName := prefix +:+ randomName in
      match Daemon.UserHomeDir w with
      | Err e => Err ("failed to get home directory: " +:+ e)
      | Ok homeDir =>
          let baseRuntimeDir := GoPath.Join [homeDir; ".arctl"; "runtime"] in
          let runtimeDir := GoPath.Join [baseRuntimeDir; prefix +:+ randomName] in
          Ok (projectName, runtimeDir)
      end
  end.

End Cli.

(** ** Words for what the helpers of the command line do *)

Module CliSpec.

(** The string has no byte [c]. *)
Definition noByte (c : ascii) (s : string) : bool :=
  forallb (fun x => negb (Ascii.eqb x c)) (list_ascii_of_string s).

(** How many bytes [c] the string has. *)
Definition countByte (c : ascii) (s : string) : nat :=
  length (List.filter (fun x => Ascii.eqb x c) (list_ascii_of_string s)).

(** What is before and after the first ['='] of a string that has one. *)
Fixpoint cutEq (s : string) : option (string * string) :=
  match s with
  | EmptyString => None
  | String c s' =>
      if Ascii.eqb c "=" then Some (EmptyString, s')
      else match cutEq s' with
           | Some (k, v) => Some (String c k, v)
           | None => None
           end
  end.

(** A flag [KEY=VALUE]. *)
Definition flag (kv : string * string) : string :=
  fst kv +:+ "=" +:+ snd kv.

(** A key with a prefix before it. *)
Definition prefixed (prefix : string) (kv : string * string)
  : string * string :=
  (prefix +:+ fst kv, snd kv).

(** The map of a list of keys and values in which a later entry replaces an
    earlier one with the same key. *)
Definition lastWins (kvs : list (string * string)) : gmap string string :=
  list_to_map (List.rev kvs).

(** The digits [hex.EncodeToString] writes. *)
Definition hexDigits : list ascii := list_ascii_of_string "0123456789abcdef".

End CliSpec.

(** ** Words for what the deployments table keeps *)

Module DeploymentsSpec.
Import Deployments.

(** What the columns added to the first five, and the NOT NULL of the
    timestamps, ask of a stored row. *)
Definition rowTyped (t : Tuple) : Prop :=
  (exists r, resource_type t = Some r /\ In r ["mcp"; "agent"])
  /\ (exists d, deployed_at t = Some d)
  /\ (exists u, updated_at t = Some u).

(** [WHERE server_name = name]. *)
Definition byName (name : string) (t : Tuple) : bool :=
  match server_name t with
  | Some n => String.eqb n name
  | None => false
  end.

End DeploymentsSpec.

(** ** Ranging over a string (package unicode/utf8) *)

Module GoUtf8.

(** U+FFFD as [string(c)] writes it. *)
Definition RuneError : string :=
  String (ascii_of_nat 239) (String (ascii_of_nat 191)
    (String (ascii_of_nat 189) EmptyString)).

(** The length of the encoding a first byte announces, [0] for a byte that
    starts none. *)
Definition size (b0 : ascii) : nat :=
  let n := nat_of_ascii b0 in
  if (n <? 128)%nat then 1
  else if (n <? 194)%nat then 0
  else if (n <? 224)%nat then 2
  else if (n <? 240)%nat then 3
  else if (n <? 245)%nat then 4
  else 0.

(** The second byte is in the range the first byte accepts. *)
Definition secondOk (b0 b1 : ascii) : bool :=
  let n0 := nat_of_ascii b0 in
  let lo := if (n0 =? 224)%nat then 160 else if (n0 =? 240)%nat then 144
            else 128 in
  let hi := if (n0 =? 237)%nat then 159 else if (n0 =? 244)%nat then 143
            else 191 in
  (lo <=? nat_of_ascii b1)%nat && (nat_of_ascii b1 <=? hi)%nat.

(** A continuation byte. *)
Definition cont (b : ascii) : bool :=
  (128 <=? nat_of_ascii b)%nat && (nat_of_ascii b <=? 191)%nat.

(** The runes of [for _, c := range s], each as [string(c)]: the bytes of a
    valid encoding as they are, and U+FFFD for a byte that starts none, after
    which the loop goes on at the next byte. *)
Fixpoint runes (s : string) : list string :=
  match s with
  | EmptyString => []
  | String b0 s1 =>
      match size b0 with
      | 1 => String b0 EmptyString :: runes s1
      | 2 =>
          match s1 with
          | String b1 s2 =>
              if secondOk b0 b1
              then String b0 (String b1 EmptyString) :: runes s2
              else RuneError :: runes s1
          | _ => RuneError :: runes s1
          end
      | 3 =>
          match s1 with
          | String b1 (String b2 s3) =>
              if secondOk b0 b1 && cont b2
              then String b0 (String b1 (String b2 EmptyString)) :: runes s3
              else RuneError :: runes s1
          | _ => RuneError :: runes s1
          end
      | 4 =>
          match s1 with
          | String b1 (String b2 (String b3 s4)) =>
              if secondOk b0 b1 && cont b2 && cont b3
              then String b0 (String b1 (String b2 (String b3 EmptyString)))
                   :: runes s4
              else RuneError :: runes s1
          | _ => RuneError :: runes s1
          end
      | _ => RuneError :: runes s1
      end
  end.

(** The string a loop builds with [current += string(c)] over all of [s]. *)
Definition ToValidUTF8 (s : string) : string :=
  List.fold_right String.append EmptyString (runes s).

(** One rune in its encoding. *)
Definition isRune (r : string) : bool :=
  match r with
  | String b0 EmptyString => (size b0 =? 1)%nat
  | String b0 (String b1 EmptyString) => (size b0 =? 2)%nat && secondOk b0 b1
  | String b0 (String b1 (String b2 EmptyString)) =>
      (size b0 =? 3)%nat && secondOk b0 b1 && cont b2
  | String b0 (String b1 (String b2 (String b3 EmptyString))) =>
      (size b0 =? 4)%nat && secondOk b0 b1 && cont b2 && cont b3
  | _ => false
  end.

End GoUtf8.

(** ** The configuration file of the command line *)

Module ConfigFile.
Import GoStrings GoUtf8 Daemon.

(** The loop of [splitLines] over the runes that are left. *)
Fixpoint splitLinesLoop (rs : list string) (lines : list string)
  (current : string) : list string :=
  match rs with
  | [] => if String.eqb current "" then lines else (lines ++ [current])%list
  | c :: rs' =>
      if String.eqb c (String "010" EmptyString)
      then splitLinesLoop rs' (lines ++ [current])%list EmptyString
      else splitLinesLoop rs' lines (current +:+ c)
  end.

Definition splitLines (s : string) : list string :=
  splitLinesLoop (runes s) [] EmptyString.

(** [splitKeyValue]: the line cut at its first ['='], or the line alone. *)
Definition splitKeyValue (line : string) : list string :=
  let i := Cli.findFirstEquals line in
  if (i =? -1)%Z then [line]
  else [Cli.slice line 0 (Z.to_nat i);
        Cli.slice line (Z.to_nat (i + 1)) (String.length line)].

(** The loop of [joinLines] from the index [i] on. *)
Fixpoint joinLinesFrom (i len : nat) (lines : list string) (joined : string)
  : string :=
  match lines with
  | [] => joined
  | line :: rest =>
      let joined := joined +:+ line in
      let joined :=
        if (i <? len - 1)%nat then joined +:+ String "010" EmptyString
        else joined in
      joinLinesFrom (S i) len rest joined
  end.

Definition joinLines (lines : list string) : string :=
  joinLinesFrom 0 (length lines) lines EmptyString.

(** [os.ReadFile] on a path that may be a directory. *)
Definition ReadFile (w : World) (name : string) : result string :=
  if decide (name ∈ dirs w) then Err "is a directory"
  else Daemon.ReadFile w name.

(** [os.IsNotExist] on the errors of [ReadFile]. *)
Definition IsNotExist (e : string) : bool :=
  String.eqb e "no such file or directory".

(** [getConfigDir]; the directory is made on the way. *)
Definition getConfigDir (w : World) : result string * World :=
  match UserHomeDir w with
  | Err e => (Err ("failed to get home directory: " +:+ e), w)
  | Ok homeDir =>
      let configDir := GoPath.Join [homeDir; ".arctl"] in
      match MkdirAll w configDir with
      | Err e => (Err ("failed to create config directory: " +:+ e), w)
      | Ok w' => (Ok configDir, w')
      end
  end.

Definition getConfigPath (w : World) : result string * World :=
  match getConfigDir w with
  | (Err e, w') => (Err e, w')
  | (Ok configDir, w') => (Ok (GoPath.Join [configDir; "config"]), w')
  end.

(** The loop of [getConfig]: the value of the first line with the key. *)
Fixpoint lookupLine (key : string) (lines : list string) : string :=
  match lines with
  | [] => EmptyString
  | line :: rest =>
      match splitKeyValue line with
      | [k; v] => if String.eqb k key then v else lookupLine key rest
      | _ => lookupLine key rest
      end
  end.

Definition getConfig (key : string) (w : World) : result string * World :=
  match getConfigPath w with
  | (Err e, w') => (Err e, w')
  | (Ok configPath, w') =>
      match ReadFile w' configPath with
      | Err e =>
          if IsNotExist e then (Ok EmptyString, w')
          else (Err ("failed to read config: " +:+ e), w')
      | Ok data => (Ok (lookupLine key (splitLines data)), w')
      end
  end.

(** The loop of [setConfig] that updates the first line with the key;
    [None] when no line has it. *)
Fixpoint updateLine (key value : string) (lines : list string)
  : option (list string) :=
  match lines with
  | [] => None
  | line :: rest =>
      let next := option_map (cons line) (updateLine key value rest) in
      match splitKeyValue line with
      | [k; _] =>
          if String.eqb k key then Some ((key +:+ "=" +:+ value) :: rest)
          else next
      | _ => next
      end
  end.

Definition setConfig (key value : string) (w : World)
  : result unit * World :=
  match getConfigPath w with
  | (Err e, w') => (Err e, w')
  | (Ok configPath, w') =>
      let update := fun lines : list string =>
        let lines :=
          match updateLine key value lines with
          | Some lines' => lines'
          | None => (lines ++ [key +:+ "=" +:+ value])%list
          end in
        match WriteFile w' configPath (joinLines lines) with
        | Err e => (Err ("failed to write config: " +:+ e), w')
        | Ok w'' => (Ok tt, w'')
        end in
      match ReadFile w' configPath with
      | Err e =>
          if negb (IsNotExist e)
          then (Err ("failed to read config: " +:+ e), w')
          else update []
      | Ok data => update (splitLines data)
      end
  end.

(** [GetDefaultRegistry]. *)
Definition GetDefaultRegistry (w : World) : string * World :=
  match getConfig "registry" w with
  | (Err _, w') => (EmptyString, w')
  | (Ok registry, w') => (registry, w')
  end.

End ConfigFile.


(** ** Words for what the configuration file keeps *)

Module ConfigFileSpec.
Import GoUtf8 CliSpec.

Definition newline : string := String "010" EmptyString.

(** A string that is valid UTF-8 and has no line break: a line as
    [splitLines] returns it. *)
Definition cleanLine (s : string) : Prop :=
  ToValidUTF8 s = s /\ noByte "010" s = true.

(** The lines with a line break between them. *)
Fixpoint joinNL (lines : list string) : string :=
  match lines with
  | [] => EmptyString
  | [l] => l
  | l :: rest => l +:+ newline +:+ joinNL rest
  end.

(** The lines, each with a line break after it. *)
Fixpoint eachNL (lines : list string) : string :=
  match lines with
  | [] => EmptyString
  | l :: rest => l +:+ newline +:+ eachNL rest
  end.

(** The lines without the last one when it is empty. *)
Fixpoint dropLastEmpty (lines : list string) : list string :=
  match lines with
  | [] => []
  | [l] => if String.eqb l "" then [] else [l]
  | l :: rest => l :: dropLastEmpty rest
  end.

(** The path of the configuration file under a home directory. *)
Definition configPathOf (homeDir : string) : string :=
  GoPath.Join [Daemon.arctlDirOf homeDir; "config"].

End ConfigFileSpec.


(** ** Helpers of the project detector (package detector) *)

Module Detector.
Import GoStrings.

(** The loop of [containsHelper] at the offset [i], with [n] offsets left
    to try: [s[i:i+len(substr)] == substr]. *)
Fixpoint containsHelperFrom (n i : nat) (s substr : string) : bool :=
  match n with
  | O => false
  | S n' =>
      if String.eqb (Cli.slice s i (i + String.length substr)) substr
      then true
      else containsHelperFrom n' (S i) s substr
  end.

(** [containsHelper]: the offsets from [0] to [len(s)-len(substr)], none
    when that is negative. *)
Definition containsHelper (s substr : string) : bool :=
  containsHelperFrom
    (Z.to_nat (Z.of_nat (String.length s) - Z.of_nat (String.length substr)
               + 1))
    0 s substr.

Definition contains (s substr : string) : bool :=
  (0 <? String.length s)%nat && (0 <? String.length substr)%nat
  && (String.length substr <=? String.length s)%nat
  && (String.eqb s substr
      || (String.length substr <? String.length s)%nat
         && containsHelper s substr).

End Detector.


(** * Properties *)

(** ** Facts about the string functions *)

Module GoStringsFacts.
Import GoStrings.

Lemma mapBytes_mapBytes (f g : ascii -> ascii) (s : string) :
  mapBytes f (mapBytes g s) = mapBytes (fun c => f (g c)) s.
Proof. induction s as [|c s IH]; simpl; [reflexivity | now rewrite IH]. Qed.

Lemma mapBytes_ext_on (f g : ascii -> ascii) (s : string) :
  (forall c, In c (list_ascii_of_string s) -> f c = g c) ->
  mapBytes f s = mapBytes g s.
Proof.
  induction s as [|c s IH]; simpl; intros H; [reflexivity |].
  rewrite (H c) by now left.
  f_equal. apply IH. intros d Hd. apply H. now right.
Qed.

Lemma mapBytes_length (f : ascii -> ascii) (s : string) :
  String.length (mapBytes f s) = String.length s.
Proof. induction s as [|c s IH]; simpl; [reflexivity | now rewrite IH]. Qed.

Lemma list_ascii_of_mapBytes (f : ascii -> ascii) (s : string) :
  list_ascii_of_string (mapBytes f s) = List.map f (list_ascii_of_string s).
Proof. induction s as [|c s IH]; simpl; [reflexivity | now rewrite IH]. Qed.

(** Replacing a one-byte pattern by a one-byte string is a byte-wise map. *)
Lemma ReplaceAll_byte (s : string) (c d : ascii) :
  ReplaceAll s (String c EmptyString) (String d EmptyString)
  = mapBytes (fun x => if Ascii.eqb x c then d else x) s.
Proof.
  unfold ReplaceAll.
  induction s as [|x s IH]; simpl; [reflexivity |].
  unfold HasPrefix; simpl.
  destruct (ascii_dec c x) as [->|Hne].
  - rewrite Ascii.eqb_refl.
    replace (String.prefix "" s) with true by (now destruct s).
    simpl. now rewrite IH.
  - destruct (Ascii.eqb_spec x c) as [->|_]; [congruence |].
    now rewrite IH.
Qed.

Lemma isASCII_mapBytes (f : ascii -> ascii) (s : string) :
  (forall c, isASCIIbyte c = true -> isASCIIbyte (f c) = true) ->
  isASCII s = true -> isASCII (mapBytes f s) = true.
Proof.
  intros Hf. unfold isASCII.
  induction s as [|c s IH]; simpl; [reflexivity |].
  intros [Hc Hs]%andb_true_iff.
  rewrite (Hf c Hc). simpl. now apply IH.
Qed.

End GoStringsFacts.

(** ** Internal names *)

Module RegistryFacts.
Import GoStrings GoStringsFacts Registry.

Lemma replace_keeps_ascii (c d x : ascii) :
  isASCIIbyte d = true -> isASCIIbyte x = true ->
  isASCIIbyte (if Ascii.eqb x c then d else x) = true.
Proof. intros Hd Hx. now destruct (Ascii.eqb x c). Qed.

Lemma internalByte_chain (c : ascii) :
  isASCIIbyte c = true ->
  fold_left (fun x r => if Ascii.eqb x r then "-"%char else x)
    (List.tl replacedBytes)
    (lowerByte (if Ascii.eqb c " " then "-"%char else c))
  = internalByte c.
Proof.
  destruct c as [[] [] [] [] [] [] [] []]; intros H;
    first [discriminate H | vm_compute; reflexivity].
Qed.

(** On an ASCII name the function is a byte-wise map. *)
(** The chain of replacements after the lower-casing, as a fold over the
    replaced characters. *)
Lemma generateInternalName_fold (lower : string -> string) (server : string) :
  generateInternalName lower server
  = fold_left (fun name r => ReplaceAll name (String r "") "-")
      (List.tl replacedBytes) (ToLower lower (ReplaceAll server " " "-")).
Proof. reflexivity. Qed.

Lemma mapBytes_id (s : string) : mapBytes (fun c => c) s = s.
Proof. induction s as [|c s IH]; simpl; [reflexivity | now rewrite IH]. Qed.

Lemma replace_chain (l : list ascii) (s : string) :
  fold_left (fun name r => ReplaceAll name (String r "") "-") l s
  = mapBytes
      (fun c => fold_left (fun x r => if Ascii.eqb x r then "-"%char else x) l c)
      s.
Proof.
  revert s. induction l as [|r l IH]; intros s; cbn [fold_left].
  - now rewrite mapBytes_id.
  - rewrite ReplaceAll_byte, IH, mapBytes_mapBytes. reflexivity.
Qed.

(** On an ASCII name the function is a byte-wise map. *)
Lemma generateInternalName_ascii (lower : string -> string) (name : string) :
  isASCII name = true ->
  generateInternalName lower name = mapBytes internalByte name.
Proof.
  intros Hascii. rewrite generateInternalName_fold. unfold ToLower.
  rewrite (ReplaceAll_byte name " " "-").
  rewrite isASCII_mapBytes;
    [| intros c Hc; now apply replace_keeps_ascii | assumption].
  rewrite replace_chain, !mapBytes_mapBytes.
  apply mapBytes_ext_on. intros c Hin.
  apply internalByte_chain.
  unfold isASCII in Hascii. rewrite forallb_forall in Hascii.
  now apply Hascii.
Qed.

End RegistryFacts.

Module InternalNameClaims.
Import GoStrings GoStringsFacts Registry RegistryFacts.

Lemma handled_byte_ascii (c : ascii) :
  isHandledByte c = true -> isASCIIbyte c = true.
Proof.
  destruct c as [[] [] [] [] [] [] [] []]; intros H;
    first [reflexivity | discriminate H].
Qed.

Lemma handled_byte_internal (c : ascii) :
  isHandledByte c = true -> internalByte c = dashUnlessLabel (lowerByte c).
Proof.
  destruct c as [[] [] [] [] [] [] [] []]; intros H;
    first [reflexivity | discriminate H].
Qed.

Lemma dashUnlessLabel_label (c : ascii) :
  isLabelByte (dashUnlessLabel c) = true.
Proof.
  unfold dashUnlessLabel. destruct (isLabelByte c) eqn:E; [exact E | reflexivity].
Qed.

Lemma handled_isASCII (name : string) :
  forallb isHandledByte (list_ascii_of_string name) = true ->
  isASCII name = true.
Proof.
  unfold isASCII. rewrite !forallb_forall.
  intros H c Hc. apply handled_byte_ascii. now apply H.
Qed.

Lemma rev_app_rev_app (a b c : string) :
  String.rev_app (String.rev_app a b) c = String.rev_app b (a +:+ c).
Proof.
  revert b c. induction a as [|x a IH]; intros b c; [reflexivity |].
  cbn [String.rev_app]. now rewrite IH.
Qed.

Lemma rev_rev (s : string) : String.rev (String.rev s) = s.
Proof.
  unfold String.rev. rewrite rev_app_rev_app. cbn [String.rev_app].
  induction s as [|x s IH]; simpl; [reflexivity | now rewrite IH].
Qed.

Lemma firstByte_rev_app (s acc : string) (b : ascii) :
  lastByte s = Some b -> firstByte (String.rev_app s acc) = Some b.
Proof.
  revert acc. induction s as [|x s IH]; intros acc; [discriminate |].
  cbn [String.rev_app]. destruct s as [|y s].
  - now intros [= <-].
  - intros H. now apply IH.
Qed.

Lemma trimLeadingDashes_none (s : string) (a : ascii) :
  firstByte s = Some a -> a <> "-"%char -> trimLeadingDashes s = s.
Proof.
  destruct s as [|c s]; [discriminate |]. intros [= <-] Hne. simpl.
  destruct (Ascii.eqb_spec c "-"); [contradiction | reflexivity].
Qed.

(** Nothing is trimmed from a string that neither starts nor ends with
    ['-']. *)
Lemma trimDashes_none (s : string) (a b : ascii) :
  firstByte s = Some a -> lastByte s = Some b ->
  a <> "-"%char -> b <> "-"%char -> trimDashes s = s.
Proof.
  intros Ha Hb Hna Hnb. unfold trimDashes.
  rewrite (trimLeadingDashes_none s a Ha Hna).
  rewrite (trimLeadingDashes_none (String.rev s) b); [apply rev_rev | | exact Hnb].
  now apply firstByte_rev_app.
Qed.

Lemma firstByte_mapBytes (f : ascii -> ascii) (s : string) :
  firstByte (mapBytes f s) = f <$> firstByte s.
Proof. now destruct s. Qed.

Lemma lastByte_mapBytes (f : ascii -> ascii) (s : string) :
  lastByte (mapBytes f s) = f <$> lastByte s.
Proof.
  induction s as [|c s IH]; [reflexivity |].
  destruct s as [|y s]; [reflexivity |]. exact IH.
Qed.

Lemma alnum_byte_kept (c : ascii) :
  isAlnumByte c = true ->
  dashUnlessLabel (lowerByte c) <> "-"%char
  /\ isAlnumByte (dashUnlessLabel (lowerByte c)) = true.
Proof.
  destruct c as [[] [] [] [] [] [] [] []]; intros H;
    first [discriminate H | split; [discriminate | reflexivity]].
Qed.

(** C1, as the code has it, for the names on which the function gives a
    DNS-1123 compliant name.  For a name made of letters, digits, ['-'] and
    the characters the function replaces, that starts with a letter or digit
    and ends with one, the internal name is the lower-cased name with every
    character outside [[a-z0-9-]] replaced by ['-'] and leading and trailing
    ['-'] trimmed, of which there are none; runs of ['-'] are not collapsed,
    so the result has the length of the name.  It consists of characters of
    [[a-z0-9-]] only and starts and ends with a letter or digit.  Equal
    names have equal internal names. *)
Theorem generateInternalName_handled (lower : string -> string) (name : string) :
  forallb isHandledByte (list_ascii_of_string name) = true ->
  alnumEnds name = true ->
  generateInternalName lower name
    = trimDashes (mapBytes dashUnlessLabel (ToLower lower name))
  /\ String.length (generateInternalName lower name) = String.length name
  /\ forallb isLabelByte
       (list_ascii_of_string (generateInternalName lower name)) = true
  /\ alnumEnds (generateInternalName lower name) = true
  /\ (forall name' : string,
        name' = name ->
        generateInternalName lower name' = generateInternalName lower name).
Proof.
  intros Hh Hends.
  pose proof (handled_isASCII name Hh) as Hascii.
  assert (E : generateInternalName lower name
              = mapBytes dashUnlessLabel (ToLower lower name)).
  { rewrite generateInternalName_ascii by assumption.
    unfold ToLower. rewrite Hascii, mapBytes_mapBytes.
    apply mapBytes_ext_on. intros c Hc.
    apply handled_byte_internal.
    rewrite forallb_forall in Hh. now apply Hh. }
  assert (El : ToLower lower name = mapBytes lowerByte name)
    by (unfold ToLower; now rewrite Hascii).
  unfold alnumEnds in Hends.
  destruct (firstByte name) as [a|] eqn:Ea; [| discriminate].
  destruct (lastByte name) as [b|] eqn:Eb; [| discriminate].
  apply andb_true_iff in Hends as [Ha Hb].
  destruct (alnum_byte_kept a Ha) as [Hna Ha'].
  destruct (alnum_byte_kept b Hb) as [Hnb Hb'].
  assert (Ef : firstByte (generateInternalName lower name)
               = Some (dashUnlessLabel (lowerByte a)))
    by (rewrite E, El, !firstByte_mapBytes, Ea; reflexivity).
  assert (Et : lastByte (generateInternalName lower name)
               = Some (dashUnlessLabel (lowerByte b)))
    by (rewrite E, El, !lastByte_mapBytes, Eb; reflexivity).
  split; [| split; [| split; [| split]]].
  - rewrite <- E. symmetry. exact (trimDashes_none _ _ _ Ef Et Hna Hnb).
  - rewrite E, El. now rewrite !mapBytes_length.
  - rewrite E, list_ascii_of_mapBytes, forallb_forall.
    intros c [x [<- _]]%in_map_iff. apply dashUnlessLabel_label.
  - unfold alnumEnds. now rewrite Ef, Et, Ha', Hb'.
  - intros name' ->. reflexivity.
Qed.

Lemma generateInternalName_handled_witness :
  (forallb isHandledByte
     (list_ascii_of_string "io.github.Foo/My Server_v2") = true
   /\ alnumEnds "io.github.Foo/My Server_v2" = true)
  /\ generateInternalName (fun s => s) "io.github.Foo/My Server_v2"
     = trimDashes
         (mapBytes dashUnlessLabel
            (ToLower (fun s => s) "io.github.Foo/My Server_v2")).
Proof.
  split; [split; reflexivity |].
  apply (generateInternalName_handled (fun s => s)
           "io.github.Foo/My Server_v2"); reflexivity.
Defined.

(** C1 as the specification words it does not hold: the function has no
    collapsing step, so a run of replaced characters stays a run of ['-'].
    (The name is ASCII, so the Unicode case mapping plays no part.) *)
Lemma generateInternalName_not_specInternalName :
  generateInternalName (fun s => s) "a..b" = "a--b"
  /\ specInternalName (fun s => s) "a..b" = "a-b"
  /\ generateInternalName (fun s => s) "a..b"
     <> specInternalName (fun s => s) "a..b".
Proof. repeat split; try reflexivity. vm_compute. discriminate. Qed.

(** Outside the names of C1 the function does not give the DNS-1123
    compliant name its comment announces: a ['-'] made at either end of the
    name stays, and a character for which it has no replacement, such as
    ['+'], is kept. *)
Lemma generateInternalName_not_compliant :
  generateInternalName (fun s => s) ".a" = "-a"
  /\ generateInternalName (fun s => s) "io.example/weather_"
     = "io-example-weather-"
  /\ generateInternalName (fun s => s) "a+b" = "a+b".
Proof. repeat split; reflexivity. Qed.

End InternalNameClaims.

(** ** The regular expressions *)

Module GoRegexpFacts.
Import GoRegexp.

Lemma nullable_matches (r : regex) : nullable r = true <-> matches r "".
Proof.
  induction r as [| |items|r1 IH1 r2 IH2|r1 IH1 r2 IH2|r IH]; simpl.
  - split; [discriminate | intros H; inversion H].
  - split; [intros _; constructor | reflexivity].
  - split; [discriminate | intros H; inversion H].
  - rewrite andb_true_iff, IH1, IH2. split.
    + intros [H1 H2]. exact (matches_cat _ _ "" "" H1 H2).
    + intros H. inversion H as [| |? ? s1 s2 H1 H2 E1 E2| | | |]; subst.
      destruct s1; [| discriminate]. simpl in *. subst s2. now split.
  - rewrite orb_true_iff, IH1, IH2. split.
    + intros [H|H]; [now apply matches_alt_l | now apply matches_alt_r].
    + intros H. inversion H; subst; [now left | now right].
  - split; [intros _; constructor | reflexivity].
Qed.

Lemma matches_cat_cons (r1 r2 : regex) (c : ascii) (s : string) :
  matches (Cat r1 r2) (String c s) <->
  (exists s1 s2, s = s1 +:+ s2 /\ matches r1 (String c s1) /\ matches r2 s2)
  \/ (matches r1 "" /\ matches r2 (String c s)).
Proof.
  split.
  - intros H. inversion H as [| |? ? s1 s2 H1 H2 E1 E2| | | |]; subst.
    destruct s1 as [|c1 s1]; simpl in *.
    + right. subst. now split.
    + injection E2 as -> <-. left. now exists s1, s2.
  - intros [(s1 & s2 & -> & H1 & H2) | [H1 H2]].
    + exact (matches_cat _ _ (String c s1) s2 H1 H2).
    + exact (matches_cat _ _ "" (String c s) H1 H2).
Qed.

Lemma matches_star_cons_inv (r : regex) (c : ascii) (s : string) :
  matches (Star r) (String c s) ->
  exists s1 s2, s = s1 +:+ s2 /\ matches r (String c s1) /\ matches (Star r) s2.
Proof.
  intros H. remember (Star r) as r' eqn:Er. remember (String c s) as t eqn:Et.
  revert s Et.
  induction H as [| | | | | |r0 s1 s2 H1 _ H2 IH2]; intros rest Et;
    try discriminate.
  injection Er as ->.
  destruct s1 as [|c1 s1]; simpl in Et.
  - now apply IH2.
  - injection Et as -> <-. now exists s1, s2.
Qed.

Lemma deriv_matches (r : regex) (c : ascii) (s : string) :
  matches (deriv c r) s <-> matches r (String c s).
Proof.
  revert s.
  induction r as [| |items|r1 IH1 r2 IH2|r1 IH1 r2 IH2|r IH]; intros s; simpl.
  - split; intros H; inversion H.
  - split; intros H; inversion H.
  - destruct (inClass items c) eqn:E; split; intros H.
    + inversion H; subst. now constructor.
    + inversion H; subst. constructor.
    + inversion H.
    + inversion H; subst. congruence.
  - rewrite matches_cat_cons.
    destruct (nullable r1) eqn:N.
    + split.
      * intros H. inversion H as [| | |? ? ? H'|? ? ? H'| |]; subst.
        -- inversion H' as [| |? ? s1 s2 H1 H2| | | |]; subst.
           left. exists s1, s2. split; [reflexivity |]. split; [| assumption].
           now apply IH1.
        -- right. split; [now apply nullable_matches | now apply IH2].
      * intros [(s1 & s2 & -> & H1 & H2) | [H1 H2]].
        -- apply matches_alt_l. apply matches_cat; [now apply IH1 | assumption].
        -- apply matches_alt_r. now apply IH2.
    + split.
      * intros H. inversion H as [| |? ? s1 s2 H1 H2| | | |]; subst.
        left. exists s1, s2. split; [reflexivity |]. split; [| assumption].
        now apply IH1.
      * intros [(s1 & s2 & -> & H1 & H2) | [H1 H2]].
        -- apply matches_cat; [now apply IH1 | assumption].
        -- apply nullable_matches in H1. congruence.
  - split; intros H; inversion H; subst.
    + apply matches_alt_l. now apply IH1.
    + apply matches_alt_r. now apply IH2.
    + apply matches_alt_l. now apply IH1.
    + apply matches_alt_r. now apply IH2.
  - split.
    + intros H. inversion H as [| |? ? s1 s2 H1 H2| | | |]; subst.
      apply (matches_star_cons r (String c s1) s2); [now apply IH | assumption].
    + intros H. apply matches_star_cons_inv in H as (s1 & s2 & -> & H1 & H2).
      apply matches_cat; [now apply IH | assumption].
Qed.

(** The matcher decides the language. *)
Lemma MatchString_matches (r : regex) (s : string) :
  MatchString r s = true <-> matches r s.
Proof.
  revert r. induction s as [|c s IH]; intros r; simpl.
  - apply nullable_matches.
  - rewrite IH. apply deriv_matches.
Qed.

Lemma matches_star_class (items : list classItem) (s : string) :
  matches (Star (Class items)) s <->
  forallb (inClass items) (list_ascii_of_string s) = true.
Proof.
  split.
  - intros H. remember (Star (Class items)) as r eqn:Er.
    induction H as [| | | | | |r0 s1 s2 H1 _ H2 IH2]; try discriminate.
    + reflexivity.
    + injection Er as ->. inversion H1; subst. simpl.
      rewrite IH2 by reflexivity. now rewrite andb_true_r.
  - induction s as [|c s IH]; simpl; [intros _; constructor |].
    intros [Hc Hs]%andb_true_iff.
    apply (matches_star_cons (Class items) (String c "") s);
      [now constructor | now apply IH].
Qed.

(** [[items]+] matches the non-empty strings of characters of the class. *)
Lemma matches_plus_class (items : list classItem) (s : string) :
  matches (Plus (Class items)) s <->
  s <> "" /\ forallb (inClass items) (list_ascii_of_string s) = true.
Proof.
  unfold Plus. split.
  - intros H. inversion H as [| |? ? s1 s2 H1 H2| | | |]; subst.
    inversion H1; subst. simpl. split; [discriminate |].
    apply matches_star_class in H2. rewrite H2. now rewrite andb_true_r.
  - intros [Hne Hall]. destruct s as [|c s]; [congruence |].
    simpl in Hall. apply andb_true_iff in Hall as [Hc Hs].
    apply (matches_cat (Class items) (Star (Class items)) (String c "") s);
      [now constructor | now apply matches_star_class].
Qed.

End GoRegexpFacts.

(** ** The agent gateway image *)

Module GatewayImageClaims.
Import GoStrings GoRegexp GoRegexpFacts DockerCompose.

(** The class of the code and the class of the specification hold the same
    characters. *)
Lemma version_classes_agree (c : ascii) :
  inClass [Range "a" "z"; Range "A" "Z"; Range "0" "9"; Single "."; Single "-"] c
  = inClass [Range "A" "Z"; Range "a" "z"; Range "0" "9"; Single "."; Single "-"] c.
Proof. destruct c as [[] [] [] [] [] [] [] []]; reflexivity. Qed.

Lemma versionRegex_specVersionRegex (s : string) :
  matches versionRegex s <-> matches specVersionRegex s.
Proof.
  unfold versionRegex, specVersionRegex. rewrite !matches_plus_class.
  assert (E : forall l,
    forallb (inClass [Range "a" "z"; Range "A" "Z"; Range "0" "9";
                      Single "."; Single "-"]) l
    = forallb (inClass [Range "A" "Z"; Range "a" "z"; Range "0" "9";
                        Single "."; Single "-"]) l).
  { induction l as [|c l IH]; cbn [forallb]; [reflexivity |].
    now rewrite IH, version_classes_agree. }
  now rewrite E.
Qed.

Lemma validateVersion_matches (version : string) :
  validateVersion version = None <-> matches specVersionRegex version.
Proof.
  rewrite <- versionRegex_specVersionRegex, <- MatchString_matches.
  unfold validateVersion.
  destruct (MatchString versionRegex version); simpl; split;
    congruence.
Qed.

(** C8.  The image of the agent gateway is
    [ghcr.io/agentgateway/agentgateway:<v>-musl], where [<v>] is the value of
    TRANSPORT_ADAPTER_VERSION exactly when that value is not empty and matches
    [^[A-Za-z0-9.\-]+$], and [0.9.0] otherwise; the validation of a version
    accepts exactly the strings that match the pattern, which are the
    non-empty strings of letters, digits, dots and hyphens. *)
Theorem getAgentGatewayImage_version (environ : gmap string string) :
  let v := GoOs.Getenv environ "TRANSPORT_ADAPTER_VERSION" in
  (v <> "" /\ matches specVersionRegex v ->
   getAgentGatewayImage environ
   = "ghcr.io/agentgateway/agentgateway:" +:+ v +:+ "-musl")
  /\ (~ (v <> "" /\ matches specVersionRegex v) ->
      getAgentGatewayImage environ
      = "ghcr.io/agentgateway/agentgateway:0.9.0-musl")
  /\ (forall version : string,
        validateVersion version = None <-> matches specVersionRegex version)
  /\ (forall version : string,
        matches specVersionRegex version <->
        version <> ""
        /\ forallb
             (inClass [Range "A" "Z"; Range "a" "z"; Range "0" "9";
                       Single "."; Single "-"])
             (list_ascii_of_string version) = true).
Proof.
  intros v. split; [| split; [| split]].
  - intros [Hne Hm]. unfold getAgentGatewayImage. fold v.
    destruct (String.eqb_spec v "") as [E|_]; [congruence |].
    apply validateVersion_matches in Hm. now rewrite Hm.
  - intros Hn. unfold getAgentGatewayImage. fold v.
    destruct (String.eqb_spec v "") as [E|Hne]; [reflexivity |].
    destruct (validateVersion v) eqn:Ev; [reflexivity |].
    exfalso. apply Hn. split; [assumption |].
    now apply validateVersion_matches.
  - apply validateVersion_matches.
  - intros version. apply matches_plus_class.
Qed.

End GatewayImageClaims.

(** ** The images of the compose services *)

Module ComposeImageClaims.
Import GoStrings DockerCompose.

(** Whatever image the server declares or its command defaults to, the
    service that is returned carries the image of the agent gateway. *)
Lemma translateMCPServerToServiceConfig_image
  (environ : gmap string string) (t : agentGatewayTranslator)
  (server : Api.MCPServer) (serviceConfig : ServiceConfig) :
  translateMCPServerToServiceConfig environ t server = Ok serviceConfig ->
  svc_Image serviceConfig = getAgentGatewayImage environ.
Proof.
  unfold translateMCPServerToServiceConfig.
  destruct (String.eqb _ ""); [discriminate |].
  intros [= <-]. reflexivity.
Qed.

(** The image default decides only whether there is an error: none for an
    empty image with the command uvx or npx or for a declared image, an
    error for an empty image with another command. *)
Lemma translateMCPServerToServiceConfig_error
  (environ : gmap string string) (t : agentGatewayTranslator)
  (server : Api.MCPServer) :
  isErr (translateMCPServerToServiceConfig environ t server)
  = String.eqb (Api.Image (Api.Deployment server)) ""
    && negb (String.eqb (Api.Cmd (Api.Deployment server)) "uvx")
    && negb (String.eqb (Api.Cmd (Api.Deployment server)) "npx").
Proof.
  unfold translateMCPServerToServiceConfig.
  destruct (String.eqb (Api.Image (Api.Deployment server)) "") eqn:Ei;
    destruct (String.eqb (Api.Cmd (Api.Deployment server)) "uvx");
    destruct (String.eqb (Api.Cmd (Api.Deployment server)) "npx");
    cbv [andb negb]; rewrite ?Ei; reflexivity.
Qed.

(** A server on stdio adds no service. *)
Lemma translateMCPServers_stdio
  (environ : gmap string string) (t : agentGatewayTranslator)
  (server : Api.MCPServer) (rest : list Api.MCPServer)
  (services : gmap string ServiceConfig) :
  Api.TransportType server = Api.TransportTypeStdio ->
  translateMCPServers environ t (server :: rest) services
  = translateMCPServers environ t rest services.
Proof. intros E. simpl. now rewrite E. Qed.

(** C2 at a server on http without image whose command is uvx: the service
    config of the server has the image of the agent gateway, not
    [ghcr.io/astral-sh/uv:debian], and so has the service of the server in
    the translated compose project. *)
Theorem TranslateRuntimeConfig_uvx_image :
  let server :=
    {| Api.Name := "weather";
       Api.Deployment :=
         {| Api.Image := ""; Api.Port := 3000; Api.Cmd := "uvx";
            Api.Args := ["weather-mcp"]; Api.Env := ∅ |};
       Api.TransportType := "http";
       Api.Stdio := None;
       Api.HTTP := Some {| Api.TargetPort := 3000;
                           Api.TargetPath := "/mcp" |} |} in
  svc_Image
    <$> translateMCPServerToServiceConfig ∅
          (NewAgentGatewayTranslator "/tmp/runtime") server
  = Ok "ghcr.io/agentgateway/agentgateway:0.9.0-musl"
  /\ exists cfg : AiRuntimeConfig unit,
       TranslateRuntimeConfig unit (fun _ => None) ∅
         {| composeWorkingDir := "/tmp/runtime"; agentGatewayPort := 8080 |}
         {| Api.MCPServers := [server] |}
       = Ok cfg
       /\ svc_Image <$> (Services (DockerCompose unit cfg) !! "weather")
          = Some "ghcr.io/agentgateway/agentgateway:0.9.0-musl"
       /\ svc_Image <$> (Services (DockerCompose unit cfg) !! "weather")
          <> Some "ghcr.io/astral-sh/uv:debian".
Proof.
  intros server. split; [vm_compute; reflexivity |].
  eexists. split; [vm_compute; reflexivity |].
  split; [vm_compute; reflexivity | vm_compute; discriminate].
Qed.

End ComposeImageClaims.

(** ** Paths *)

Module GoPathFacts.
Import GoPath.

Lemma list_ascii_app (a b : string) :
  list_ascii_of_string (a +:+ b)
  = (list_ascii_of_string a ++ list_ascii_of_string b)%list.
Proof. induction a as [|c a IH]; simpl; [reflexivity | now rewrite IH]. Qed.

Lemma append_assoc (a b c : string) : (a +:+ b) +:+ c = a +:+ b +:+ c.
Proof. induction a as [|x a IH]; simpl; [reflexivity | now rewrite IH]. Qed.

Lemma append_eq_empty (a b : string) : a +:+ b = "" -> a = "" /\ b = "".
Proof. destruct a; simpl; [now intros -> | discriminate]. Qed.

Lemma splitSlash_nonempty (s : string) : splitSlash s <> [].
Proof.
  induction s as [|c s IH]; simpl; [discriminate |].
  destruct (Ascii.eqb c "/"); [discriminate |].
  destruct (splitSlash s); discriminate.
Qed.

(** The elements of [a/b] are those of [a], then those of [b]. *)
Lemma splitSlash_app_slash (a b : string) :
  splitSlash (a +:+ String "/" b) = (splitSlash a ++ splitSlash b)%list.
Proof.
  induction a as [|c a IH]; simpl; [reflexivity |].
  destruct (Ascii.eqb c "/"); rewrite IH; [reflexivity |].
  pose proof (splitSlash_nonempty a) as Hne.
  destruct (splitSlash a); [congruence | reflexivity].
Qed.

Lemma cleanElems_app (rooted : bool) (l1 l2 out : list string) :
  cleanElems rooted out (l1 ++ l2)
  = cleanElems rooted (cleanElems rooted out l1) l2.
Proof.
  revert out. induction l1 as [|e l1 IH]; intros out; simpl; [reflexivity |].
  destruct (String.eqb e "" || String.eqb e "."); [apply IH |].
  destruct (String.eqb e ".."); [| apply IH].
  destruct out as [|q out']; [destruct rooted; apply IH |].
  destruct (String.eqb q ".."); apply IH.
Qed.

Lemma joinSlash_snoc (l : list string) (e : string) :
  joinSlash (l ++ [e])
  = match l with
    | [] => e
    | _ => joinSlash l +:+ "/" +:+ e
    end.
Proof.
  induction l as [|x l IH]; [reflexivity |].
  change ((x :: l) ++ [e])%list with (x :: (l ++ [e]))%list.
  destruct l as [|y l].
  - reflexivity.
  - change (joinSlash (x :: (y :: l) ++ [e]))
      with (x +:+ "/" +:+ joinSlash ((y :: l) ++ [e])).
    rewrite IH.
    change (joinSlash (x :: y :: l)) with (x +:+ "/" +:+ joinSlash (y :: l)).
    now rewrite !append_assoc.
Qed.

Lemma Clean_nonempty (path : string) : Clean path <> "".
Proof.
  unfold Clean.
  destruct (String.eqb_spec
              (if isRooted path
               then "/" +:+ joinSlash
                      (List.rev (cleanElems (isRooted path) [] (splitSlash path)))
               else joinSlash
                      (List.rev (cleanElems (isRooted path) [] (splitSlash path))))
              "") as [E|Hne]; [discriminate | exact Hne].
Qed.

Lemma isRooted_app (x y : string) : x <> "" -> isRooted (x +:+ y) = isRooted x.
Proof. destruct x; [congruence | reflexivity]. Qed.

(** The cleaned [x/e] ends with the element [e], which is the whole path or
    follows a separator. *)
Lemma Clean_last_elem (x e : string) :
  x <> "" -> plainElem e = true ->
  exists p, Clean (x +:+ String "/" e) = p +:+ e
            /\ (p = "" \/ exists q, p = q +:+ "/").
Proof.
  intros Hx Hp. unfold plainElem in Hp.
  apply andb_true_iff in Hp as [Hp Hs].
  apply andb_true_iff in Hp as [Hp Hdd].
  apply andb_true_iff in Hp as [He Hd].
  apply negb_true_iff in He, Hd, Hdd.
  destruct (splitSlash e) as [|e' [|? ?]] eqn:Es; try discriminate.
  apply String.eqb_eq in Hs. subst e'.
  unfold Clean. rewrite isRooted_app by assumption.
  rewrite splitSlash_app_slash, Es, cleanElems_app.
  set (out := cleanElems (isRooted x) [] (splitSlash x)).
  simpl cleanElems. rewrite He, Hd, Hdd. simpl orb. cbv iota.
  change (List.rev (e :: out)) with (List.rev out ++ [e])%list.
  rewrite joinSlash_snoc.
  assert (Hne : e <> "") by now apply String.eqb_neq.
  destruct (isRooted x); destruct (List.rev out) as [|y l] eqn:El.
  - exists "/". split; [| right; now exists ""].
    destruct (String.eqb_spec ("/" +:+ e) ""); [discriminate | reflexivity].
  - exists ("/" +:+ joinSlash (y :: l) +:+ "/").
    split; [| right; now exists ("/" +:+ joinSlash (y :: l))].
    rewrite !append_assoc.
    destruct (String.eqb_spec ("/" +:+ joinSlash (y :: l) +:+ "/" +:+ e) "");
      [discriminate | reflexivity].
  - exists "". split; [| now left].
    destruct (String.eqb_spec e ""); [congruence | reflexivity].
  - exists (joinSlash (y :: l) +:+ "/").
    split; [| right; now exists (joinSlash (y :: l))].
    rewrite append_assoc.
    destruct (String.eqb_spec (joinSlash (y :: l) +:+ "/" +:+ e) "") as [E|_];
      [| reflexivity].
    apply append_eq_empty in E as [_ E]. discriminate.
Qed.

(** Two cleaned paths whose last elements differ in their last seven
    characters are different paths. *)
Lemma last_elems_differ (p1 p2 : string) :
  (p1 = "" \/ exists q, p1 = q +:+ "/") ->
  p1 +:+ "config" <> p2 +:+ "kubeconfig".
Proof.
  intros Hp1 E.
  apply (f_equal list_ascii_of_string) in E.
  rewrite !list_ascii_app in E.
  destruct Hp1 as [-> | [q ->]].
  - change (list_ascii_of_string "kubeconfig")
      with (list_ascii_of_string "kube" ++ list_ascii_of_string "config")%list
      in E.
    rewrite app_assoc in E.
    change (list_ascii_of_string "" ++ list_ascii_of_string "config")%list
      with ([] ++ list_ascii_of_string "config")%list in E.
    apply app_inj_2 in E as [E _]; [| reflexivity].
    destruct (list_ascii_of_string p2); discriminate E.
  - rewrite list_ascii_app, <- app_assoc in E.
    change (list_ascii_of_string "kubeconfig")
      with (list_ascii_of_string "kub" ++ list_ascii_of_string "econfig")%list
      in E.
    rewrite (app_assoc (list_ascii_of_string p2)) in E.
    apply app_inj_2 in E as [_ E]; [discriminate E | reflexivity].
Qed.

End GoPathFacts.

(** ** The compose YAML of the daemon *)

Module DaemonFacts.
Import GoStrings GoPath GoPathFacts Daemon.

Lemma UserHomeDir_nonempty (w : World) (homeDir : string) :
  UserHomeDir w = Ok homeDir -> homeDir <> "".
Proof.
  unfold UserHomeDir.
  destruct (String.eqb_spec (GoOs.Getenv (environ w) "HOME") "") as [E|Hne];
    [discriminate |].
  now intros [= <-].
Qed.

Lemma kubeconfigPathOf_last (homeDir : string) :
  homeDir <> "" ->
  exists p, kubeconfigPathOf homeDir = p +:+ "config"
            /\ (p = "" \/ exists q, p = q +:+ "/").
Proof.
  intros Hne. unfold kubeconfigPathOf. cbn [Join].
  destruct (String.eqb_spec homeDir "") as [E|_]; [congruence |].
  replace (joinRaw [homeDir; ".kube"; "config"])
    with ((homeDir +:+ "/.kube") +:+ String "/" "config")
    by (now rewrite append_assoc).
  apply Clean_last_elem; [| reflexivity].
  intros E. apply append_eq_empty in E as [_ E]. discriminate.
Qed.

Lemma kubeconfigPatchedPathOf_last (homeDir : string) :
  exists p, kubeconfigPatchedPathOf homeDir = p +:+ "kubeconfig".
Proof.
  unfold kubeconfigPatchedPathOf. cbn [Join].
  pose proof (Clean_nonempty (joinRaw [homeDir; ".arctl"])) as Hc.
  assert (Ha : arctlDirOf homeDir <> "").
  { unfold arctlDirOf. cbn [Join].
    destruct (String.eqb homeDir ""); [| exact Hc].
    change (String.eqb ".arctl" "") with false. apply Clean_nonempty. }
  destruct (String.eqb_spec (arctlDirOf homeDir) "") as [E|_]; [congruence |].
  destruct (Clean_last_elem (arctlDirOf homeDir) "kubeconfig" Ha eq_refl)
    as (p & Hp & _).
  exists p. exact Hp.
Qed.

(** The patched copy is not written over the kubeconfig. *)
Lemma kubeconfig_paths_differ (homeDir : string) :
  homeDir <> "" ->
  kubeconfigPatchedPathOf homeDir <> kubeconfigPathOf homeDir.
Proof.
  intros Hne E.
  destruct (kubeconfigPathOf_last homeDir Hne) as (p1 & E1 & Hp1).
  destruct (kubeconfigPatchedPathOf_last homeDir) as (p2 & E2).
  rewrite E1, E2 in E. symmetry in E.
  exact (last_elems_differ p1 p2 Hp1 E).
Qed.

Lemma MkdirAll_files (w w1 : World) (path : string) :
  MkdirAll w path = Ok w1 -> files w1 = files w.
Proof.
  unfold MkdirAll. destruct (decide (path ∈ denied w)); [discriminate |].
  destruct (files w !! path); [discriminate |]. now intros [= <-].
Qed.

Lemma WriteFile_files (w w2 : World) (name data : string) :
  WriteFile w name data = Ok w2 -> files w2 = <[name := data]> (files w).
Proof.
  unfold WriteFile. destruct (decide (name ∈ denied w)); [discriminate |].
  destruct (decide (name ∈ dirs w)); [discriminate |]. now intros [= <-].
Qed.

Lemma patchClusterData_local (clusterData : gmap string any) (server : string) :
  clusterData !! "server" = Some (VString server) ->
  isLocalURL server = true ->
  patchedFor server (patchClusterData clusterData).
Proof.
  intros Hs Hl. unfold patchClusterData. rewrite Hs.
  unfold isLocalURL in Hl. rewrite Hl.
  unfold patchedFor. repeat split.
  - rewrite !lookup_delete_ne, lookup_insert_ne, lookup_insert_eq by done.
    reflexivity.
  - rewrite !lookup_delete_ne, lookup_insert_eq by done. reflexivity.
  - rewrite lookup_delete_ne, lookup_delete_eq by done. reflexivity.
  - apply lookup_delete_eq.
Qed.

(** A cluster whose server URL is not local keeps its data. *)
Lemma patchClusterData_remote (clusterData : gmap string any) (server : string) :
  clusterData !! "server" = Some (VString server) ->
  isLocalURL server = false ->
  patchClusterData clusterData = clusterData.
Proof.
  intros Hs Hl. unfold patchClusterData. rewrite Hs.
  unfold isLocalURL in Hl. now rewrite Hl.
Qed.

Lemma patchKubeconfig_local (kubeconfig : gmap string any) :
  localClustersPatched kubeconfig (patchKubeconfig kubeconfig).
Proof.
  intros clusters i cluster clusterData server Hc Hi Hcl Hs Hl.
  exists (List.map patchCluster clusters),
         (<["cluster" := VMap (patchClusterData clusterData)]> cluster),
         (patchClusterData clusterData).
  unfold patchKubeconfig. rewrite Hc. split; [apply lookup_insert_eq |].
  split.
  - change (List.map patchCluster clusters) with (patchCluster <$> clusters).
    rewrite list_lookup_fmap, Hi. simpl. now rewrite Hcl.
  - split; [apply lookup_insert_eq | now apply patchClusterData_local].
Qed.

Section Steps.
Variable yamlUnmarshal : string -> result (gmap string any).
Variable yamlMarshal : gmap string any -> result string.

Let getYAML := getComposeYAML yamlUnmarshal yamlMarshal.

(** The call changes no file but the patched copy. *)
Lemma getComposeYAML_files (d : DefaultDaemonManager) (w : World) :
  files (snd (getYAML d w)) = files w
  \/ exists homeDir patchedBytes,
       UserHomeDir w = Ok homeDir
       /\ files (snd (getYAML d w))
          = <[kubeconfigPatchedPathOf homeDir := patchedBytes]> (files w).
Proof.
  unfold getYAML, getComposeYAML.
  destruct (negb (String.eqb (GOOS w) "darwin")); [now left |].
  destruct (UserHomeDir w) as [homeDir|] eqn:Eh; [| now left].
  destruct (ReadFile w _) as [content|]; [| now left].
  destruct (negb (Contains content "localhost") && _); [now left |].
  destruct (yamlUnmarshal content) as [kubeconfig|]; [| now left].
  destruct (yamlMarshal _) as [patchedBytes|]; [| now left].
  destruct (MkdirAll w _) as [w1|] eqn:Em; [| now left].
  apply MkdirAll_files in Em.
  destruct (WriteFile w1 _ patchedBytes) as [w2|] eqn:Ew; [| now left].
  apply WriteFile_files in Ew. right. exists homeDir, patchedBytes.
  split; [reflexivity |]. simpl. now rewrite Ew, Em.
Qed.

Lemma getComposeYAML_keeps_kubeconfig (d : DefaultDaemonManager) (w : World)
  (homeDir : string) :
  UserHomeDir w = Ok homeDir ->
  files (snd (getYAML d w)) !! kubeconfigPathOf homeDir
  = files w !! kubeconfigPathOf homeDir.
Proof.
  intros Eh.
  destruct (getComposeYAML_files d w) as [-> | (h & bytes & Eh' & ->)];
    [reflexivity |].
  rewrite Eh in Eh'. injection Eh' as <-.
  apply lookup_insert_ne, kubeconfig_paths_differ.
  exact (UserHomeDir_nonempty w homeDir Eh).
Qed.

End Steps.

End DaemonFacts.

Module ComposeYAMLClaims.
Import GoStrings GoPath GoPathFacts Daemon DaemonFacts.

(** C4.  On macOS, with the kubeconfig at [~/.kube/config] readable: when it
    contains neither [localhost] nor [127.0.0.1] the configured compose YAML
    is returned and nothing changes; otherwise, when the steps go through,
    the patched kubeconfig is written to [$HOME/.arctl/kubeconfig], every
    cluster in it whose server URL was local has the URL rewritten to
    host.docker.internal, [insecure-skip-tls-verify] set and the certificate
    authority removed, and the bind mount of the compose YAML points at the
    patched file; in every case [~/.kube/config] has the content it had, as
    has every file other than the patched copy. *)
Theorem getComposeYAML_darwin
  (yamlUnmarshal : string -> result (gmap string any))
  (yamlMarshal : gmap string any -> result string)
  (d : DefaultDaemonManager) (w : World) (homeDir content : string) :
  GOOS w = "darwin" ->
  UserHomeDir w = Ok homeDir ->
  ReadFile w (kubeconfigPathOf homeDir) = Ok content ->
  (Contains content "localhost" = false ->
   Contains content "127.0.0.1" = false ->
   getComposeYAML yamlUnmarshal yamlMarshal d w = (ComposeYAML (config d), w))
  /\ (Contains content "localhost" || Contains content "127.0.0.1" = true ->
      forall (kubeconfig : gmap string any) (patchedBytes : string)
             (w1 w2 : World),
        yamlUnmarshal content = Ok kubeconfig ->
        yamlMarshal (patchKubeconfig kubeconfig) = Ok patchedBytes ->
        MkdirAll w (arctlDirOf homeDir) = Ok w1 ->
        WriteFile w1 (kubeconfigPatchedPathOf homeDir) patchedBytes = Ok w2 ->
        getComposeYAML yamlUnmarshal yamlMarshal d w
        = (ReplaceAll (ComposeYAML (config d))
             "~/.kube/config:/root/.kube/config"
             (kubeconfigPatchedPathOf homeDir +:+ ":/root/.kube/config"),
           w2)
        /\ files w2 !! kubeconfigPatchedPathOf homeDir = Some patchedBytes
        /\ localClustersPatched kubeconfig (patchKubeconfig kubeconfig))
  /\ files (snd (getComposeYAML yamlUnmarshal yamlMarshal d w))
       !! kubeconfigPathOf homeDir
     = files w !! kubeconfigPathOf homeDir
  /\ files w !! kubeconfigPathOf homeDir = Some content
  /\ (forall path : string,
        path <> kubeconfigPatchedPathOf homeDir ->
        files (snd (getComposeYAML yamlUnmarshal yamlMarshal d w)) !! path
        = files w !! path).
Proof.
  intros Hos Hh Hr. split; [| split; [| split; [| split]]].
  - intros H1 H2. unfold getComposeYAML.
    rewrite Hos, Hh. cbn [String.eqb negb].
    change (GoPath.Join [homeDir; ".kube"; "config"])
      with (kubeconfigPathOf homeDir).
    rewrite Hr, H1, H2. reflexivity.
  - intros Hl kubeconfig patchedBytes w1 w2 Hu Hm Hd Hw.
    split; [| split].
    + unfold getComposeYAML.
      rewrite Hos, Hh.
      change (GoPath.Join [homeDir; ".kube"; "config"])
        with (kubeconfigPathOf homeDir).
      change (GoPath.Join [GoPath.Join [homeDir; ".arctl"]; "kubeconfig"])
        with (kubeconfigPatchedPathOf homeDir).
      change (GoPath.Join [homeDir; ".arctl"]) with (arctlDirOf homeDir).
      rewrite Hr.
      replace (negb (Contains content "localhost")
               && negb (Contains content "127.0.0.1")) with false
        by (destruct (Contains content "localhost");
            destruct (Contains content "127.0.0.1"); simpl in *; congruence).
      rewrite Hu, Hm, Hd, Hw. reflexivity.
    + apply WriteFile_files in Hw. rewrite Hw. apply lookup_insert_eq.
    + apply patchKubeconfig_local.
  - now apply getComposeYAML_keeps_kubeconfig.
  - unfold ReadFile in Hr.
    destruct (decide (kubeconfigPathOf homeDir ∈ denied w)); [discriminate |].
    destruct (files w !! kubeconfigPathOf homeDir); now inversion Hr.
  - intros path Hpath.
    destruct (getComposeYAML_files yamlUnmarshal yamlMarshal d w)
      as [-> | (h & bytes & Eh & ->)]; [reflexivity |].
    rewrite Hh in Eh. injection Eh as <-.
    now apply lookup_insert_ne.
Qed.

(** C10.  On macOS, when a step of the patching fails (no home directory,
    kubeconfig not readable, not YAML, the patched document not marshalled,
    [~/.arctl] not created, the patched file not written), the configured
    compose YAML is returned as it is; the call always returns a string. *)
Theorem getComposeYAML_fallback
  (yamlUnmarshal : string -> result (gmap string any))
  (yamlMarshal : gmap string any -> result string)
  (d : DefaultDaemonManager) (w : World) :
  GOOS w = "darwin" ->
  patchingFails yamlUnmarshal yamlMarshal w ->
  fst (getComposeYAML yamlUnmarshal yamlMarshal d w) = ComposeYAML (config d).
Proof.
  intros Hos Hf. unfold getComposeYAML. rewrite Hos. cbn [String.eqb negb].
  change (fun homeDir => GoPath.Join [homeDir; ".kube"; "config"])
    with kubeconfigPathOf.
  destruct Hf as [e Hh | h e Hh Hr | h c e Hh Hr Hu | h c e kc Hh Hr Hu Hm
                 | h c e Hh Hr Hd | h c b e kc w1 Hh Hr Hu Hm Hd Hw];
    rewrite Hh; try reflexivity;
    change (GoPath.Join [h; ".kube"; "config"]) with (kubeconfigPathOf h);
    change (GoPath.Join [GoPath.Join [h; ".arctl"]; "kubeconfig"])
      with (kubeconfigPatchedPathOf h);
    change (GoPath.Join [h; ".arctl"]) with (arctlDirOf h);
    rewrite Hr; try reflexivity;
    destruct (negb (Contains c "localhost") && negb (Contains c "127.0.0.1"));
    try reflexivity.
  - now rewrite Hu.
  - now rewrite Hu, Hm.
  - rewrite Hd. destruct (yamlUnmarshal c); [| reflexivity].
    destruct (yamlMarshal _); reflexivity.
  - now rewrite Hu, Hm, Hd, Hw.
Qed.

Lemma getComposeYAML_darwin_witness :
  let w := {| GOOS := "darwin";
              environ := {["HOME" := "/Users/dev"]};
              files := {["/Users/dev/.kube/config"
                         := "server: https://127.0.0.1:6443"]};
              dirs := ∅; denied := ∅ |} in
  let d := {| config :=
                {| ProjectName := "agentregistry";
                   ContainerName := "agentregistry-server";
                   ComposeYAML := "- ~/.kube/config:/root/.kube/config";
                   DockerRegistry := "ghcr.io"; Version := "v1" |} |} in
  let kubeconfig : gmap string any :=
    {["clusters" :=
        VSlice [VMap {["cluster" :=
                         VMap {["server" := VString "https://127.0.0.1:6443"]}]}]]} in
  (GOOS w = "darwin"
   /\ UserHomeDir w = Ok "/Users/dev"
   /\ ReadFile w (kubeconfigPathOf "/Users/dev")
      = Ok "server: https://127.0.0.1:6443")
  /\ fst (getComposeYAML (fun _ => Ok kubeconfig) (fun _ => Ok "patched") d w)
     = "- /Users/dev/.arctl/kubeconfig:/root/.kube/config".
Proof.
  intros w d kubeconfig.
  split; [repeat split; vm_compute; reflexivity |].
  destruct (getComposeYAML_darwin
              (fun _ => Ok kubeconfig) (fun _ => Ok "patched") d w
              "/Users/dev" "server: https://127.0.0.1:6443"
              eq_refl eq_refl eq_refl) as (_ & Hpatch & _).
  edestruct (Hpatch eq_refl kubeconfig "patched") as [E _];
    [reflexivity | reflexivity | vm_compute; reflexivity
    | vm_compute; reflexivity |].
  rewrite E. vm_compute. reflexivity.
Defined.

Lemma getComposeYAML_fallback_witness :
  let w := {| GOOS := "darwin";
              environ := {["HOME" := "/Users/dev"]};
              files := {["/Users/dev/.kube/config" := "server: localhost"]};
              dirs := ∅; denied := ∅ |} in
  let d := {| config :=
                {| ProjectName := "agentregistry";
                   ContainerName := "agentregistry-server";
                   ComposeYAML := "- ~/.kube/config:/root/.kube/config";
                   DockerRegistry := "ghcr.io"; Version := "v1" |} |} in
  (GOOS w = "darwin"
   /\ patchingFails (fun _ => Err "yaml: did not find expected key")
        (fun _ => Ok "patched") w)
  /\ fst (getComposeYAML (fun _ => Err "yaml: did not find expected key")
            (fun _ => Ok "patched") d w)
     = "- ~/.kube/config:/root/.kube/config".
Proof.
  intros w d.
  assert (Hf : patchingFails (fun _ => Err "yaml: did not find expected key")
                 (fun _ => Ok "patched") w).
  { apply (fails_unmarshal _ _ w "/Users/dev" "server: localhost"
             "yaml: did not find expected key"); vm_compute; reflexivity. }
  split; [split; [reflexivity | exact Hf] |].
  exact (getComposeYAML_fallback _ _ d w eq_refl Hf).
Defined.

End ComposeYAMLClaims.

(** ** The deployments table *)

Module DeploymentsFacts.
Import Deployments.

Lemma admit_tuple_checked (t t' : Tuple) :
  admit_tuple t = Ok t' -> notNullOk t' = true /\ checksOk t' = true.
Proof.
  unfold admit_tuple. destruct (coerce t) as [c|]; [| discriminate].
  destruct (notNullOk c) eqn:En; [| discriminate].
  destruct (checksOk c) eqn:Ec; [| discriminate].
  simpl. now intros [= <-].
Qed.

Lemma inList_In (l : list string) (s : string) : inList l s = true -> In s l.
Proof.
  unfold inList. rewrite existsb_exists.
  intros (x & Hx & E). apply String.eqb_eq in E. now subst.
Qed.

(** A tuple that passes the NOT NULL and CHECK constraints is a row as the
    specification wants it. *)
Lemma checked_rowOk (t : Tuple) :
  notNullOk t = true -> checksOk t = true -> rowOk t.
Proof.
  unfold notNullOk, checksOk, check_deployment_status_valid,
    check_deployment_server_name_not_empty, check_deployment_version_not_empty.
  intros Hn Hc.
  repeat (apply andb_true_iff in Hn as [Hn ?]).
  repeat (apply andb_true_iff in Hc as [Hc ?]).
  destruct (status t) as [s|] eqn:Es; [| discriminate].
  destruct (server_name t) as [n|] eqn:En; [| discriminate].
  destruct (version t) as [v|] eqn:Ev; [| discriminate].
  unfold check in *. unfold rowOk. rewrite Es, En, Ev. repeat split.
  - exists s. split; [reflexivity | now apply inList_In].
  - exists n. split; [reflexivity | now apply Nat.ltb_lt].
  - exists v. split; [reflexivity | now apply Nat.ltb_lt].
Qed.

Lemma admit_tuple_rowOk (t t' : Tuple) : admit_tuple t = Ok t' -> rowOk t'.
Proof.
  intros H. apply admit_tuple_checked in H as [Hn Hc].
  now apply checked_rowOk.
Qed.

Lemma sameKey_sym (a b : Tuple) : sameKey a b = sameKey b a.
Proof.
  unfold sameKey. destruct (server_name a), (server_name b); try reflexivity.
  apply String.eqb_sym.
Qed.

Lemma pkey_snoc (tbl : list Tuple) (t : Tuple) :
  deployments_pkey tbl = true -> existsb (sameKey t) tbl = false ->
  deployments_pkey (tbl ++ [t]) = true.
Proof.
  induction tbl as [|x tbl IH]; simpl; [reflexivity |].
  intros [Hx Hp]%andb_true_iff [Htx Ht]%orb_false_iff.
  rewrite existsb_app. simpl.
  apply negb_true_iff in Hx. rewrite Hx, sameKey_sym, Htx. simpl.
  now apply IH.
Qed.

Lemma existsb_filter (f g : Tuple -> bool) (l : list Tuple) :
  existsb g l = false -> existsb g (List.filter f l) = false.
Proof.
  induction l as [|x l IH]; simpl; [reflexivity |].
  intros [Hx Hl]%orb_false_iff.
  destruct (f x); simpl; [rewrite Hx |]; now apply IH.
Qed.

Lemma pkey_filter (f : Tuple -> bool) (tbl : list Tuple) :
  deployments_pkey tbl = true -> deployments_pkey (List.filter f tbl) = true.
Proof.
  induction tbl as [|x tbl IH]; simpl; [reflexivity |].
  intros [Hx Hp]%andb_true_iff.
  destruct (f x); simpl; [| now apply IH].
  apply negb_true_iff in Hx.
  rewrite (existsb_filter f _ _ Hx). simpl. now apply IH.
Qed.

(** What the key means for the rows: no two places of the table hold the
    same [server_name]. *)
Lemma pkey_unique (tbl : list Tuple) :
  Forall rowOk tbl -> deployments_pkey tbl = true ->
  forall (i j : nat) (ti tj : Tuple),
    tbl !! i = Some ti -> tbl !! j = Some tj ->
    server_name ti = server_name tj -> i = j.
Proof.
  induction tbl as [|x tbl IH]; intros Hok Hp i j ti tj Hi Hj E;
    [discriminate Hi |].
  inversion Hok as [|? ? Hx Hrest]; subst.
  simpl in Hp. apply andb_true_iff in Hp as [Hn Hp].
  apply negb_true_iff in Hn.
  assert (Hclash : forall t k, tbl !! k = Some t ->
                     server_name x = server_name t -> False).
  { intros t k Hk Et.
    assert (Hin : In t tbl)
      by (apply list_elem_of_In; eapply list_elem_of_lookup_2; exact Hk).
    assert (Hs : existsb (sameKey x) tbl = true).
    { apply existsb_exists. exists t. split; [exact Hin |].
      unfold sameKey. rewrite <- Et.
      destruct Hx as (_ & (n & -> & _) & _). apply String.eqb_refl. }
    congruence. }
  destruct i as [|i], j as [|j]; simpl in Hi, Hj.
  - reflexivity.
  - injection Hi as <-. exfalso. exact (Hclash tj j Hj E).
  - injection Hj as <-. exfalso. exact (Hclash ti i Hi (eq_sym E)).
  - f_equal. exact (IH Hrest Hp i j ti tj Hi Hj E).
Qed.

Lemma updateRows_rowOk (now : Z) (where_ : Tuple -> bool) (set : Tuple -> Tuple)
  (tbl tbl' : list Tuple) :
  Forall rowOk tbl -> updateRows now where_ set tbl = Ok tbl' ->
  Forall rowOk tbl'.
Proof.
  revert tbl'. induction tbl as [|old tbl IH]; intros tbl' Hok; simpl.
  - intros [= <-]. constructor.
  - inversion Hok as [|? ? Hold Hrest]; subst.
    destruct (where_ old).
    + destruct (admit_tuple _) as [t|] eqn:Ea; [| discriminate].
      destruct (updateRows now where_ set tbl) as [rest'|]; [| discriminate].
      intros [= <-]. constructor; [now apply admit_tuple_rowOk in Ea |].
      now apply IH.
    + destruct (updateRows now where_ set tbl) as [rest'|]; [| discriminate].
      intros [= <-]. constructor; [assumption | now apply IH].
Qed.

Lemma admit_tuple_updated_at (now : Z) (t t' : Tuple) :
  admit_tuple (update_deployments_updated_at now t) = Ok t' ->
  updated_at t' = Some now.
Proof.
  unfold admit_tuple, coerce. simpl.
  destruct (varchar 255 (server_name t)); [| discriminate].
  destruct (varchar 255 (version t)); [| discriminate].
  destruct (varchar 50 (status t)); [| discriminate].
  destruct (varchar 50 (resource_type t)); [| discriminate].
  destruct (negb (notNullOk _)); [discriminate |].
  destruct (negb (checksOk _)); [discriminate |].
  now intros [= <-].
Qed.

(** An UPDATE keeps every row at its place; a row the WHERE selects has
    [updated_at] at the time of the statement afterwards, any other row is
    as it was. *)
Lemma updateRows_rows (now : Z) (where_ : Tuple -> bool) (set : Tuple -> Tuple)
  (tbl tbl' : list Tuple) :
  updateRows now where_ set tbl = Ok tbl' ->
  forall (i : nat) (old : Tuple),
    tbl !! i = Some old ->
    exists new, tbl' !! i = Some new
                /\ (if where_ old then updated_at new = Some now
                    else new = old).
Proof.
  revert tbl'. induction tbl as [|x tbl IH]; intros tbl' H i old Hi;
    [discriminate Hi |].
  simpl in H.
  destruct (where_ x) eqn:Ew.
  - destruct (admit_tuple _) as [t|] eqn:Ea; [| discriminate].
    destruct (updateRows now where_ set tbl) as [rest'|]; [| discriminate].
    injection H as <-.
    destruct i as [|i]; simpl in Hi.
    + injection Hi as <-. exists t. rewrite Ew.
      split; [reflexivity | now apply admit_tuple_updated_at in Ea].
    + now apply (IH rest').
  - destruct (updateRows now where_ set tbl) as [rest'|]; [| discriminate].
    injection H as <-.
    destruct i as [|i]; simpl in Hi.
    + injection Hi as <-. exists x. now rewrite Ew.
    + now apply (IH rest').
Qed.

Lemma exec_tableOk (now : Z) (st : statement) (tbl tbl' : list Tuple) :
  tableOk tbl -> exec now st tbl = Ok tbl' -> tableOk tbl'.
Proof.
  intros [Hok Hp]. destruct st as [v|where_ set|where_]; simpl.
  - unfold insert. destruct (admit_tuple _) as [t|] eqn:Ea; [| discriminate].
    destruct (existsb (sameKey t) tbl) eqn:Ee; [discriminate |].
    intros [= <-]. split.
    + apply Forall_app. split; [assumption |].
      constructor; [now apply admit_tuple_rowOk in Ea | constructor].
    + now apply pkey_snoc.
  - unfold update.
    destruct (updateRows now where_ set tbl) as [t'|] eqn:Eu; [| discriminate].
    destruct (deployments_pkey t') eqn:Ep; [| discriminate].
    intros [= <-]. split; [now apply updateRows_rowOk in Eu | assumption].
  - intros [= <-]. unfold delete. split.
    + apply List.Forall_forall. intros t [Ht _]%filter_In.
      rewrite List.Forall_forall in Hok. now apply Hok.
    + now apply pkey_filter.
Qed.

Lemma run_tableOk (script : list (Z * statement)) (tbl : list Tuple) :
  tableOk tbl -> tableOk (run script tbl).
Proof.
  revert tbl. induction script as [|[now st] script IH]; intros tbl Hok;
    simpl; [assumption |].
  destruct (exec now st tbl) as [tbl'|] eqn:Ee; [| now apply IH].
  apply IH. exact (exec_tableOk now st tbl tbl' Hok Ee).
Qed.

End DeploymentsFacts.

Module DeploymentsClaims.
Import Deployments DeploymentsFacts.

(** C9, as the schema has it.  After any history of INSERT, UPDATE and
    DELETE statements on the empty table, every row has a status among
    active, stopped and failed, a [server_name] and a [version] that are not
    empty after [trim], which removes the spaces at both ends; no two rows
    have the same [server_name]; and an UPDATE leaves every row it selects
    with [updated_at] at the time of the statement. *)
Theorem deployments_constraints (script : list (Z * statement)) :
  Forall rowOk (run script [])
  /\ (forall (i j : nat) (ti tj : Tuple),
        run script [] !! i = Some ti -> run script [] !! j = Some tj ->
        server_name ti = server_name tj -> i = j)
  /\ (forall (now : Z) (where_ : Tuple -> bool) (set : Tuple -> Tuple)
             (tbl' : list Tuple),
        exec now (Update where_ set) (run script []) = Ok tbl' ->
        forall (i : nat) (old : Tuple),
          run script [] !! i = Some old -> where_ old = true ->
          exists new, tbl' !! i = Some new /\ updated_at new = Some now).
Proof.
  assert (Hok : tableOk (run script [])).
  { apply run_tableOk. split; [constructor | reflexivity]. }
  destruct Hok as [Hrows Hkey].
  split; [exact Hrows |]. split; [now apply pkey_unique |].
  intros now where_ set tbl' He i old Hi Hw.
  simpl in He. unfold update in He.
  destruct (updateRows now where_ set (run script [])) as [t'|] eqn:Eu;
    [| discriminate].
  destruct (deployments_pkey t'); [| discriminate].
  injection He as <-.
  destruct (updateRows_rows now where_ set _ _ Eu i old Hi) as (new & Hn & Hu).
  rewrite Hw in Hu. now exists new.
Qed.

(** C9 as it is worded does not hold: [trim] removes spaces and no other
    white space, so a row whose [server_name] is a tab and whose [version]
    is a line feed is stored, and both are empty after trimming
    whitespace. *)
Lemma deployments_blank_names :
  run [(10%Z, Insert blank)] []
  = [{| server_name := Some (String "009" EmptyString);
        version := Some (String "010" EmptyString);
        deployed_at := Some 10%Z; updated_at := Some 10%Z;
        status := Some "active"; config := Some "{}";
        prefer_remote := Some false; resource_type := Some "mcp" |}]
  /\ trimWhitespace (String "009" EmptyString) = EmptyString
  /\ trimWhitespace (String "010" EmptyString) = EmptyString
  /\ ~ Forall specNamesOk (run [(10%Z, Insert blank)] []).
Proof.
  repeat split.
  intros H. apply Forall_inv in H. destruct H as [(n & E & Hn) _].
  injection E as <-. vm_compute in Hn. lia.
Qed.

End DeploymentsClaims.

(** ** The transport resolver *)

Module TransportClaims.
Import Transport.

(** C3.  [("stdio", url)] resolves to [("stdio", "")] for any URL;
    [("streamable-http", "")] to the default URL
    [http://localhost:3000/mcp]; [("streamable-http", u)] with a non-empty
    [u] to itself; every other transport type, [http] among them, is an
    error. *)
Theorem resolveTransport_cases :
  (forall url : string, resolveTransport "stdio" url = Ok ("stdio", ""))
  /\ resolveTransport "streamable-http" ""
     = Ok ("streamable-http", "http://localhost:3000/mcp")
  /\ (forall u : string,
        u <> "" ->
        resolveTransport "streamable-http" u = Ok ("streamable-http", u))
  /\ (forall transportType url : string,
        transportType <> "stdio" -> transportType <> "streamable-http" ->
        resolveTransport transportType url = Err "invalid transport")
  /\ resolveTransport "http" "http://localhost:8080" = Err "invalid transport".
Proof.
  split; [reflexivity |]. split; [reflexivity |]. split; [| split].
  - intros u Hu. unfold resolveTransport. simpl.
    destruct (String.eqb_spec u ""); [congruence | reflexivity].
  - intros t url H1 H2. unfold resolveTransport.
    destruct (String.eqb_spec t "stdio"); [congruence |].
    destruct (String.eqb_spec t "streamable-http"); [congruence | reflexivity].
  - reflexivity.
Qed.

End TransportClaims.

(** ** The OCI validator *)

Module OCIFacts.
Import GoStrings.

Lemma prefix_app (p a b : string) :
  String.prefix p a = true -> String.prefix p (a +:+ b) = true.
Proof.
  revert a. induction p as [|c p IH]; intros a;
    [intros _; now destruct (a +:+ b) |].
  destruct a as [|x a]; simpl; [discriminate |].
  destruct (ascii_dec c x); [apply IH | discriminate].
Qed.

(** What a message contains, it contains with more text after it. *)
Lemma Contains_app (a b sub : string) :
  Contains a sub = true -> Contains (a +:+ b) sub = true.
Proof.
  induction a as [|x a IH]; simpl.
  - rewrite orb_false_r. unfold HasPrefix.
    destruct sub; [intros _ | discriminate].
    destruct b; reflexivity.
  - intros [H|H]%orb_true_iff; apply orb_true_iff.
    + left. unfold HasPrefix in *.
      exact (prefix_app sub (String x a) b H).
    + right. now apply IH.
Qed.

End OCIFacts.

Module OCIClaims.
Import GoStrings OCI OCIFacts.

(** C5, as the validator has it.  For a package whose identifier parses as
    a reference: a registry host outside the allowlist (gcr.io, quay.io,
    public.ecr.aws, ...) gives an error that contains "unsupported OCI
    registry"; a host on the allowlist, docker.io for an identifier without
    a host among them, passes the host check: an error, if there is one, is
    not the error of the host check; and for a package without the fields
    [registryBaseUrl], [version] and [fileSha256] whose manifest is fetched,
    an error is an error about the annotation. *)
Theorem ValidateOCI_allowlist
  (parseReference : string -> option Reference)
  (fetchAnnotations : Reference -> result (gmap string string))
  (mcpAnnotation : string) (pkg : Package) (serverName : string)
  (ref : Reference) :
  Identifier pkg <> "" ->
  parseReference (Identifier pkg) = Some ref ->
  (registryAllowed (registryOf ref) = false ->
   exists msg,
     ValidateOCI parseReference fetchAnnotations mcpAnnotation pkg serverName
     = Some msg
     /\ Contains msg "unsupported OCI registry" = true)
  /\ (ref_host ref = None -> registryAllowed (registryOf ref) = true)
  /\ (registryAllowed (registryOf ref) = true ->
      forall msg,
        ValidateOCI parseReference fetchAnnotations mcpAnnotation pkg serverName
        = Some msg ->
        HasPrefix msg "unsupported OCI registry" = false)
  /\ (registryAllowed (registryOf ref) = true ->
      RegistryBaseURL pkg = "" -> Version pkg = "" -> FileSHA256 pkg = "" ->
      forall annotations msg,
        fetchAnnotations ref = Ok annotations ->
        ValidateOCI parseReference fetchAnnotations mcpAnnotation pkg serverName
        = Some msg ->
        Contains msg "missing required annotation" = true
        \/ Contains msg "ownership validation failed" = true)
  /\ (registryAllowed "gcr.io" = false /\ registryAllowed "quay.io" = false
      /\ registryAllowed "public.ecr.aws" = false
      /\ registryAllowed "docker.io" = true /\ registryAllowed "ghcr.io" = true
      /\ registryAllowed "us-central1-docker.pkg.dev" = true).
Proof.
  intros Hid Hparse.
  assert (Hne : String.eqb (Identifier pkg) "" = false)
    by now apply String.eqb_neq.
  split; [| split; [| split; [| split]]].
  - intros Hbad. unfold ValidateOCI. rewrite Hne, Hparse, Hbad. simpl.
    eexists. split; [reflexivity |].
    now apply (Contains_app "unsupported OCI registry: " (registryOf ref)).
  - intros Hh. unfold registryOf. rewrite Hh. reflexivity.
  - intros Hgood msg. unfold ValidateOCI. rewrite Hne, Hparse, Hgood.
    cbn [negb].
    destruct (negb (String.eqb (RegistryBaseURL pkg) ""));
      [now intros [= <-] |].
    destruct (negb (String.eqb (Version pkg) "")); [now intros [= <-] |].
    destruct (negb (String.eqb (FileSHA256 pkg) "")); [now intros [= <-] |].
    destruct (fetchAnnotations ref) as [annotations|]; [| now intros [= <-]].
    destruct (annotations !! mcpAnnotation) as [value|];
      [| now intros [= <-]].
    destruct (String.eqb value serverName); [discriminate |].
    now intros [= <-].
  - intros Hgood Hb Hv Hf annotations msg Hfetch.
    unfold ValidateOCI. rewrite Hne, Hparse, Hgood, Hb, Hv, Hf, Hfetch. simpl.
    destruct (annotations !! mcpAnnotation) as [value|].
    + destruct (String.eqb value serverName); [discriminate |].
      intros [= <-]. right.
      now apply (Contains_app "ownership validation failed. ").
    + intros [= <-]. left.
      now apply (Contains_app "missing required annotation: " mcpAnnotation).
  - repeat split; reflexivity.
Qed.

Lemma ValidateOCI_allowlist_witness :
  let parse := fun _ : string =>
    Some {| ref_host := Some "gcr.io"; ref_repository := "x/y";
            ref_tagOrDigest := "latest" |} in
  let pkg := {| RegistryType := "oci"; Identifier := "gcr.io/x/y:latest";
                RegistryBaseURL := ""; Version := ""; FileSHA256 := "" |} in
  (Identifier pkg <> ""
   /\ parse (Identifier pkg)
      = Some {| ref_host := Some "gcr.io"; ref_repository := "x/y";
                ref_tagOrDigest := "latest" |})
  /\ exists msg,
       ValidateOCI parse (fun _ => Ok ∅) "io.modelcontextprotocol.server.name"
         pkg "com.example/test" = Some msg
       /\ Contains msg "unsupported OCI registry" = true.
Proof.
  intros parse pkg.
  assert (Hid : Identifier pkg <> "") by discriminate.
  split; [split; [exact Hid | reflexivity] |].
  apply (ValidateOCI_allowlist parse (fun _ => Ok ∅)
           "io.modelcontextprotocol.server.name" pkg "com.example/test"
           {| ref_host := Some "gcr.io"; ref_repository := "x/y";
              ref_tagOrDigest := "latest" |} Hid eq_refl).
  reflexivity.
Defined.

(** C5 as it is worded does not hold: a package on docker.io that carries a
    [version], the package of [TestValidateOCI_RejectsOldFormat], passes the
    host check and fails with an error that is not about the annotation. *)
Lemma ValidateOCI_allowed_not_annotation :
  let ref := {| ref_host := Some "docker.io"; ref_repository := "test/image";
                ref_tagOrDigest := "latest" |} in
  let pkg := {| RegistryType := "oci";
                Identifier := "docker.io/test/image:latest";
                RegistryBaseURL := ""; Version := "1.0.0";
                FileSHA256 := "" |} in
  registryAllowed (registryOf ref) = true
  /\ ValidateOCI (fun _ => Some ref) (fun _ => Ok ∅)
       "io.modelcontextprotocol.server.name" pkg "com.example/test"
     = Some "OCI packages must not have 'version' field"
  /\ Contains "OCI packages must not have 'version' field" "annotation"
     = false.
Proof. repeat split. Qed.

(** C6.  For a package that reaches the fetch of its image manifest: when
    the canonical annotation is absent the error contains "missing required
    annotation"; when it is present with a value other than the server name
    the error contains "ownership validation failed" and "Expected
    annotation"; when its value is the server name the validation
    succeeds. *)
Theorem ValidateOCI_annotation
  (parseReference : string -> option Reference)
  (fetchAnnotations : Reference -> result (gmap string string))
  (mcpAnnotation : string) (pkg : Package) (serverName : string)
  (ref : Reference) (annotations : gmap string string) :
  Identifier pkg <> "" ->
  parseReference (Identifier pkg) = Some ref ->
  registryAllowed (registryOf ref) = true ->
  RegistryBaseURL pkg = "" -> Version pkg = "" -> FileSHA256 pkg = "" ->
  fetchAnnotations ref = Ok annotations ->
  (annotations !! mcpAnnotation = None ->
   exists msg,
     ValidateOCI parseReference fetchAnnotations mcpAnnotation pkg serverName
     = Some msg
     /\ Contains msg "missing required annotation" = true)
  /\ (forall value,
        annotations !! mcpAnnotation = Some value -> value <> serverName ->
        exists msg,
          ValidateOCI parseReference fetchAnnotations mcpAnnotation pkg
            serverName = Some msg
          /\ Contains msg "ownership validation failed" = true
          /\ Contains msg "Expected annotation" = true)
  /\ (annotations !! mcpAnnotation = Some serverName ->
      ValidateOCI parseReference fetchAnnotations mcpAnnotation pkg serverName
      = None).
Proof.
  intros Hid Hparse Hgood Hb Hv Hf Hfetch.
  assert (Hne : String.eqb (Identifier pkg) "" = false)
    by now apply String.eqb_neq.
  unfold ValidateOCI. rewrite Hne, Hparse, Hgood, Hb, Hv, Hf, Hfetch. simpl.
  split; [| split].
  - intros ->. eexists. split; [reflexivity |].
    now apply (Contains_app "missing required annotation: " mcpAnnotation).
  - intros value -> Hdiff.
    destruct (String.eqb_spec value serverName); [congruence |].
    eexists. split; [reflexivity |]. split.
    + now apply (Contains_app "ownership validation failed. ").
    + now apply (Contains_app "ownership validation failed. Expected annotation ").
  - intros ->. now rewrite String.eqb_refl.
Qed.

Lemma ValidateOCI_annotation_witness :
  let ref := {| ref_host := Some "ghcr.io";
                ref_repository := "github/github-mcp-server";
                ref_tagOrDigest := "latest" |} in
  let parse := fun _ : string => Some ref in
  let annotations : gmap string string :=
    {["io.modelcontextprotocol.server.name"
      := "io.github.github/github-mcp-server"]} in
  let pkg := {| RegistryType := "oci";
                Identifier := "ghcr.io/github/github-mcp-server:latest";
                RegistryBaseURL := ""; Version := ""; FileSHA256 := "" |} in
  (Identifier pkg <> "" /\ parse (Identifier pkg) = Some ref
   /\ registryAllowed (registryOf ref) = true
   /\ RegistryBaseURL pkg = "" /\ Version pkg = "" /\ FileSHA256 pkg = "")
  /\ ValidateOCI parse (fun _ => Ok annotations)
       "io.modelcontextprotocol.server.name" pkg
       "io.github.github/github-mcp-server" = None
  /\ exists msg,
       ValidateOCI parse (fun _ => Ok annotations)
         "io.modelcontextprotocol.server.name" pkg
         "io.github.github/github-mcp-server-mismatch" = Some msg
       /\ Contains msg "ownership validation failed" = true
       /\ Contains msg "Expected annotation" = true.
Proof.
  intros ref parse annotations pkg.
  assert (Hid : Identifier pkg <> "") by discriminate.
  split; [repeat split; try reflexivity; exact Hid |].
  split.
  - apply (ValidateOCI_annotation parse (fun _ => Ok annotations)
             "io.modelcontextprotocol.server.name" pkg
             "io.github.github/github-mcp-server" ref annotations
             Hid eq_refl eq_refl eq_refl eq_refl eq_refl eq_refl).
    vm_compute. reflexivity.
  - apply (ValidateOCI_annotation parse (fun _ => Ok annotations)
             "io.modelcontextprotocol.server.name" pkg
             "io.github.github/github-mcp-server-mismatch" ref annotations
             Hid eq_refl eq_refl eq_refl eq_refl eq_refl eq_refl)
      with (value := "io.github.github/github-mcp-server").
    + vm_compute. reflexivity.
    + discriminate.
Defined.

End OCIClaims.

(** ** The Kubernetes translator *)

Module KagentFacts.
Import GoPathFacts Kagent.


Section Translator.
Variable unicodeToLower : string -> string.
Variable jsonMarshal : list ResolvedMCPServerConfig -> string.






End Translator.

End KagentFacts.

Module KagentClaims.
Import Kagent KagentFacts.




End KagentClaims.

(** ** The definitions on concrete inputs *)

Module Examples.
Import GoStrings GoPath.

Example ReplaceAll_leftmost : ReplaceAll "aaa" "aa" "b" = "ba".
Proof. reflexivity. Qed.

Example ReplaceAll_localhost :
  ReplaceAll "https://localhost:6443" "localhost" "host.docker.internal"
  = "https://host.docker.internal:6443".
Proof. reflexivity. Qed.

Example Contains_middle : Contains "server: https://127.0.0.1:6443" "127.0.0.1" = true.
Proof. reflexivity. Qed.

Example Contains_absent : Contains "server: https://10.0.0.1:6443" "127.0.0.1" = false.
Proof. reflexivity. Qed.

Example Clean_dots : Clean "a//b/./c/.." = "a/b".
Proof. reflexivity. Qed.

Example Clean_root_dotdot : Clean "/../a" = "/a".
Proof. reflexivity. Qed.

Example Clean_leading_dotdot : Clean "../../a/.." = "../..".
Proof. reflexivity. Qed.

Example Clean_empty : Clean "" = ".".
Proof. reflexivity. Qed.

Example Join_kubeconfig :
  Join ["/Users/dev"; ".kube"; "config"] = "/Users/dev/.kube/config".
Proof. reflexivity. Qed.

Example Join_skips_empty : Join [""; "agent_gateway"] = "agent_gateway".
Proof. reflexivity. Qed.

Example generateInternalName_server :
  Registry.generateInternalName (fun s => s) "io.github.Foo/My Server_v2"
  = "io-github-foo-my-server-v2".
Proof. reflexivity. Qed.

Example MatchString_version :
  GoRegexp.MatchString DockerCompose.versionRegex "0.9.0-rc.1" = true
  /\ GoRegexp.MatchString DockerCompose.versionRegex "1.0; rm" = false
  /\ GoRegexp.MatchString DockerCompose.versionRegex "" = false.
Proof. repeat split; reflexivity. Qed.

Example getAgentGatewayImage_override :
  DockerCompose.getAgentGatewayImage {["TRANSPORT_ADAPTER_VERSION" := "1.2.3"]}
  = "ghcr.io/agentgateway/agentgateway:1.2.3-musl".
Proof. vm_compute. reflexivity. Qed.

Example getAgentGatewayImage_invalid :
  DockerCompose.getAgentGatewayImage {["TRANSPORT_ADAPTER_VERSION" := "1.2:3"]}
  = "ghcr.io/agentgateway/agentgateway:0.9.0-musl".
Proof. vm_compute. reflexivity. Qed.

(** The translator of the constructor has no port: its translation fails. *)
Example TranslateRuntimeConfig_no_port :
  DockerCompose.TranslateRuntimeConfig unit (fun _ => None) ∅
    (DockerCompose.NewAgentGatewayTranslator "/tmp/runtime")
    {| Api.MCPServers := [] |}
  = Err "failed to translate agent gateway service: agent gateway port must be specified".
Proof. reflexivity. Qed.

Import Deployments.

Example insert_defaults :
  insert 10 weather []
  = Ok [{| server_name := Some "io.example/weather";
           version := Some "1.0.0";
           deployed_at := Some 10%Z; updated_at := Some 10%Z;
           status := Some "active"; config := Some "{}";
           prefer_remote := Some false; resource_type := Some "mcp" |}].
Proof. reflexivity. Qed.

Example insert_twice :
  run [(10%Z, Insert weather); (11%Z, Insert weather)] []
  = run [(10%Z, Insert weather)] [].
Proof. reflexivity. Qed.

Example insert_blank_name :
  isErr (insert 10
           {| i_server_name := Value (Some "   ");
              i_version := Value (Some "1.0.0");
              i_deployed_at := UseDefault; i_updated_at := UseDefault;
              i_status := UseDefault; i_config := UseDefault;
              i_prefer_remote := UseDefault; i_resource_type := UseDefault |}
           []) = true.
Proof. reflexivity. Qed.

(** The trigger wins over an [updated_at] in the SET. *)
Example update_sets_updated_at :
  run [(10%Z, Insert weather);
       (20%Z, Update (fun _ => true)
                (fun t => {| server_name := server_name t;
                             version := version t;
                             deployed_at := deployed_at t;
                             updated_at := Some 0%Z;
                             status := Some "stopped"; config := config t;
                             prefer_remote := prefer_remote t;
                             resource_type := resource_type t |}))] []
  = [{| server_name := Some "io.example/weather";
        version := Some "1.0.0";
        deployed_at := Some 10%Z; updated_at := Some 20%Z;
        status := Some "stopped"; config := Some "{}";
        prefer_remote := Some false; resource_type := Some "mcp" |}].
Proof. reflexivity. Qed.

Example update_bad_status :
  isErr (exec 20 (Update (fun _ => true)
                    (fun t => {| server_name := server_name t;
                                 version := version t;
                                 deployed_at := deployed_at t;
                                 updated_at := updated_at t;
                                 status := Some "paused"; config := config t;
                                 prefer_remote := prefer_remote t;
                                 resource_type := resource_type t |}))
           (run [(10%Z, Insert weather)] [])) = true.
Proof. reflexivity. Qed.

End Examples.

(** ** Internal names of ASCII names *)

Module InternalNameFacts.
Import GoStrings GoStringsFacts Registry RegistryFacts.

Lemma internalByte_ascii (c : ascii) :
  isASCIIbyte c = true -> isASCIIbyte (internalByte c) = true.
Proof.
  destruct c as [[] [] [] [] [] [] [] []]; intros H;
    first [reflexivity | discriminate H].
Qed.

Lemma internalByte_fixed (c : ascii) :
  isASCIIbyte c = true ->
  internalByte (internalByte c) = internalByte c
  /\ isReplacedByte (internalByte c) = false
  /\ lowerByte (internalByte c) = internalByte c.
Proof.
  destruct c as [[] [] [] [] [] [] [] []]; intros H;
    first [repeat split; reflexivity | discriminate H].
Qed.

(** X1 ([generateInternalName]).  The internal name of an ASCII name has
    the length of the name, keeps none of the characters the function
    replaces and no upper-case letter, and is its own internal name. *)
Theorem generateInternalName_idempotent (lower : string -> string)
  (name : string) :
  isASCII name = true ->
  String.length (generateInternalName lower name) = String.length name
  /\ isASCII (generateInternalName lower name) = true
  /\ (forall c : ascii,
        In c (list_ascii_of_string (generateInternalName lower name)) ->
        isReplacedByte c = false /\ lowerByte c = c)
  /\ generateInternalName lower (generateInternalName lower name)
     = generateInternalName lower name.
Proof.
  intros Hascii.
  assert (Hall : forall c, In c (list_ascii_of_string name) ->
                           isASCIIbyte c = true).
  { intros c Hc. unfold isASCII in Hascii.
    rewrite forallb_forall in Hascii. now apply Hascii. }
  assert (Hres : isASCII (generateInternalName lower name) = true).
  { rewrite generateInternalName_ascii by assumption.
    apply isASCII_mapBytes; [apply internalByte_ascii | assumption]. }
  split; [| split; [exact Hres | split]].
  - rewrite generateInternalName_ascii by assumption. apply mapBytes_length.
  - rewrite generateInternalName_ascii by assumption.
    rewrite list_ascii_of_mapBytes. intros c [x [<- Hx]]%in_map_iff.
    destruct (internalByte_fixed x (Hall x Hx)) as (_ & H1 & H2).
    now split.
  - rewrite (generateInternalName_ascii lower _ Hres).
    rewrite generateInternalName_ascii by assumption.
    rewrite mapBytes_mapBytes. apply mapBytes_ext_on. intros c Hc.
    now destruct (internalByte_fixed c (Hall c Hc)) as (H0 & _ & _).
Qed.

Lemma generateInternalName_idempotent_witness :
  isASCII "Io.GitHub+Foo/My Server" = true
  /\ generateInternalName (fun s => s)
       (generateInternalName (fun s => s) "Io.GitHub+Foo/My Server")
     = generateInternalName (fun s => s) "Io.GitHub+Foo/My Server".
Proof.
  split; [reflexivity |].
  apply (generateInternalName_idempotent (fun s => s)
           "Io.GitHub+Foo/My Server"); reflexivity.
Defined.

End InternalNameFacts.

(** ** The services of the compose project *)

Module ComposeServicesFacts.
Import GoStrings DockerCompose ComposeSpec ComposeImageClaims.

Section Services.
Variable environ : gmap string string.
Variable t : agentGatewayTranslator.

Lemma serviceConfig_hasImage (server : Api.MCPServer) :
  isErr (translateMCPServerToServiceConfig environ t server)
  = negb (hasImage server).
Proof.
  rewrite translateMCPServerToServiceConfig_error. unfold hasImage.
  destruct (String.eqb (Api.Image (Api.Deployment server)) "");
    destruct (String.eqb (Api.Cmd (Api.Deployment server)) "uvx");
    destruct (String.eqb (Api.Cmd (Api.Deployment server)) "npx");
    reflexivity.
Qed.

Lemma serviceConfig_name (server : Api.MCPServer) (svc : ServiceConfig) :
  translateMCPServerToServiceConfig environ t server = Ok svc ->
  svc_Name svc = Api.Name server
  /\ svc_Image svc = getAgentGatewayImage environ.
Proof.
  unfold translateMCPServerToServiceConfig.
  destruct (String.eqb _ ""); [discriminate |].
  now intros [= <-].
Qed.

Lemma httpNames_cons (server : Api.MCPServer) (rest : list Api.MCPServer) :
  httpNames (server :: rest)
  = if isHTTP server then Api.Name server :: httpNames rest
    else httpNames rest.
Proof. unfold httpNames. simpl. now destruct (isHTTP server). Qed.

Lemma translateMCPServers_cons (server : Api.MCPServer)
  (rest : list Api.MCPServer) (services : gmap string ServiceConfig) :
  translateMCPServers environ t (server :: rest) services
  = if isHTTP server then
      match services !! Api.Name server with
      | Some _ => Err ("duplicate MCPServer name found: " +:+ Api.Name server)
      | None =>
          match translateMCPServerToServiceConfig environ t server with
          | Err err =>
              Err ("failed to translate MCPServer " +:+ Api.Name server
                   +:+ " to service config: " +:+ err)
          | Ok serviceConfig =>
              translateMCPServers environ t rest
                (<[Api.Name server := serviceConfig]> services)
          end
      end
    else translateMCPServers environ t rest services.
Proof. cbn [translateMCPServers]. unfold isHTTP. now destruct (String.eqb _ _). Qed.

(** The loop goes through exactly when the http servers have distinct
    names, none of them taken, and each has an image. *)
Lemma translateMCPServers_ok (servers : list Api.MCPServer)
  (services : gmap string ServiceConfig) :
  isErr (translateMCPServers environ t servers services) = false <->
  NoDup (httpNames servers)
  /\ (forall name, name ∈ httpNames servers -> services !! name = None)
  /\ Forall (fun s => hasImage s = true) (List.filter isHTTP servers).
Proof.
  revert services. induction servers as [|s rest IH]; intros services.
  - simpl. split; [intros _ | reflexivity].
    split; [constructor |]. split; [| constructor].
    intros name Hn. now apply elem_of_nil in Hn.
  - rewrite translateMCPServers_cons, httpNames_cons. simpl List.filter.
    destruct (isHTTP s) eqn:Eh; [| apply IH].
    rewrite NoDup_cons, List.Forall_cons_iff.
    destruct (services !! Api.Name s) as [old|] eqn:Es.
    + split; [discriminate |]. intros (_ & Hfree & _).
      rewrite (Hfree (Api.Name s)) in Es by apply list_elem_of_here.
      discriminate.
    + pose proof (serviceConfig_hasImage s) as Himg.
      destruct (translateMCPServerToServiceConfig environ t s) as [svc|e].
      * simpl in Himg. apply (f_equal negb) in Himg.
        rewrite negb_involutive in Himg. simpl in Himg.
        rewrite IH. split.
        -- intros (Hnd & Hfree & Hall). split; [split; [| exact Hnd] |].
           ++ intros Hin. specialize (Hfree _ Hin).
              now rewrite lookup_insert_eq in Hfree.
           ++ split; [| split; [now symmetry | exact Hall]].
              intros name [-> | Hin]%elem_of_cons; [exact Es |].
              specialize (Hfree _ Hin).
              destruct (decide (Api.Name s = name)) as [<- | Hne];
                [now rewrite lookup_insert_eq in Hfree |].
              now rewrite lookup_insert_ne in Hfree.
        -- intros ((Hnin & Hnd) & Hfree & _ & Hall).
           split; [exact Hnd |]. split; [| exact Hall].
           intros name Hin. rewrite lookup_insert_ne.
           ++ apply Hfree. now apply elem_of_cons; right.
           ++ intros <-. contradiction.
      * simpl in Himg. split; [discriminate |].
        intros (_ & _ & Himg' & _). rewrite Himg' in Himg. discriminate.
Qed.

(** What the loop leaves in the map: the services it had, and for each http
    server a service under the server's name, with that name and with the
    image of the agent gateway. *)
Lemma translateMCPServers_lookup (servers : list Api.MCPServer)
  (services services' : gmap string ServiceConfig) :
  translateMCPServers environ t servers services = Ok services' ->
  forall name,
    (name ∉ httpNames servers -> services' !! name = services !! name)
    /\ (name ∈ httpNames servers ->
        exists svc, services' !! name = Some svc
                    /\ svc_Name svc = name
                    /\ svc_Image svc = getAgentGatewayImage environ).
Proof.
  revert services. induction servers as [|s rest IH]; intros services.
  - simpl. intros [= <-] name. split; [reflexivity |].
    intros Hn. now apply elem_of_nil in Hn.
  - rewrite translateMCPServers_cons, httpNames_cons.
    destruct (isHTTP s) eqn:Eh; [| apply IH].
    destruct (services !! Api.Name s) as [old|] eqn:Es; [discriminate |].
    destruct (translateMCPServerToServiceConfig environ t s) as [svc|e] eqn:Et;
      [| discriminate].
    intros Hrest name.
    destruct (serviceConfig_name s svc Et) as [Hname Himage].
    assert (Hok : isErr (translateMCPServers environ t rest
                           (<[Api.Name s := svc]> services)) = false)
      by now rewrite Hrest.
    apply translateMCPServers_ok in Hok as (_ & Hfree & _).
    destruct (IH _ Hrest name) as [Hout Hin].
    split.
    + intros Hn. apply not_elem_of_cons in Hn as [Hne Hn].
      rewrite (Hout Hn). now apply lookup_insert_ne.
    + intros [-> | Hn]%elem_of_cons; [| now apply Hin].
      exists svc. split; [| now split].
      destruct (decide (Api.Name s ∈ httpNames rest)) as [Hd | Hd].
      * specialize (Hfree _ Hd). now rewrite lookup_insert_eq in Hfree.
      * destruct (IH _ Hrest (Api.Name s)) as [Hout' _].
        rewrite (Hout' Hd). apply lookup_insert_eq.
Qed.

End Services.

End ComposeServicesFacts.

Module ComposeServicesExtras.
Import GoStrings DockerCompose ComposeSpec ComposeServicesFacts.

(** X2 ([TranslateRuntimeConfig], [NewAgentGatewayTranslator]).  The
    translation succeeds exactly when the translator has a port, the
    servers on http have distinct names, none of them [agent_gateway], and
    each has an image or one of the commands uvx and npx.  A translator made
    by [NewAgentGatewayTranslator] has no port, so its translation fails. *)
Theorem TranslateRuntimeConfig_succeeds
  (AgentGatewayConfig : Type)
  (translateAgentGatewayConfig : list Api.MCPServer -> option AgentGatewayConfig)
  (environ : gmap string string) (t : agentGatewayTranslator)
  (desired : Api.DesiredState) :
  (isErr (TranslateRuntimeConfig AgentGatewayConfig translateAgentGatewayConfig
            environ t desired) = false <->
   agentGatewayPort t <> 0%N
   /\ NoDup ("agent_gateway" :: httpNames (Api.MCPServers desired))
   /\ Forall (fun s => hasImage s = true)
        (List.filter isHTTP (Api.MCPServers desired)))
  /\ (forall composeWorkingDir : string,
        isErr (TranslateRuntimeConfig AgentGatewayConfig
                 translateAgentGatewayConfig environ
                 (NewAgentGatewayTranslator composeWorkingDir) desired) = true).
Proof.
  split.
  - unfold TranslateRuntimeConfig, translateAgentGatewayService.
    destruct (N.eqb_spec (agentGatewayPort t) 0) as [E|Hne].
    + split; [discriminate | intros [Hp _]; congruence].
    + pose proof (translateMCPServers_ok environ t (Api.MCPServers desired)) as H.
      match goal with
      | |- context [translateMCPServers _ _ _ ?m] => specialize (H m)
      end.
      destruct (translateMCPServers environ t (Api.MCPServers desired) _)
        as [services|e]; simpl in *.
      * split; [intros _ | reflexivity].
        destruct H as [H _]. destruct (H eq_refl) as (Hnd & Hfree & Hall).
        split; [assumption |]. split; [| assumption].
        apply NoDup_cons. split; [| assumption].
        intros Hin. specialize (Hfree _ Hin).
        now rewrite lookup_singleton_eq in Hfree.
      * split; [discriminate |].
        intros (_ & [Hnin Hnd]%NoDup_cons & Hall).
        destruct H as [_ H]. apply H. split; [assumption |].
        split; [| assumption].
        intros name Hin. apply lookup_singleton_ne. now intros <-.
  - intros dir. reflexivity.
Qed.

(** X3 ([TranslateRuntimeConfig]).  In a translated project every service
    carries its key as its name and the image of the agent gateway; the services are [agent_gateway] and one
    for each server on http, and a server on stdio has none. *)
Theorem TranslateRuntimeConfig_services
  (AgentGatewayConfig : Type)
  (translateAgentGatewayConfig : list Api.MCPServer -> option AgentGatewayConfig)
  (environ : gmap string string) (t : agentGatewayTranslator)
  (desired : Api.DesiredState) (cfg : AiRuntimeConfig AgentGatewayConfig) :
  TranslateRuntimeConfig AgentGatewayConfig translateAgentGatewayConfig
    environ t desired = Ok cfg ->
  Name (DockerCompose AgentGatewayConfig cfg) = "ai_registry"
  /\ WorkingDir (DockerCompose AgentGatewayConfig cfg) = composeWorkingDir t
  /\ forall name : string,
       (is_Some (Services (DockerCompose AgentGatewayConfig cfg) !! name) <->
        name = "agent_gateway" \/ name ∈ httpNames (Api.MCPServers desired))
       /\ (forall svc,
             Services (DockerCompose AgentGatewayConfig cfg) !! name = Some svc ->
             svc_Name svc = name
             /\ svc_Image svc = getAgentGatewayImage environ).
Proof.
  unfold TranslateRuntimeConfig, translateAgentGatewayService.
  destruct (N.eqb (agentGatewayPort t) 0); [discriminate |].
  destruct (translateMCPServers environ t (Api.MCPServers desired) _)
    as [services|e] eqn:Et; [| discriminate].
  intros [= <-]. cbn [DockerCompose Name WorkingDir Services].
  split; [reflexivity |]. split; [reflexivity |].
  intros name.
  destruct (translateMCPServers_lookup environ t _ _ _ Et name) as [Hout Hin].
  destruct (decide (name ∈ httpNames (Api.MCPServers desired))) as [Hd|Hd].
  - destruct (Hin Hd) as (svc & Hs & Hn & Hi). rewrite Hs. split.
    + split; [intros _; now right | intros _; now exists svc].
    + intros svc' [= <-]. now split.
  - rewrite (Hout Hd).
    destruct (decide (name = "agent_gateway")) as [-> | Hne].
    + rewrite lookup_singleton_eq. split.
      * split; [intros _; now left | intros _; eexists; reflexivity].
      * intros svc [= <-]. now split.
    + rewrite lookup_singleton_ne by congruence. split.
      * split; [intros [? ?]; discriminate | intros [? | ?]; contradiction].
      * discriminate.
Qed.

Lemma TranslateRuntimeConfig_services_witness :
  let t := {| composeWorkingDir := "/tmp/runtime"; agentGatewayPort := 8080 |} in
  let desired :=
    {| Api.MCPServers :=
         [{| Api.Name := "files";
             Api.Deployment :=
               {| Api.Image := "mcp/files:1"; Api.Port := 0; Api.Cmd := "";
                  Api.Args := []; Api.Env := ∅ |};
             Api.TransportType := "http"; Api.Stdio := None;
             Api.HTTP := None |};
          {| Api.Name := "local";
             Api.Deployment :=
               {| Api.Image := ""; Api.Port := 0; Api.Cmd := "python";
                  Api.Args := []; Api.Env := ∅ |};
             Api.TransportType := "stdio"; Api.Stdio := Some tt;
             Api.HTTP := None |}] |} in
  exists cfg,
    TranslateRuntimeConfig unit (fun _ => None) ∅ t desired = Ok cfg
    /\ Name (DockerCompose unit cfg) = "ai_registry".
Proof.
  intros t desired. eexists. split; [vm_compute; reflexivity |].
  eapply (TranslateRuntimeConfig_services unit (fun _ => None) ∅ t desired).
  vm_compute. reflexivity.
Defined.

(** X4 ([TranslateMCPServer]).  A desired state made of what the registry
    translator returns has no server on http: its compose project has the service of the agent gateway
    and no other. *)
Theorem TranslateMCPServer_no_service
  (Remote Package AgentGatewayConfig : Type)
  (unicodeToLower : string -> string)
  (translateAgentGatewayConfig : list Api.MCPServer -> option AgentGatewayConfig)
  (environ : gmap string string) (t : agentGatewayTranslator)
  (servers : list Api.MCPServer) :
  agentGatewayPort t <> 0%N ->
  Forall (fun s => exists registryServer env,
            RegistryTranslator.TranslateMCPServer Remote Package unicodeToLower
              registryServer env = Ok s) servers ->
  exists cfg svc,
    TranslateRuntimeConfig AgentGatewayConfig translateAgentGatewayConfig
      environ t {| Api.MCPServers := servers |} = Ok cfg
    /\ Services (DockerCompose AgentGatewayConfig cfg)
       = {["agent_gateway" := svc]}.
Proof.
  intros Hport Hall.
  assert (Hloop : forall m, translateMCPServers environ t servers m = Ok m).
  { induction Hall as [|s rest (r & env & Hs) _ IH]; intros m; [reflexivity |].
    rewrite translateMCPServers_cons.
    injection Hs as <-. unfold isHTTP. simpl. apply IH. }
  unfold TranslateRuntimeConfig, translateAgentGatewayService.
  destruct (N.eqb_spec (agentGatewayPort t) 0) as [E|_]; [congruence |].
  cbn [Api.MCPServers]. rewrite Hloop.
  eexists. eexists. split; reflexivity.
Qed.

Lemma TranslateMCPServer_no_service_witness :
  let t := {| composeWorkingDir := "/tmp/runtime"; agentGatewayPort := 8080 |} in
  let server :=
    {| RegistryTranslator.Name := "io.github.foo/weather";
       RegistryTranslator.Remotes := [tt];
       RegistryTranslator.Packages := [] |} in
  agentGatewayPort t <> 0%N
  /\ exists s cfg svc,
       RegistryTranslator.TranslateMCPServer unit unit (fun x => x) server ∅
       = Ok s
       /\ TranslateRuntimeConfig unit (fun _ => None) ∅ t
            {| Api.MCPServers := [s] |} = Ok cfg
       /\ Services (DockerCompose unit cfg) = {["agent_gateway" := svc]}.
Proof.
  intros t server.
  assert (Hp : agentGatewayPort t <> 0%N) by discriminate.
  split; [exact Hp |].
  eexists. 
  destruct (TranslateMCPServer_no_service unit unit unit (fun x => x)
              (fun _ => None) ∅ t
              [{| Api.Name := "io-github-foo-weather";
                  Api.Deployment :=
                    {| Api.Image := ""; Api.Port := 0; Api.Cmd := "";
                       Api.Args := []; Api.Env := ∅ |};
                  Api.TransportType := ""; Api.Stdio := None;
                  Api.HTTP := None |}] Hp) as (cfg & svc & H1 & H2).
  - constructor; [| constructor]. exists server, ∅. vm_compute. reflexivity.
  - exists cfg, svc. split; [vm_compute; reflexivity |]. now split.
Defined.

End ComposeServicesExtras.

(** ** The daemon manager *)

Module DaemonManagerExtras.
Import GoStrings GoPath GoPathFacts Daemon DaemonFacts DaemonManager.

(** X5 ([NewDaemonManager], [DefaultConfig]).  [NewDaemonManager] takes
    each field from the given configuration where it is not empty and from the defaults elsewhere; without a
    configuration it gives the defaults; and a manager made from the
    configuration of a manager is that manager. *)
Theorem NewDaemonManager_fields
  (DockerComposeYaml versionDockerRegistry versionVersion : string)
  (given : DaemonConfig) :
  let dflt := DefaultConfig DockerComposeYaml versionDockerRegistry
                versionVersion in
  let new := NewDaemonManager DockerComposeYaml versionDockerRegistry
               versionVersion in
  config (new (Some given))
  = {| ProjectName := orElse (ProjectName given) (ProjectName dflt);
       ContainerName := orElse (ContainerName given) (ContainerName dflt);
       ComposeYAML := orElse (ComposeYAML given) (ComposeYAML dflt);
       DockerRegistry := orElse (DockerRegistry given) (DockerRegistry dflt);
       Version := orElse (Version given) (Version dflt) |}
  /\ config (new None) = dflt
  /\ new (Some (config (new (Some given)))) = new (Some given).
Proof.
  intros dflt new.
  assert (Hf : forall g,
    config (new (Some g))
    = {| ProjectName := orElse (ProjectName g) (ProjectName dflt);
         ContainerName := orElse (ContainerName g) (ContainerName dflt);
         ComposeYAML := orElse (ComposeYAML g) (ComposeYAML dflt);
         DockerRegistry := orElse (DockerRegistry g) (DockerRegistry dflt);
         Version := orElse (Version g) (Version dflt) |}).
  { intros g. unfold new, NewDaemonManager, orElse.
    destruct (String.eqb (ProjectName g) "");
      destruct (String.eqb (ContainerName g) "");
      destruct (String.eqb (ComposeYAML g) "");
      destruct (String.eqb (DockerRegistry g) "");
      destruct (String.eqb (Version g) ""); reflexivity. }
  split; [apply Hf |]. split; [reflexivity |].
  assert (Hidem : forall a b, orElse (orElse a b) b = orElse a b).
  { intros a b. unfold orElse.
    destruct (String.eqb_spec a "") as [->|Ha].
    - now destruct (String.eqb b "").
    - destruct (String.eqb_spec a ""); [congruence | reflexivity]. }
  assert (Heta : forall m : DefaultDaemonManager, m = {| config := config m |})
    by now intros [].
  rewrite (Heta (new (Some (config (new (Some given)))))).
  rewrite (Heta (new (Some given))) at 2.
  f_equal. rewrite (Hf (config (new (Some given)))), (Hf given).
  cbn [ProjectName ContainerName ComposeYAML DockerRegistry Version].
  now rewrite !Hidem.
Qed.

Lemma arctlDirOf_last (homeDir : string) :
  homeDir <> "" -> exists p, arctlDirOf homeDir = p +:+ ".arctl".
Proof.
  intros Hne. unfold arctlDirOf. cbn [Join].
  destruct (String.eqb_spec homeDir "") as [E|_]; [congruence |].
  destruct (Clean_last_elem homeDir ".arctl" Hne eq_refl) as (p & Hp & _).
  exists p. exact Hp.
Qed.

(** The directory of the patched copy is not the patched copy. *)
Lemma arctlDir_not_patched (homeDir : string) :
  homeDir <> "" -> arctlDirOf homeDir <> kubeconfigPatchedPathOf homeDir.
Proof.
  intros Hne E.
  destruct (arctlDirOf_last homeDir Hne) as (p1 & E1).
  destruct (kubeconfigPatchedPathOf_last homeDir) as (p2 & E2).
  rewrite E1, E2 in E.
  apply (f_equal list_ascii_of_string) in E.
  rewrite !list_ascii_app in E.
  change (list_ascii_of_string ".arctl")
    with (list_ascii_of_string ".arct" ++ list_ascii_of_string "l")%list in E.
  change (list_ascii_of_string "kubeconfig")
    with (list_ascii_of_string "kubeconfi" ++ list_ascii_of_string "g")%list
    in E.
  rewrite !app_assoc in E.
  apply app_inj_2 in E as [_ E]; [discriminate E | reflexivity].
Qed.

Lemma union_twice (a : string) (X : gset string) :
  {[a]} ∪ ({[a]} ∪ X) = {[a]} ∪ X.
Proof. apply set_eq. intros x. rewrite !elem_of_union. tauto. Qed.

(** The paths of [getComposeYAML] under their names. *)
Ltac fold_paths h :=
  change (GoPath.Join [h; ".kube"; "config"]) with (kubeconfigPathOf h);
  change (GoPath.Join [GoPath.Join [h; ".arctl"]; "kubeconfig"])
    with (kubeconfigPatchedPathOf h);
  change (GoPath.Join [h; ".arctl"]) with (arctlDirOf h).

(** The first steps of a call on a machine whose system and home directory
    are known. *)
Ltac rerun Eos Eh h :=
  unfold getComposeYAML; cbv zeta; cbn [snd]; rewrite Eos, Eh; fold_paths h.

Section Twice.
Variable yamlUnmarshal : string -> result (gmap string any).
Variable yamlMarshal : gmap string any -> result string.

(** X6 ([getComposeYAML]).  What a call leaves of the machine: the system,
    the environment and the refused paths as they were; no directory added but [~/.arctl]; no file
    changed but the patched copy. *)
Theorem getComposeYAML_frame (d : DefaultDaemonManager) (w : World) :
  let w' := snd (getComposeYAML yamlUnmarshal yamlMarshal d w) in
  GOOS w' = GOOS w /\ environ w' = environ w /\ denied w' = denied w
  /\ (dirs w' = dirs w
      \/ exists homeDir, UserHomeDir w = Ok homeDir
                         /\ dirs w' = {[arctlDirOf homeDir]} ∪ dirs w)
  /\ (files w' = files w
      \/ exists homeDir patchedBytes,
           UserHomeDir w = Ok homeDir
           /\ files w'
              = <[kubeconfigPatchedPathOf homeDir := patchedBytes]> (files w)).
Proof.
  split; [| split; [| split; [| split]]];
    try apply (getComposeYAML_files yamlUnmarshal yamlMarshal d w);
    unfold getComposeYAML;
    (destruct (negb (String.eqb (GOOS w) "darwin")); [auto; fail |]);
    (destruct (UserHomeDir w) as [homeDir|] eqn:Eh; [| auto; fail]);
    (destruct (ReadFile w _) as [content|]; [| auto; fail]);
    (destruct (negb (Contains content "localhost") && _); [auto; fail |]);
    (destruct (yamlUnmarshal content) as [kubeconfig|]; [| auto; fail]);
    (destruct (yamlMarshal _) as [patchedBytes|]; [| auto; fail]);
    unfold MkdirAll, WriteFile;
    (destruct (decide (_ ∈ denied w)); [auto; fail |]);
    (destruct (files w !! _); [auto; fail |]);
    cbn [denied dirs files GOOS environ];
    (destruct (decide (_ ∈ denied w)); [simpl; eauto; fail |]);
    (destruct (decide (_ ∈ _ ∪ dirs w)); simpl; eauto).
Qed.

(** X7 ([getComposeYAML]).  A second call finds the machine as the first
    call left it and returns what the first call returned: the callers [Start] and [IsRunning] get
    the same compose YAML. *)
Theorem getComposeYAML_twice (d : DefaultDaemonManager) (w : World) :
  getComposeYAML yamlUnmarshal yamlMarshal d
    (snd (getComposeYAML yamlUnmarshal yamlMarshal d w))
  = getComposeYAML yamlUnmarshal yamlMarshal d w.
Proof.
  unfold getComposeYAML at 2 3. cbv zeta.
  destruct (negb (String.eqb (GOOS w) "darwin")) eqn:Eos;
    [unfold getComposeYAML; cbn [snd]; now rewrite Eos |].
  destruct (UserHomeDir w) as [homeDir|] eqn:Eh;
    [| unfold getComposeYAML; cbn [snd]; now rewrite Eos, Eh].
  fold_paths homeDir.
  pose proof (UserHomeDir_nonempty w homeDir Eh) as Hne.
  destruct (ReadFile w (kubeconfigPathOf homeDir)) as [content|] eqn:Er;
    [| rerun Eos Eh homeDir; now rewrite Er].
  destruct (negb (Contains content "localhost")
            && negb (Contains content "127.0.0.1")) eqn:Ec;
    [rerun Eos Eh homeDir; now rewrite Er, Ec |].
  destruct (yamlUnmarshal content) as [kubeconfig|] eqn:Eu;
    [| rerun Eos Eh homeDir; now rewrite Er, Ec, Eu].
  destruct (yamlMarshal (patchKubeconfig kubeconfig)) as [patchedBytes|] eqn:Em;
    [| rerun Eos Eh homeDir; now rewrite Er, Ec, Eu, Em].
  destruct (MkdirAll w (arctlDirOf homeDir)) as [w1|] eqn:Ed;
    [| rerun Eos Eh homeDir; now rewrite Er, Ec, Eu, Em, Ed].
  unfold MkdirAll in Ed.
  destruct (decide (arctlDirOf homeDir ∈ denied w)) as [|Hnd]; [discriminate |].
  destruct (files w !! arctlDirOf homeDir) eqn:Efa; [discriminate |].
  injection Ed as <-.
  assert (Hread : forall w', GOOS w' = GOOS w -> environ w' = environ w ->
            denied w' = denied w ->
            files w' !! kubeconfigPathOf homeDir
            = files w !! kubeconfigPathOf homeDir ->
            negb (String.eqb (GOOS w') "darwin") = false
            /\ UserHomeDir w' = Ok homeDir
            /\ ReadFile w' (kubeconfigPathOf homeDir) = Ok content).
  { intros w' Hg He Hden Hf. split; [now rewrite Hg |].
    split; [unfold UserHomeDir in *; now rewrite He |].
    unfold ReadFile in *. rewrite Hden, Hf. exact Er. }
  set (w1 := {| GOOS := GOOS w; environ := environ w; files := files w;
                dirs := {[arctlDirOf homeDir]} ∪ dirs w;
                denied := denied w |}).
  assert (Hmk1 : MkdirAll w1 (arctlDirOf homeDir) = Ok w1).
  { unfold MkdirAll, w1. cbn [denied files dirs GOOS environ].
    destruct (decide (arctlDirOf homeDir ∈ denied w)); [contradiction |].
    rewrite Efa. do 2 f_equal. apply union_twice. }
  destruct (WriteFile w1 (kubeconfigPatchedPathOf homeDir) patchedBytes)
    as [w2|] eqn:Ew.
  - unfold WriteFile in Ew. cbn [denied dirs files GOOS environ w1] in Ew.
    destruct (decide (kubeconfigPatchedPathOf homeDir ∈ denied w)) as [|Hpd];
      [discriminate |].
    destruct (decide (kubeconfigPatchedPathOf homeDir
                      ∈ {[arctlDirOf homeDir]} ∪ dirs w)) as [|Hpdir];
      [discriminate |].
    injection Ew as <-. cbn [snd].
    set (w2 := {| GOOS := GOOS w; environ := environ w;
                  files := <[kubeconfigPatchedPathOf homeDir := patchedBytes]>
                             (files w);
                  dirs := {[arctlDirOf homeDir]} ∪ dirs w;
                  denied := denied w |}).
    destruct (Hread w2 eq_refl eq_refl eq_refl) as (H1 & H2 & H3).
    { cbn [files w2]. apply lookup_insert_ne, kubeconfig_paths_differ, Hne. }
    rerun H1 H2 homeDir. rewrite H3, Ec, Eu, Em.
    assert (Hmk2 : MkdirAll w2 (arctlDirOf homeDir) = Ok w2).
    { unfold MkdirAll, w2. cbn [denied files dirs GOOS environ].
      destruct (decide (arctlDirOf homeDir ∈ denied w)); [contradiction |].
      rewrite lookup_insert_ne
        by (intros E; symmetry in E; exact (arctlDir_not_patched homeDir Hne E)).
      rewrite Efa. do 2 f_equal. apply union_twice. }
    rewrite Hmk2.
    unfold WriteFile, w2. cbn [denied files dirs GOOS environ].
    destruct (decide (kubeconfigPatchedPathOf homeDir ∈ denied w));
      [contradiction |].
    destruct (decide (kubeconfigPatchedPathOf homeDir
                      ∈ {[arctlDirOf homeDir]} ∪ dirs w)); [contradiction |].
    now rewrite insert_insert_eq.
  - cbn [snd].
    destruct (Hread w1 eq_refl eq_refl eq_refl eq_refl) as (H1 & H2 & H3).
    rerun H1 H2 homeDir.
    now rewrite H3, Ec, Eu, Em, Hmk1, Ew.
Qed.

End Twice.

(** X8 (the patch of [getComposeYAML]).  The patch leaves what is not a
    local cluster: every other top-level key, the number and order of the clusters, every entry that is not a
    local cluster, and in a local cluster the keys beside [cluster] and, in
    its data, beside [server], [insecure-skip-tls-verify],
    [certificate-authority-data] and [certificate-authority]. *)
Theorem patchKubeconfig_frame (kubeconfig : gmap string any) :
  (forall key : string,
     key <> "clusters" -> patchKubeconfig kubeconfig !! key = kubeconfig !! key)
  /\ (forall clusters : list any,
        kubeconfig !! "clusters" = Some (VSlice clusters) ->
        exists clusters',
          patchKubeconfig kubeconfig !! "clusters" = Some (VSlice clusters')
          /\ length clusters' = length clusters
          /\ forall (i : nat) (c : any),
               clusters !! i = Some c ->
               (isLocalCluster c = false -> clusters' !! i = Some c)
               /\ (forall cluster clusterData,
                     c = VMap cluster ->
                     cluster !! "cluster" = Some (VMap clusterData) ->
                     exists cluster' clusterData',
                       clusters' !! i = Some (VMap cluster')
                       /\ cluster' !! "cluster" = Some (VMap clusterData')
                       /\ (forall key, key <> "cluster" ->
                             cluster' !! key = cluster !! key)
                       /\ (forall key,
                             key <> "server" ->
                             key <> "insecure-skip-tls-verify" ->
                             key <> "certificate-authority-data" ->
                             key <> "certificate-authority" ->
                             clusterData' !! key = clusterData !! key)))
  /\ (forall other : any,
        kubeconfig !! "clusters" = Some other ->
        (forall clusters, other <> VSlice clusters) ->
        patchKubeconfig kubeconfig = kubeconfig).
Proof.
  split; [| split].
  - intros key Hk. unfold patchKubeconfig.
    destruct (kubeconfig !! "clusters") as [[| | |clusters| |]|]; try reflexivity.
    now apply lookup_insert_ne.
  - intros clusters Hc. exists (patchCluster <$> clusters).
    unfold patchKubeconfig. rewrite Hc.
    split; [apply lookup_insert_eq |]. split; [apply length_fmap |].
    intros i c Hi. rewrite list_lookup_fmap, Hi. simpl. split.
    + intros Hl. f_equal. unfold patchCluster, isLocalCluster in *.
      destruct c as [| | | |cluster|]; try reflexivity.
      destruct (cluster !! "cluster") as [[| | | |clusterData|]|] eqn:Ecl;
        try reflexivity.
      unfold patchClusterData.
      destruct (clusterData !! "server") as [[| |server| | |]|] eqn:Es;
        simpl;
        try (f_equal; apply insert_id; exact Ecl).
      unfold isLocalURL in Hl. rewrite Hl.
      f_equal. apply insert_id. exact Ecl.
    + intros cluster clusterData -> Hcl. unfold patchCluster. rewrite Hcl.
      eexists. eexists. split; [reflexivity |].
      split; [apply lookup_insert_eq |]. split.
      * intros key Hk. now apply lookup_insert_ne.
      * intros key K1 K2 K3 K4. unfold patchClusterData.
        destruct (Contains _ "localhost" || Contains _ "127.0.0.1");
          [| reflexivity].
        now rewrite !lookup_delete_ne, !lookup_insert_ne by congruence.
  - intros other Ho Hns. unfold patchKubeconfig. rewrite Ho.
    destruct other; try reflexivity. exfalso. now apply (Hns l).
Qed.

End DaemonManagerExtras.

(** ** The helpers of the command line *)

Module CliFacts.
Import GoStrings GoPath GoPathFacts Cli CliSpec.

Lemma splitSlash_noSlash (s : string) :
  noByte "/" s = true -> splitSlash s = [s].
Proof.
  unfold noByte. induction s as [|c s IH]; simpl; [reflexivity |].
  intros [Hc Hs]%andb_true_iff. apply negb_true_iff in Hc. rewrite Hc.
  now rewrite (IH Hs).
Qed.

Lemma splitSlash_length (s : string) :
  length (splitSlash s) = S (countByte "/" s).
Proof.
  unfold countByte. induction s as [|c s IH]; simpl; [reflexivity |].
  destruct (Ascii.eqb c "/"); simpl; [now rewrite IH |].
  pose proof (splitSlash_nonempty s) as Hne.
  destruct (splitSlash s); [congruence | exact IH].
Qed.

Lemma splitSlash_elems (s : string) :
  Forall (fun e => noByte "/" e = true) (splitSlash s).
Proof.
  induction s as [|c s IH]; simpl; [repeat constructor |].
  destruct (Ascii.eqb c "/") eqn:Ec; [constructor; [reflexivity | exact IH] |].
  destruct (splitSlash s) as [|e rest]; [repeat constructor; unfold noByte;
    simpl; now rewrite Ec |].
  inversion IH as [|? ? He Hrest]; subst. constructor; [| exact Hrest].
  unfold noByte in *. simpl. now rewrite Ec, He.
Qed.

Lemma joinRaw_cons (e e' : string) (rest : list string) :
  joinRaw (e :: e' :: rest) = e +:+ "/" +:+ joinRaw (e' :: rest).
Proof. reflexivity. Qed.

(** [strings.Join(strings.Split(s, "/"), "/")] is [s]. *)
Lemma joinRaw_splitSlash (s : string) : joinRaw (splitSlash s) = s.
Proof.
  induction s as [|c s IH]; [reflexivity |]. simpl splitSlash.
  pose proof (splitSlash_nonempty s) as Hn.
  destruct (splitSlash s) as [|e rest] eqn:Es; [congruence |].
  destruct (Ascii.eqb_spec c "/") as [-> | Hne].
  - rewrite joinRaw_cons, IH. reflexivity.
  - destruct rest as [|e' rest'].
    + simpl in *. now rewrite IH.
    + rewrite joinRaw_cons in *. rewrite <- IH. reflexivity.
Qed.

Lemma findFirstEqualsFrom_cutEq (s : string) (i : Z) :
  findFirstEqualsFrom i s
  = match cutEq s with
    | None => (-1)%Z
    | Some (k, _) => (i + Z.of_nat (String.length k))%Z
    end.
Proof.
  revert i. induction s as [|c s IH]; intros i; simpl; [reflexivity |].
  destruct (Ascii.eqb c "="); simpl; [lia |].
  rewrite IH. destruct (cutEq s) as [[k v]|]; simpl; [lia | reflexivity].
Qed.

Lemma substring_all (s : string) : String.substring 0 (String.length s) s = s.
Proof. induction s as [|c s IH]; simpl; [reflexivity | now rewrite IH]. Qed.

Lemma substring_app_l (a b : string) :
  String.substring 0 (String.length a) (a +:+ b) = a.
Proof.
  induction a as [|c a IH]; simpl; [now destruct b | now rewrite IH].
Qed.

Lemma substring_app_r (a b : string) (n : nat) :
  String.substring (String.length a) n (a +:+ b) = String.substring 0 n b.
Proof. induction a as [|c a IH]; simpl; [reflexivity | exact IH]. Qed.

Lemma length_append (a b : string) :
  String.length (a +:+ b) = String.length a + String.length b.
Proof. induction a as [|c a IH]; simpl; [reflexivity | now rewrite IH]. Qed.

(** What the cut finds is the string again, with a key that has no ['=']. *)
Lemma cutEq_Some (s k v : string) :
  cutEq s = Some (k, v) -> s = flag (k, v) /\ noByte "=" k = true.
Proof.
  revert k v. induction s as [|c s IH]; intros k v; simpl; [discriminate |].
  destruct (Ascii.eqb_spec c "=") as [-> | Hne].
  - intros [= <- <-]. now split.
  - destruct (cutEq s) as [[k' v']|]; [| discriminate].
    intros [= <- <-]. destruct (IH k' v' eq_refl) as [-> Hk].
    split; [reflexivity |]. unfold noByte in *. simpl.
    rewrite Hk. destruct (Ascii.eqb_spec c "="); [congruence | reflexivity].
Qed.

Lemma cutEq_None (s : string) : cutEq s = None <-> noByte "=" s = true.
Proof.
  unfold noByte. induction s as [|c s IH]; simpl; [easy |].
  destruct (Ascii.eqb c "="); simpl; [easy |].
  rewrite <- IH. destruct (cutEq s) as [[k v]|]; easy.
Qed.

Lemma cutEq_flag (k v : string) :
  noByte "=" k = true -> cutEq (flag (k, v)) = Some (k, v).
Proof.
  unfold noByte, flag. simpl fst. simpl snd.
  change (k +:+ "=" +:+ v) with (k +:+ String "=" v).
  induction k as [|c k IH]; simpl; [reflexivity |].
  intros [Hc Hk]%andb_true_iff. apply negb_true_iff in Hc.
  rewrite Hc. now rewrite (IH Hk).
Qed.

(** The two slices of [parseKeyValuePairs] and [strings.SplitN] are the two
    sides of the cut. *)
Lemma slices_cutEq (s k v : string) :
  cutEq s = Some (k, v) ->
  findFirstEquals s = Z.of_nat (String.length k)
  /\ slice s 0 (Z.to_nat (findFirstEquals s)) = k
  /\ slice s (Z.to_nat (findFirstEquals s + 1)) (String.length s) = v.
Proof.
  intros Hc. unfold findFirstEquals. rewrite findFirstEqualsFrom_cutEq, Hc.
  destruct (cutEq_Some s k v Hc) as [-> _]. unfold flag, slice. simpl fst.
  simpl snd. rewrite Z.add_0_l, Nat2Z.id. split; [reflexivity |].
  rewrite Nat.sub_0_r, substring_app_l. split; [reflexivity |].
  replace (Z.to_nat (Z.of_nat (String.length k) + 1))
    with (String.length (k +:+ "=")) by (rewrite length_append; simpl; lia).
  rewrite <- append_assoc, substring_app_r, !length_append.
  replace (String.length k + String.length "=" + String.length v
           - (String.length k + String.length "="))
    with (String.length v) by lia.
  apply substring_all.
Qed.

Lemma SplitN2_cutEq (s : string) :
  SplitN2 s = match cutEq s with
              | None => [s]
              | Some (k, v) => [k; v]
              end.
Proof.
  unfold SplitN2. destruct (cutEq s) as [[k v]|] eqn:Hc.
  - destruct (slices_cutEq s k v Hc) as (Hi & Hk & Hv).
    rewrite Hk, Hv, Hi.
    destruct (Z.eqb_spec (Z.of_nat (String.length k)) (-1)); [lia | reflexivity].
  - unfold findFirstEquals. now rewrite findFirstEqualsFrom_cutEq, Hc.
Qed.

Lemma parseKeyValuePairsInto_cons (kv : string) (rest : list string)
  (parsed : gmap string string) :
  parseKeyValuePairsInto (kv :: rest) parsed
  = match cutEq kv with
    | None => Err ("invalid key=value pair (missing =): " +:+ kv)
    | Some (k, v) => parseKeyValuePairsInto rest (<[k := v]> parsed)
    end.
Proof.
  cbn [parseKeyValuePairsInto]. cbv zeta.
  destruct (cutEq kv) as [[k v]|] eqn:Hc.
  - destruct (slices_cutEq kv k v Hc) as (Hi & Hk & Hv).
    rewrite Hk, Hv, Hi.
    destruct (Z.eqb_spec (Z.of_nat (String.length k)) (-1)); [lia | reflexivity].
  - unfold findFirstEquals. now rewrite findFirstEqualsFrom_cutEq, Hc.
Qed.

Lemma addFlags_cons (what prefix kv : string) (rest : list string)
  (config : gmap string string) :
  addFlags what prefix (kv :: rest) config
  = match cutEq kv with
    | None => Err ("invalid " +:+ what +:+ " format (expected KEY=VALUE): "
                   +:+ kv)
    | Some (k, v) => addFlags what prefix rest (<[prefix +:+ k := v]> config)
    end.
Proof.
  cbn [addFlags]. rewrite SplitN2_cutEq.
  now destruct (cutEq kv) as [[k v]|].
Qed.

Lemma lastWins_snoc (kvs : list (string * string)) (k v : string)
  (m : gmap string string) :
  lastWins ((k, v) :: kvs) ∪ m = lastWins kvs ∪ <[k := v]> m.
Proof.
  unfold lastWins. simpl. rewrite list_to_map_app. simpl.
  rewrite insert_empty, <- (assoc_L (∪)).
  now rewrite <- insert_union_singleton_l.
Qed.

End CliFacts.


Module CliExtras.
Import GoStrings GoPath GoPathFacts Daemon Cli CliSpec CliFacts.

Lemma parseKeyValuePairsInto_flags (kvs : list (string * string))
  (parsed : gmap string string) :
  Forall (fun kv => noByte "=" (fst kv) = true) kvs ->
  parseKeyValuePairsInto (flag <$> kvs) parsed = Ok (lastWins kvs ∪ parsed).
Proof.
  intros H. revert parsed.
  induction H as [|[k v] kvs Hk _ IH]; intros parsed.
  - unfold lastWins. simpl. now rewrite (left_id_L ∅ (∪)).
  - rewrite fmap_cons, parseKeyValuePairsInto_cons, (cutEq_flag k v Hk), IH.
    now rewrite lastWins_snoc.
Qed.

Lemma parseKeyValuePairsInto_isErr (pairs : list string)
  (parsed : gmap string string) :
  isErr (parseKeyValuePairsInto pairs parsed) = true
  <-> Exists (fun p => noByte "=" p = true) pairs.
Proof.
  revert parsed. induction pairs as [|p pairs IH]; intros parsed.
  - simpl. split; [discriminate | intros H; inversion H].
  - rewrite parseKeyValuePairsInto_cons, Exists_cons, <- cutEq_None.
    destruct (cutEq p) as [[k v]|].
    + rewrite IH. split; [now right | now intros [? | ?]].
    + split; [now left | reflexivity].
Qed.

Lemma parseKeyValuePairsInto_first (pre post : list string) (bad : string)
  (parsed : gmap string string) :
  Forall (fun p => noByte "=" p = false) pre ->
  noByte "=" bad = true ->
  parseKeyValuePairsInto (pre ++ bad :: post) parsed
  = Err ("invalid key=value pair (missing =): " +:+ bad).
Proof.
  intros Hpre Hbad. revert parsed.
  induction Hpre as [|p pre Hp _ IH]; intros parsed.
  - change ([] ++ bad :: post)%list with (bad :: post).
    rewrite parseKeyValuePairsInto_cons.
    apply cutEq_None in Hbad. now rewrite Hbad.
  - change ((p :: pre) ++ bad :: post)%list with (p :: (pre ++ bad :: post))%list.
    rewrite parseKeyValuePairsInto_cons.
    destruct (cutEq p) as [[k v]|] eqn:Hc; [apply IH |].
    apply cutEq_None in Hc. congruence.
Qed.

Lemma parseKeyValuePairsInto_Ok (pairs : list string)
  (parsed m : gmap string string) :
  parseKeyValuePairsInto pairs parsed = Ok m ->
  (forall k v, m !! k = Some v ->
     parsed !! k = Some v \/ (noByte "=" k = true /\ flag (k, v) ∈ pairs))
  /\ (forall p, p ∈ pairs ->
        exists k v, p = flag (k, v) /\ noByte "=" k = true /\ is_Some (m !! k))
  /\ (forall k, is_Some (parsed !! k) -> is_Some (m !! k)).
Proof.
  revert parsed. induction pairs as [|p pairs IH]; intros parsed.
  - simpl. intros [= <-]. repeat split.
    + intros k v H. now left.
    + intros p H. inversion H.
    + trivial.
  - rewrite parseKeyValuePairsInto_cons.
    destruct (cutEq p) as [[k0 v0]|] eqn:Hc; [| discriminate].
    destruct (cutEq_Some p k0 v0 Hc) as [Hp Hk0].
    intros Hm. destruct (IH _ Hm) as (H1 & H2 & H3). repeat split.
    + intros k v Hkv. destruct (H1 k v Hkv) as [Hin | [Hk Hin]].
      * destruct (decide (k0 = k)) as [<- | Hne].
        -- rewrite lookup_insert_eq in Hin. injection Hin as <-.
           right. split; [exact Hk0 |]. rewrite <- Hp. apply list_elem_of_here.
        -- rewrite lookup_insert_ne in Hin by exact Hne. now left.
      * right. split; [exact Hk |]. now apply list_elem_of_further.
    + intros q [-> | Hq]%elem_of_cons.
      * exists k0, v0. repeat split; [exact Hp | exact Hk0 |].
        apply H3. rewrite lookup_insert_eq. now eexists.
      * apply H2, Hq.
    + intros k Hk. apply H3.
      destruct (decide (k0 = k)) as [<- | Hne].
      * rewrite lookup_insert_eq. now eexists.
      * now rewrite lookup_insert_ne.
Qed.

Lemma addFlags_flags (what prefix : string) (kvs : list (string * string))
  (config : gmap string string) :
  Forall (fun kv => noByte "=" (fst kv) = true) kvs ->
  addFlags what prefix (flag <$> kvs) config
  = Ok (lastWins (prefixed prefix <$> kvs) ∪ config).
Proof.
  intros H. revert config.
  induction H as [|[k v] kvs Hk _ IH]; intros config.
  - unfold lastWins. simpl. now rewrite (left_id_L ∅ (∪)).
  - rewrite !fmap_cons, addFlags_cons, (cutEq_flag k v Hk), IH.
    change (prefixed prefix (k, v)) with (prefix +:+ k, v).
    now rewrite lastWins_snoc.
Qed.

Lemma addFlags_isErr (what prefix : string) (flags : list string)
  (config : gmap string string) :
  isErr (addFlags what prefix flags config) = true
  <-> Exists (fun f => noByte "=" f = true) flags.
Proof.
  revert config. induction flags as [|f flags IH]; intros config.
  - simpl. split; [discriminate | intros H; inversion H].
  - rewrite addFlags_cons, Exists_cons, <- cutEq_None.
    destruct (cutEq f) as [[k v]|].
    + rewrite IH. split; [now right | now intros [? | ?]].
    + split; [now left | reflexivity].
Qed.

Lemma hexDigit_nat (n : nat) :
  n < 16 ->
  nat_of_ascii (hexDigit n) = if (n <? 10)%nat then 48 + n else 87 + n.
Proof.
  intros Hn. unfold hexDigit.
  destruct (n <? 10)%nat; apply nat_ascii_embedding; lia.
Qed.

Lemma hexDigit_inj (n m : nat) :
  n < 16 -> m < 16 -> hexDigit n = hexDigit m -> n = m.
Proof.
  intros Hn Hm E. apply (f_equal nat_of_ascii) in E.
  rewrite !hexDigit_nat in E by assumption.
  destruct (Nat.ltb_spec n 10), (Nat.ltb_spec m 10); lia.
Qed.

Lemma hexDigit_hexDigits (n : nat) : n < 16 -> hexDigit n ∈ hexDigits.
Proof.
  intros Hn. apply list_elem_of_In.
  do 16 (destruct n as [|n]; [vm_compute; tauto |]). lia.
Qed.

Lemma byte_halves (b : ascii) :
  nat_of_ascii b / 16 < 16 /\ nat_of_ascii b mod 16 < 16.
Proof.
  pose proof (nat_ascii_bounded b) as Hb. split.
  - apply Nat.Div0.div_lt_upper_bound. lia.
  - apply Nat.mod_upper_bound. lia.
Qed.

Lemma EncodeToString_length (src : list ascii) :
  String.length (EncodeToString src) = 2 * length src.
Proof.
  induction src as [|b src IH]; [reflexivity |].
  cbn [EncodeToString String.length length]. rewrite IH. lia.
Qed.

Lemma EncodeToString_hexDigits (src : list ascii) :
  Forall (fun c => c ∈ hexDigits) (list_ascii_of_string (EncodeToString src)).
Proof.
  induction src as [|b src IH]; [constructor |].
  destruct (byte_halves b) as [Hh Hl].
  cbn [EncodeToString list_ascii_of_string].
  apply Forall_cons; split; [now apply hexDigit_hexDigits |].
  apply Forall_cons; split; [now apply hexDigit_hexDigits | exact IH].
Qed.

Lemma EncodeToString_inj (src1 src2 : list ascii) :
  EncodeToString src1 = EncodeToString src2 -> src1 = src2.
Proof.
  revert src2. induction src1 as [|a src1 IH]; intros [|b src2];
    cbn [EncodeToString]; try discriminate; [reflexivity |].
  intros [= Hh Hl E]. f_equal; [| now apply IH].
  destruct (byte_halves a) as [Ha1 Ha2], (byte_halves b) as [Hb1 Hb2].
  apply hexDigit_inj in Hh, Hl; try assumption.
  rewrite <- (ascii_nat_embedding a), <- (ascii_nat_embedding b).
  f_equal.
  pose proof (Nat.div_mod_eq (nat_of_ascii a) 16) as Ea.
  pose proof (Nat.div_mod_eq (nat_of_ascii b) 16) as Eb.
  assert (Hh' : nat_of_ascii a / 16 = nat_of_ascii b / 16) by exact Hh.
  assert (Hl' : nat_of_ascii a mod 16 = nat_of_ascii b mod 16) by exact Hl.
  rewrite Hh', Hl', <- Eb in Ea. exact Ea.
Qed.

Lemma noByte_app (c : ascii) (a b : string) :
  noByte c (a +:+ b) = noByte c a && noByte c b.
Proof. unfold noByte. now rewrite list_ascii_app, forallb_app. Qed.

Lemma EncodeToString_noByte (c : ascii) (src : list ascii) :
  c ∉ hexDigits -> noByte c (EncodeToString src) = true.
Proof.
  intros Hc. unfold noByte. apply forallb_forall. intros x Hx.
  apply negb_true_iff, Ascii.eqb_neq. intros ->. apply Hc.
  pose proof (EncodeToString_hexDigits src) as H.
  rewrite Forall_forall in H. apply H. now apply list_elem_of_In.
Qed.

Lemma not_hexDigit (c : ascii) :
  forallb (fun x => negb (Ascii.eqb x c)) hexDigits = true -> c ∉ hexDigits.
Proof.
  intros H Hin. apply list_elem_of_In in Hin.
  rewrite forallb_forall in H. specialize (H c Hin).
  now rewrite Ascii.eqb_refl in H.
Qed.

(** A name of hexadecimal digits after a prefix without separator is an
    element [filepath.Clean] keeps. *)
Lemma plainElem_hex (prefix : string) (src : list ascii) :
  noByte "/" prefix = true -> src <> [] ->
  plainElem (prefix +:+ EncodeToString src) = true.
Proof.
  intros Hp Hs. unfold plainElem.
  assert (Hno : noByte "/" (prefix +:+ EncodeToString src) = true).
  { rewrite noByte_app, Hp. apply EncodeToString_noByte.
    now apply not_hexDigit. }
  rewrite (splitSlash_noSlash _ Hno), String.eqb_refl, andb_true_r.
  assert (Hdot : noByte "." (EncodeToString src) = true)
    by now apply EncodeToString_noByte, not_hexDigit.
  destruct src as [|b src]; [congruence |].
  cbn [EncodeToString] in *.
  set (h := hexDigit (nat_of_ascii b / 16)) in *.
  set (l := hexDigit (nat_of_ascii b mod 16)) in *.
  set (r := EncodeToString src) in *.
  unfold noByte in Hdot. simpl in Hdot.
  apply andb_true_iff in Hdot as [Hh _]. apply negb_true_iff in Hh.
  destruct prefix as [|c1 [|c2 [|c3 p]]]; simpl; rewrite ?Hh;
    repeat match goal with
           | |- context [Ascii.eqb ?a ?b] => destruct (Ascii.eqb a b)
           end; simpl; try reflexivity;
    now destruct r.
Qed.

(** X9 ([splitServerName]).  A name with exactly one ['/'] is split at it:
    the name is the namespace, the separator and the name part, and neither
    part has a separator.  Any other name, without separator or with two or
    more, is returned whole with an empty namespace.  A namespace and a name
    part without separator, joined by one, are found again. *)
Theorem splitServerName_parts (fullName : string) :
  (countByte "/" fullName = 1 ->
     fullName = fst (splitServerName fullName) +:+ "/"
                +:+ snd (splitServerName fullName)
     /\ noByte "/" (fst (splitServerName fullName)) = true
     /\ noByte "/" (snd (splitServerName fullName)) = true)
  /\ (countByte "/" fullName <> 1 -> splitServerName fullName = ("", fullName))
  /\ (forall namespace name,
        noByte "/" namespace = true -> noByte "/" name = true ->
        splitServerName (namespace +:+ "/" +:+ name) = (namespace, name)).
Proof.
  pose proof (splitSlash_length fullName) as Hlen.
  pose proof (splitSlash_elems fullName) as Hel.
  pose proof (joinRaw_splitSlash fullName) as Hjoin.
  unfold splitServerName. repeat split.
  - destruct (splitSlash fullName) as [|a [|b [|c r]]]; simpl in Hlen;
      intros; try lia.
    now rewrite <- Hjoin.
  - destruct (splitSlash fullName) as [|a [|b [|c r]]]; simpl in Hlen;
      intros; try lia.
    now inversion Hel.
  - destruct (splitSlash fullName) as [|a [|b [|c r]]]; simpl in Hlen;
      intros; try lia.
    inversion Hel as [|? ? _ Hel']. now inversion Hel'.
  - intros Hc.
    destruct (splitSlash fullName) as [|a [|b [|c r]]]; simpl in Hlen;
      try reflexivity.
    lia.
  - intros namespace name Hns Hname.
    change (namespace +:+ "/" +:+ name) with (namespace +:+ String "/" name).
    now rewrite splitSlash_app_slash, !splitSlash_noSlash.
Qed.

(** X10 ([parseKeyValuePairs], [findFirstEquals]).  Parsing the flags
    [KEY=VALUE] written from a list of keys without ['='] and values, which
    may have one, gives the map of that list in which the last entry of a
    key is the one kept. *)
Theorem parseKeyValuePairs_flags (kvs : list (string * string)) :
  Forall (fun kv => noByte "=" (fst kv) = true) kvs ->
  parseKeyValuePairs (flag <$> kvs) = Ok (lastWins kvs).
Proof.
  intros H. unfold parseKeyValuePairs.
  rewrite (parseKeyValuePairsInto_flags kvs ∅ H).
  now rewrite (right_id_L ∅ (∪)).
Qed.

Lemma parseKeyValuePairs_flags_witness :
  parseKeyValuePairs ["A=1"; "B=x=y"; "A=2"; "=v"]
  = Ok (lastWins [("A", "1"); ("B", "x=y"); ("A", "2"); ("", "v")])
  /\ lastWins [("A", "1"); ("B", "x=y"); ("A", "2"); ("", "v")] !! "A"
     = Some "2".
Proof.
  split; [| reflexivity].
  apply (parseKeyValuePairs_flags
           [("A", "1"); ("B", "x=y"); ("A", "2"); ("", "v")]).
  repeat constructor.
Defined.

(** X11 ([parseKeyValuePairs]).  The parse fails exactly when some pair has
    no ['='], and the error names the first such pair.  When it succeeds,
    every entry of the map is a pair of the input cut at its first ['='],
    so no key has an ['='], and every pair of the input has its key in the
    map. *)
Theorem parseKeyValuePairs_result (pairs : list string) :
  (isErr (parseKeyValuePairs pairs) = true
   <-> Exists (fun p => noByte "=" p = true) pairs)
  /\ (forall pre bad post,
        pairs = (pre ++ bad :: post)%list ->
        Forall (fun p => noByte "=" p = false) pre ->
        noByte "=" bad = true ->
        parseKeyValuePairs pairs
        = Err ("invalid key=value pair (missing =): " +:+ bad))
  /\ (forall m,
        parseKeyValuePairs pairs = Ok m ->
        (forall k v, m !! k = Some v ->
           noByte "=" k = true /\ flag (k, v) ∈ pairs)
        /\ (forall p, p ∈ pairs ->
              exists k v, p = flag (k, v) /\ noByte "=" k = true
                          /\ is_Some (m !! k))).
Proof.
  unfold parseKeyValuePairs. split; [apply parseKeyValuePairsInto_isErr |].
  split.
  - intros pre bad post -> Hpre Hbad.
    now apply parseKeyValuePairsInto_first.
  - intros m Hm.
    destruct (parseKeyValuePairsInto_Ok pairs ∅ m Hm) as (H1 & H2 & _).
    split; [| exact H2].
    intros k v Hkv. destruct (H1 k v Hkv) as [Hin | H]; [| exact H].
    now rewrite lookup_empty in Hin.
Qed.

(** X12 ([runDeploy] of package mcp).  From flags written from keys without
    ['='], the config passed on is the env entries, overlaid by the args
    under [ARG_], overlaid by the headers under [HEADER_], in each of them
    the last entry of a key kept; for the kubernetes runtime with a
    namespace given, [KAGENT_NAMESPACE] is that namespace whatever the flags
    say. *)
Theorem deployConfig_layers (env args headers : list (string * string))
  (deployRuntime deployNamespace : string) :
  Forall (fun kv => noByte "=" (fst kv) = true) env ->
  Forall (fun kv => noByte "=" (fst kv) = true) args ->
  Forall (fun kv => noByte "=" (fst kv) = true) headers ->
  deployConfig (flag <$> env) (flag <$> args) (flag <$> headers)
    deployRuntime deployNamespace
  = Ok (let config := lastWins (prefixed "HEADER_" <$> headers)
                      ∪ (lastWins (prefixed "ARG_" <$> args) ∪ lastWins env) in
        if String.eqb deployRuntime "kubernetes"
           && negb (String.eqb deployNamespace "")
        then <["KAGENT_NAMESPACE" := deployNamespace]> config
        else config).
Proof.
  intros He Ha Hh. unfold deployConfig.
  rewrite (addFlags_flags "env" "" env ∅ He).
  rewrite (addFlags_flags "arg" "ARG_" args _ Ha).
  rewrite (addFlags_flags "header" "HEADER_" headers _ Hh).
  rewrite (right_id_L ∅ (∪)).
  replace (prefixed "" <$> env) with env; [now destruct (_ && _) |].
  clear. induction env as [|[k v] env IH]; [reflexivity |].
  rewrite fmap_cons, <- IH. reflexivity.
Qed.

Lemma deployConfig_layers_witness :
  deployConfig ["ARG_path=/tmp"; "KAGENT_NAMESPACE=dev"] ["path=/data"]
    ["X-Tok=a=b"] "kubernetes" "prod"
  = Ok (<["KAGENT_NAMESPACE" := "prod"]>
          (lastWins [("HEADER_X-Tok", "a=b")]
           ∪ (lastWins [("ARG_path", "/data")]
              ∪ lastWins [("ARG_path", "/tmp");
                          ("KAGENT_NAMESPACE", "dev")]))).
Proof.
  apply (deployConfig_layers
           [("ARG_path", "/tmp"); ("KAGENT_NAMESPACE", "dev")]
           [("path", "/data")] [("X-Tok", "a=b")] "kubernetes" "prod");
    repeat constructor.
Defined.

(** X13 ([runDeploy] of package mcp).  Building the config fails exactly
    when one of the env, arg or header flags has no ['=']; the runtime and the
    namespace play no part in it.  A flag with an empty key, or an empty
    value, is accepted. *)
Theorem deployConfig_invalid (deployEnv deployArgs deployHeaders : list string)
  (deployRuntime deployNamespace : string) :
  (isErr (deployConfig deployEnv deployArgs deployHeaders deployRuntime
            deployNamespace) = true
   <-> Exists (fun f => noByte "=" f = true)
         (deployEnv ++ deployArgs ++ deployHeaders))
  /\ (forall k v, isErr (deployConfig (flag (k, v) :: deployEnv) deployArgs
                           deployHeaders deployRuntime deployNamespace)
                  = isErr (deployConfig deployEnv deployArgs deployHeaders
                             deployRuntime deployNamespace)).
Proof.
  assert (Hiff : forall env,
    isErr (deployConfig env deployArgs deployHeaders deployRuntime
             deployNamespace) = true
    <-> Exists (fun f => noByte "=" f = true)
          (env ++ deployArgs ++ deployHeaders)).
  { intros env. rewrite !Exists_app. unfold deployConfig.
    pose proof (addFlags_isErr "env" "" env ∅) as He.
    destruct (addFlags "env" "" env ∅) as [c1|e1].
    - pose proof (addFlags_isErr "arg" "ARG_" deployArgs c1) as Ha.
      destruct (addFlags "arg" "ARG_" deployArgs c1) as [c2|e2].
      + pose proof (addFlags_isErr "header" "HEADER_" deployHeaders c2) as Hh.
        destruct (addFlags "header" "HEADER_" deployHeaders c2) as [c3|e3].
        * assert (Hok : isErr (if String.eqb deployRuntime "kubernetes"
                                  && negb (String.eqb deployNamespace "")
                               then Ok (<["KAGENT_NAMESPACE" := deployNamespace]> c3)
                               else Ok c3) = false)
            by now destruct (_ && _).
          rewrite Hok. simpl in He, Ha, Hh. split; [discriminate |].
          intros [H | [H | H]]; [apply He, H | apply Ha, H | apply Hh, H].
        * simpl in *. split; [intros _; right; right; now apply Hh | reflexivity].
      + simpl in *. split; [intros _; right; left; now apply Ha | reflexivity].
    - simpl in *. split; [intros _; left; now apply He | reflexivity]. }
  split; [apply Hiff |].
  intros k v. apply eq_true_iff_eq.
  rewrite (Hiff (flag (k, v) :: deployEnv)), (Hiff deployEnv).
  change ((flag (k, v) :: deployEnv) ++ deployArgs ++ deployHeaders)%list
    with (flag (k, v) :: (deployEnv ++ deployArgs ++ deployHeaders))%list.
  rewrite Exists_cons.
  assert (Hf : noByte "=" (flag (k, v)) = false).
  { unfold flag. simpl fst. simpl snd. rewrite noByte_app.
    change ("=" +:+ v) with (String "=" v).
    unfold noByte at 2. simpl. apply andb_false_r. }
  rewrite Hf. split; [intros [? | ?]; [discriminate | assumption] | now right].
Qed.

Section Find.
Variable unicodeToLower : string -> string.

Lemma firstExact_None (servers : list ServerResponse) (searchName : string) :
  firstExact servers searchName = None
  <-> Forall (fun x => Name x <> searchName) servers.
Proof.
  induction servers as [|s servers IH]; simpl.
  - split; [constructor | reflexivity].
  - rewrite Forall_cons. destruct (String.eqb_spec (Name s) searchName).
    + split; [discriminate | now intros [? _]].
    + rewrite IH. tauto.
Qed.

Lemma firstExact_first (pre post : list ServerResponse) (s : ServerResponse)
  (searchName : string) :
  Forall (fun x => Name x <> searchName) pre -> Name s = searchName ->
  firstExact (pre ++ s :: post) searchName = Some s.
Proof.
  intros Hpre Hs. induction Hpre as [|x pre Hx _ IH]; simpl.
  - apply String.eqb_eq in Hs. now rewrite Hs.
  - apply String.eqb_neq in Hx. now rewrite Hx.
Qed.

(** X14 ([findServersByName]).  When a server has exactly the name searched
    for, the first such server is the only one returned, whatever other
    servers share its name part.  When none has, the servers returned are
    those whose name part is the search name in lower case.  Every server
    returned is one of the servers given. *)
Theorem findServersByName_exact_first (servers : list ServerResponse)
  (searchName : string) :
  (forall pre s post,
     servers = (pre ++ s :: post)%list ->
     Forall (fun x => Name x <> searchName) pre -> Name s = searchName ->
     findServersByName unicodeToLower servers searchName = [s])
  /\ (Forall (fun x => Name x <> searchName) servers ->
      forall s, s ∈ findServersByName unicodeToLower servers searchName
                <-> s ∈ servers
                    /\ namePart unicodeToLower s
                       = ToLower unicodeToLower searchName)
  /\ (forall s, s ∈ findServersByName unicodeToLower servers searchName ->
                s ∈ servers).
Proof.
  unfold findServersByName. repeat split.
  - intros pre s post -> Hpre Hs. now rewrite firstExact_first.
  - apply firstExact_None in H. rewrite H in H0.
    apply list_elem_of_In, filter_In in H0 as [H0 _].
    now apply list_elem_of_In.
  - apply firstExact_None in H. rewrite H in H0.
    apply list_elem_of_In, filter_In in H0 as [_ H0].
    now apply String.eqb_eq.
  - intros [Hin Hn]. apply firstExact_None in H. rewrite H.
    apply list_elem_of_In, filter_In. split; [now apply list_elem_of_In |].
    now apply String.eqb_eq.
  - intros s. destruct (firstExact servers searchName) as [x|] eqn:Hx.
    + intros ->%list_elem_of_singleton. clear -Hx.
      induction servers as [|y servers IH]; simpl in Hx; [discriminate |].
      destruct (String.eqb (Name y) searchName).
      * injection Hx as ->. apply list_elem_of_here.
      * apply list_elem_of_further, IH, Hx.
    + intros Hin. apply list_elem_of_In, filter_In in Hin as [Hin _].
      now apply list_elem_of_In.
Qed.

End Find.

(** The last element of a directory under [~/.arctl/runtime]. *)
Lemma runtimeDir_last (homeDir name : string) :
  homeDir <> "" -> plainElem name = true ->
  exists p, Join [Join [homeDir; ".arctl"; "runtime"]; name] = p +:+ name
            /\ (p = "" \/ exists q, p = q +:+ "/").
Proof.
  intros Hh Hn.
  remember (Join [homeDir; ".arctl"; "runtime"]) as base eqn:Eb.
  assert (Hbase : base <> "").
  { subst base. cbn [Join].
    destruct (String.eqb_spec homeDir "") as [E|_]; [congruence |].
    apply Clean_nonempty. }
  cbn [Join]. destruct (String.eqb_spec base "") as [E|_]; [congruence |].
  change (joinRaw [base; name]) with (base +:+ String "/" name).
  now apply Clean_last_elem.
Qed.

(** X15 ([generateRandomName], [generateRuntimePaths]).  When the random
    bytes are read and the home directory is known, the project name is the
    prefix followed by two hexadecimal digits, [0-9a-f], for each byte;
    different bytes give different project names; and with a prefix that has
    no separator the last element of the runtime directory is the project
    name. *)
Theorem generateRuntimePaths_names (randomBytes : list ascii) (w : World)
  (prefix projectName runtimeDir : string) :
  generateRuntimePaths (Ok randomBytes) w prefix
  = Ok (projectName, runtimeDir) ->
  projectName = prefix +:+ EncodeToString randomBytes
  /\ String.length projectName
     = String.length prefix + 2 * length randomBytes
  /\ Forall (fun c => c ∈ hexDigits)
       (list_ascii_of_string (EncodeToString randomBytes))
  /\ (forall randomBytes' projectName' runtimeDir',
        generateRuntimePaths (Ok randomBytes') w prefix
        = Ok (projectName', runtimeDir') ->
        projectName' = projectName -> randomBytes' = randomBytes)
  /\ (noByte "/" prefix = true -> randomBytes <> [] ->
      exists p, runtimeDir = p +:+ projectName
                /\ (p = "" \/ exists q, p = q +:+ "/")).
Proof.
  unfold generateRuntimePaths, generateRandomName.
  destruct (UserHomeDir w) as [homeDir|e] eqn:Eh; [| discriminate].
  cbv zeta. intros [= <- <-].
  split; [reflexivity |].
  split; [now rewrite length_append, EncodeToString_length |].
  split; [apply EncodeToString_hexDigits |].
  split.
  - intros r' pn' rd' [= <- _] E.
    apply EncodeToString_inj. revert E. clear.
    induction prefix as [|c prefix IH]; simpl; [trivial |].
    intros [= E]. now apply IH.
  - intros Hp Hr. apply (runtimeDir_last homeDir).
    + unfold UserHomeDir in Eh.
      destruct (String.eqb_spec (GoOs.Getenv (environ w) "HOME") "");
        [discriminate | congruence].
    + now apply plainElem_hex.
Qed.

Lemma generateRuntimePaths_names_witness :
  generateRuntimePaths (Ok ["A"; "Z"]%char)
    {| GOOS := "linux"; environ := {["HOME" := "/home/u"]}; files := ∅;
       dirs := ∅; denied := ∅ |} "arctl-run-"
  = Ok ("arctl-run-415a", "/home/u/.arctl/runtime/arctl-run-415a")
  /\ "arctl-run-415a" = "arctl-run-" +:+ EncodeToString ["A"; "Z"]%char.
Proof.
  split; [reflexivity |].
  apply (generateRuntimePaths_names ["A"; "Z"]%char
           {| GOOS := "linux"; environ := {["HOME" := "/home/u"]};
              files := ∅; dirs := ∅; denied := ∅ |}
           "arctl-run-" "arctl-run-415a"
           "/home/u/.arctl/runtime/arctl-run-415a").
  reflexivity.
Defined.

End CliExtras.


(** ** More of the deployments table *)

Module DeploymentsExtras.
Import Deployments DeploymentsFacts DeploymentsSpec.

Lemma admit_tuple_rowTyped (t t' : Tuple) :
  admit_tuple t = Ok t' -> rowTyped t'.
Proof.
  intros [Hn Hc]%admit_tuple_checked.
  unfold notNullOk in Hn. unfold checksOk in Hc.
  repeat (apply andb_true_iff in Hn as [Hn ?]).
  repeat (apply andb_true_iff in Hc as [Hc ?]).
  unfold check_deployment_resource_type_valid, rowTyped in *.
  destruct (resource_type t') as [r|]; [| discriminate].
  destruct (deployed_at t') as [d|]; [| discriminate].
  destruct (updated_at t') as [u|]; [| discriminate].
  repeat split; eauto. exists r. split; [reflexivity |].
  now apply inList_In.
Qed.

Lemma updateRows_rowTyped (now : Z) (where_ : Tuple -> bool)
  (set : Tuple -> Tuple) (tbl tbl' : list Tuple) :
  Forall rowTyped tbl -> updateRows now where_ set tbl = Ok tbl' ->
  Forall rowTyped tbl'.
Proof.
  revert tbl'. induction tbl as [|old tbl IH]; intros tbl' Hok; simpl.
  - intros [= <-]. constructor.
  - inversion Hok as [|? ? Hold Hrest]; subst.
    destruct (where_ old).
    + destruct (admit_tuple _) as [t|] eqn:Ea; [| discriminate].
      destruct (updateRows now where_ set tbl) as [rest'|]; [| discriminate].
      intros [= <-]. constructor; [now apply admit_tuple_rowTyped in Ea |].
      now apply IH.
    + destruct (updateRows now where_ set tbl) as [rest'|]; [| discriminate].
      intros [= <-]. constructor; [assumption | now apply IH].
Qed.

Lemma exec_rowTyped (now : Z) (st : statement) (tbl tbl' : list Tuple) :
  Forall rowTyped tbl -> exec now st tbl = Ok tbl' -> Forall rowTyped tbl'.
Proof.
  intros Hok. destruct st as [v|where_ set|where_]; simpl.
  - unfold insert. destruct (admit_tuple _) as [t|] eqn:Ea; [| discriminate].
    destruct (existsb (sameKey t) tbl); [discriminate |].
    intros [= <-]. apply Forall_app. split; [assumption |].
    constructor; [now apply admit_tuple_rowTyped in Ea | constructor].
  - unfold update.
    destruct (updateRows now where_ set tbl) as [t'|] eqn:Eu; [| discriminate].
    destruct (deployments_pkey t'); [| discriminate].
    intros [= <-]. now apply updateRows_rowTyped in Eu.
  - intros [= <-]. unfold delete.
    apply List.Forall_forall. intros t [Ht _]%filter_In.
    rewrite List.Forall_forall in Hok. now apply Hok.
Qed.

Lemma run_rowTyped (script : list (Z * statement)) (tbl : list Tuple) :
  Forall rowTyped tbl -> Forall rowTyped (run script tbl).
Proof.
  revert tbl. induction script as [|[now st] script IH]; intros tbl Hok;
    simpl; [assumption |].
  destruct (exec now st tbl) as [tbl'|] eqn:Ee; [| now apply IH].
  apply IH. exact (exec_rowTyped now st tbl tbl' Hok Ee).
Qed.

Lemma varchar_None (n : nat) (v : option string) :
  varchar n v = Ok None -> v = None.
Proof.
  destruct v as [s|]; [| reflexivity]. simpl.
  destruct (String.length s <=? n)%nat; [discriminate |].
  destruct (String.eqb _ ""); discriminate.
Qed.

(** The key of a stored tuple is made from the key given alone. *)
Lemma admit_tuple_server_name (t t' : Tuple) :
  admit_tuple t = Ok t' -> varchar 255 (server_name t) = Ok (server_name t').
Proof.
  unfold admit_tuple, coerce.
  destruct (varchar 255 (server_name t)) as [n|]; [| discriminate].
  destruct (varchar 255 (version t)); [| discriminate].
  destruct (varchar 50 (status t)); [| discriminate].
  destruct (varchar 50 (resource_type t)); [| discriminate].
  destruct (negb (notNullOk _)); [discriminate |].
  destruct (negb (checksOk _)); [discriminate |].
  now intros [= <-].
Qed.

Lemma delete_byName_others (name : string) (t : Tuple) (tbl : list Tuple) :
  server_name t = Some name -> existsb (sameKey t) tbl = false ->
  delete (byName name) tbl = tbl.
Proof.
  intros Hn. unfold delete.
  induction tbl as [|x tbl IH]; simpl; [reflexivity |].
  intros [Hx Hrest]%orb_false_iff.
  unfold sameKey in Hx. rewrite Hn in Hx. unfold byName at 1.
  destruct (server_name x) as [nx|].
  - rewrite String.eqb_sym, Hx. simpl. now rewrite IH.
  - simpl. now rewrite IH.
Qed.

(** X16 (the migration that adds [resource_type]).  After any history of
    INSERT, UPDATE and DELETE statements on the empty table every row has a
    [resource_type] that is mcp or agent, and a [deployed_at] and an
    [updated_at] that are not NULL.  An INSERT that does not name the column
    stores mcp; one that gives it as NULL is refused. *)
Theorem deployments_resource_type (script : list (Z * statement)) :
  Forall rowTyped (run script [])
  /\ (forall (now : Z) (v : InsertValues) (tbl' : list Tuple),
        i_resource_type v = UseDefault ->
        insert now v (run script []) = Ok tbl' ->
        exists t, tbl' = (run script [] ++ [t])%list
                  /\ resource_type t = Some "mcp")
  /\ (forall (now : Z) (v : InsertValues),
        i_resource_type v = Value None ->
        isErr (insert now v (run script [])) = true).
Proof.
  split; [apply run_rowTyped; constructor |]. split.
  - intros now v tbl' Hv. unfold insert.
    destruct (admit_tuple (withDefaults now v)) as [t|] eqn:Ea;
      [| discriminate].
    destruct (existsb (sameKey t) (run script [])); [discriminate |].
    intros [= <-]. exists t. split; [reflexivity |].
    revert Ea. unfold admit_tuple, coerce, withDefaults. rewrite Hv.
    cbn [resource_type server_name version status orDefault].
    destruct (varchar 255 _); [| discriminate].
    destruct (varchar 255 _); [| discriminate].
    destruct (varchar 50 _); [| discriminate].
    change (varchar 50 (Some "mcp")) with (Ok (A := option string) (Some "mcp")).
    cbv iota.
    destruct (negb (notNullOk _)); [discriminate |].
    destruct (negb (checksOk _)); [discriminate |].
    now intros [= <-].
  - intros now v Hv. unfold insert.
    destruct (admit_tuple (withDefaults now v)) as [t|] eqn:Ea;
      [| reflexivity].
    exfalso. pose proof (admit_tuple_rowTyped _ _ Ea) as ((r & Hr & _) & _).
    revert Ea. unfold admit_tuple, coerce, withDefaults. rewrite Hv.
    cbn [resource_type server_name version status orDefault].
    destruct (varchar 255 _); [| discriminate].
    destruct (varchar 255 _); [| discriminate].
    destruct (varchar 50 _); [| discriminate].
    change (varchar 50 None) with (Ok (A := option string) None). cbv iota.
    destruct (negb (notNullOk _)); [discriminate |].
    destruct (negb (checksOk _)); [discriminate |].
    intros [= <-]. simpl in Hr. discriminate.
Qed.

(** X17 (the primary key).  An INSERT that succeeds adds one row at the end
    and leaves the others; the row has a [server_name]; the same INSERT at
    any later time on the table it left is refused; and deleting the rows of
    that [server_name] gives the table as it was before. *)
Theorem insert_delete (now : Z) (v : InsertValues) (tbl tbl' : list Tuple) :
  insert now v tbl = Ok tbl' ->
  exists t name,
    tbl' = (tbl ++ [t])%list
    /\ server_name t = Some name
    /\ (forall later, isErr (insert later v tbl') = true)
    /\ exec now (Delete (byName name)) tbl' = Ok tbl.
Proof.
  unfold insert.
  destruct (admit_tuple (withDefaults now v)) as [t|] eqn:Ea; [| discriminate].
  destruct (existsb (sameKey t) tbl) eqn:Ee; [discriminate |].
  intros [= <-].
  pose proof (admit_tuple_rowOk _ _ Ea) as (_ & (name & Hname & _) & _).
  exists t, name. split; [reflexivity |]. split; [exact Hname |]. split.
  - intros later.
    destruct (admit_tuple (withDefaults later v)) as [t2|] eqn:Ea2;
      [| reflexivity].
    apply admit_tuple_server_name in Ea, Ea2.
    change (server_name (withDefaults later v))
      with (server_name (withDefaults now v)) in Ea2.
    rewrite Ea in Ea2. injection Ea2 as E2.
    rewrite existsb_app. simpl. unfold sameKey at 2.
    rewrite <- E2, Hname, String.eqb_refl. simpl.
    now rewrite orb_true_r.
  - cbn [exec]. f_equal.
    rewrite <- (delete_byName_others name t tbl Hname Ee) at 2.
    unfold delete. rewrite List.filter_app. cbn [List.filter].
    unfold byName at 2. rewrite Hname, String.eqb_refl. cbn [negb].
    apply app_nil_r.
Qed.

Lemma insert_delete_witness :
  insert 10 weather []
  = Ok [{| server_name := Some "io.example/weather";
           version := Some "1.0.0";
           deployed_at := Some 10%Z; updated_at := Some 10%Z;
           status := Some "active"; config := Some "{}";
           prefer_remote := Some false; resource_type := Some "mcp" |}]
  /\ exists t name,
       [{| server_name := Some "io.example/weather";
           version := Some "1.0.0";
           deployed_at := Some 10%Z; updated_at := Some 10%Z;
           status := Some "active"; config := Some "{}";
           prefer_remote := Some false; resource_type := Some "mcp" |}]
       = ([] ++ [t])%list
       /\ server_name t = Some name
       /\ (forall later,
             isErr (insert later weather
                      [{| server_name := Some "io.example/weather";
                          version := Some "1.0.0";
                          deployed_at := Some 10%Z; updated_at := Some 10%Z;
                          status := Some "active"; config := Some "{}";
                          prefer_remote := Some false;
                          resource_type := Some "mcp" |}]) = true)
       /\ exec 10 (Delete (byName name))
            [{| server_name := Some "io.example/weather";
                version := Some "1.0.0";
                deployed_at := Some 10%Z; updated_at := Some 10%Z;
                status := Some "active"; config := Some "{}";
                prefer_remote := Some false; resource_type := Some "mcp" |}]
          = Ok [].
Proof.
  split; [reflexivity |].
  apply (insert_delete 10 weather []). reflexivity.
Defined.

End DeploymentsExtras.


(** ** Ranging over a string *)

Module GoUtf8Facts.
Import GoStrings GoUtf8 GoPathFacts CliSpec CliFacts ConfigFileSpec.

Local Abbreviation cat := (List.fold_right String.append EmptyString).

Lemma runes_eq (b0 : ascii) (s1 : string) :
  runes (String b0 s1)
  = match size b0 with
    | 1 => String b0 EmptyString :: runes s1
    | 2 =>
        match s1 with
        | String b1 s2 =>
            if secondOk b0 b1
            then String b0 (String b1 EmptyString) :: runes s2
            else RuneError :: runes s1
        | _ => RuneError :: runes s1
        end
    | 3 =>
        match s1 with
        | String b1 (String b2 s3) =>
            if secondOk b0 b1 && cont b2
            then String b0 (String b1 (String b2 EmptyString)) :: runes s3
            else RuneError :: runes s1
        | _ => RuneError :: runes s1
        end
    | 4 =>
        match s1 with
        | String b1 (String b2 (String b3 s4)) =>
            if secondOk b0 b1 && cont b2 && cont b3
            then String b0 (String b1 (String b2 (String b3 EmptyString)))
                 :: runes s4
            else RuneError :: runes s1
        | _ => RuneError :: runes s1
        end
    | _ => RuneError :: runes s1
    end.
Proof. reflexivity. Qed.

(** A rune at the head of a string is the first rune of the loop, whatever
    follows it. *)
Lemma runes_rune (r s : string) :
  isRune r = true -> runes (r +:+ s) = r :: runes s.
Proof.
  destruct r as [|b0 [|b1 [|b2 [|b3 [|b4 r]]]]]; cbn [isRune];
    try discriminate.
  - intros H%Nat.eqb_eq.
    change (String b0 "" +:+ s) with (String b0 s).
    now rewrite runes_eq, H.
  - intros [H H1]%andb_true_iff. apply Nat.eqb_eq in H.
    change (String b0 (String b1 "") +:+ s) with (String b0 (String b1 s)).
    now rewrite runes_eq, H, H1.
  - intros [[H H1]%andb_true_iff H2]%andb_true_iff. apply Nat.eqb_eq in H.
    change (String b0 (String b1 (String b2 "")) +:+ s)
      with (String b0 (String b1 (String b2 s))).
    now rewrite runes_eq, H, H1, H2.
  - intros [[[H H1]%andb_true_iff H2]%andb_true_iff H3]%andb_true_iff.
    apply Nat.eqb_eq in H.
    change (String b0 (String b1 (String b2 (String b3 ""))) +:+ s)
      with (String b0 (String b1 (String b2 (String b3 s)))).
    now rewrite runes_eq, H, H1, H2, H3.
Qed.

(** One step of the loop: a rune, and the loop on what is left. *)
Lemma runes_cons (b0 : ascii) (s1 : string) :
  exists r s', runes (String b0 s1) = r :: runes s'
               /\ isRune r = true
               /\ String.length s' <= String.length s1.
Proof.
  rewrite runes_eq.
  assert (Hbad : exists r s', RuneError :: runes s1 = r :: runes s'
                              /\ isRune r = true
                              /\ String.length s' <= String.length s1).
  { exists RuneError, s1. repeat split. lia. }
  destruct (size b0) as [|[|[|[|[|n]]]]] eqn:Es; try exact Hbad.
  - exists (String b0 ""), s1. split; [reflexivity |].
    split; [cbn [isRune]; now rewrite Es | lia].
  - destruct s1 as [|b1 s2]; [exact Hbad |].
    destruct (secondOk b0 b1) eqn:E1; [| exact Hbad].
    exists (String b0 (String b1 "")), s2. split; [reflexivity |].
    split; [cbn [isRune]; now rewrite Es, E1 | simpl; lia].
  - destruct s1 as [|b1 [|b2 s3]]; try exact Hbad.
    destruct (secondOk b0 b1 && cont b2) eqn:E1; [| exact Hbad].
    exists (String b0 (String b1 (String b2 ""))), s3.
    split; [reflexivity |]. apply andb_true_iff in E1 as [E1 E2].
    split; [cbn [isRune]; now rewrite Es, E1, E2 | simpl; lia].
  - destruct s1 as [|b1 [|b2 [|b3 s4]]]; try exact Hbad.
    destruct (secondOk b0 b1 && cont b2 && cont b3) eqn:E1; [| exact Hbad].
    exists (String b0 (String b1 (String b2 (String b3 "")))), s4.
    split; [reflexivity |]. apply andb_true_iff in E1 as [E1 E3].
    apply andb_true_iff in E1 as [E1 E2].
    split; [cbn [isRune]; now rewrite Es, E1, E2, E3 | simpl; lia].
Qed.

Lemma runes_isRune (s : string) : Forall (fun r => isRune r = true) (runes s).
Proof.
  assert (H : forall n s, String.length s <= n ->
                Forall (fun r => isRune r = true) (runes s)).
  { induction n as [|n IH]; intros [|b0 s1] Hl; try constructor.
    - simpl in Hl. lia.
    - destruct (runes_cons b0 s1) as (r & s' & E & Hr & Hs).
      rewrite E. constructor; [exact Hr |]. apply IH. simpl in Hl. lia. }
  exact (H (String.length s) s (le_n _)).
Qed.

Lemma append_nil_r (s : string) : s +:+ "" = s.
Proof. induction s as [|c s IH]; simpl; [reflexivity | now rewrite IH]. Qed.

Lemma cat_app (l1 l2 : list string) : cat (l1 ++ l2) = cat l1 +:+ cat l2.
Proof.
  induction l1 as [|x l1 IH]; [reflexivity |].
  change (cat ((x :: l1) ++ l2)) with (x +:+ cat (l1 ++ l2)).
  change (cat (x :: l1)) with (x +:+ cat l1).
  now rewrite IH, append_assoc.
Qed.

Lemma runes_cat (rs : list string) (s : string) :
  Forall (fun r => isRune r = true) rs ->
  runes (cat rs +:+ s) = (rs ++ runes s)%list.
Proof.
  induction 1 as [|r rs Hr _ IH]; [reflexivity |].
  change (cat (r :: rs)) with (r +:+ cat rs).
  now rewrite append_assoc, (runes_rune _ _ Hr), IH.
Qed.

Lemma runes_cat_all (rs : list string) :
  Forall (fun r => isRune r = true) rs -> runes (cat rs) = rs.
Proof.
  intros H. rewrite <- (append_nil_r (cat rs)), (runes_cat rs "" H).
  apply app_nil_r.
Qed.

(** What the loop writes is valid, and is read as it was written. *)
Lemma runes_ToValidUTF8 (s : string) : runes (ToValidUTF8 s) = runes s.
Proof. apply runes_cat_all, runes_isRune. Qed.

Lemma runes_valid_app (a s : string) :
  ToValidUTF8 a = a -> runes (a +:+ s) = (runes a ++ runes s)%list.
Proof.
  intros Ha. rewrite <- Ha at 1. apply runes_cat, runes_isRune.
Qed.

Lemma valid_app (a b : string) :
  ToValidUTF8 a = a -> ToValidUTF8 b = b -> ToValidUTF8 (a +:+ b) = a +:+ b.
Proof.
  intros Ha Hb. unfold ToValidUTF8 in *.
  rewrite (runes_valid_app a b Ha), cat_app. now rewrite Ha, Hb.
Qed.

Lemma isASCII_valid (s : string) : isASCII s = true -> ToValidUTF8 s = s.
Proof.
  unfold isASCII, ToValidUTF8.
  induction s as [|b0 s1 IH]; [reflexivity |].
  cbn [list_ascii_of_string forallb]. intros [Hb Hs]%andb_true_iff.
  rewrite runes_eq. unfold size. unfold isASCIIbyte in Hb. rewrite Hb.
  change (cat (String b0 "" :: runes s1)) with (String b0 (cat (runes s1))).
  now rewrite (IH Hs).
Qed.

Lemma noByte_append (c : ascii) (a b : string) :
  noByte c (a +:+ b) = noByte c a && noByte c b.
Proof. unfold noByte. now rewrite list_ascii_app, forallb_app. Qed.

Lemma noByte_cat (c : ascii) (rs : list string) :
  noByte c (cat rs) = forallb (noByte c) rs.
Proof.
  induction rs as [|r rs IH]; [reflexivity |].
  change (cat (r :: rs)) with (r +:+ cat rs).
  now rewrite noByte_append, IH.
Qed.

Lemma size_newline (b : ascii) : size b <> 1 -> Ascii.eqb b "010" = false.
Proof.
  intros H. apply Ascii.eqb_neq. intros ->. now apply H.
Qed.

Lemma secondOk_newline (b0 b1 : ascii) :
  secondOk b0 b1 = true -> Ascii.eqb b1 "010" = false.
Proof.
  intros H. apply Ascii.eqb_neq. intros ->. revert H. unfold secondOk.
  change (nat_of_ascii "010") with 10.
  destruct (nat_of_ascii b0 =? 224)%nat;
    [| destruct (nat_of_ascii b0 =? 240)%nat]; discriminate.
Qed.

Lemma cont_newline (b : ascii) : cont b = true -> Ascii.eqb b "010" = false.
Proof.
  intros H. apply Ascii.eqb_neq. intros ->. discriminate H.
Qed.

(** A rune other than the line break has no byte of a line break. *)
Lemma rune_noNL (r : string) :
  isRune r = true -> r <> newline -> noByte "010" r = true.
Proof.
  unfold noByte.
  destruct r as [|b0 [|b1 [|b2 [|b3 [|b4 r]]]]]; cbn [isRune];
    try discriminate; cbn [list_ascii_of_string forallb].
  - intros _ Hne. destruct (Ascii.eqb_spec b0 "010") as [-> | _];
      [now exfalso; apply Hne | reflexivity].
  - intros [H H1]%andb_true_iff _. apply Nat.eqb_eq in H.
    rewrite (size_newline b0), (secondOk_newline b0 b1 H1);
      [reflexivity | congruence].
  - intros [[H H1]%andb_true_iff H2]%andb_true_iff _. apply Nat.eqb_eq in H.
    rewrite (size_newline b0), (secondOk_newline b0 b1 H1),
      (cont_newline b2 H2); [reflexivity | congruence].
  - intros [[[H H1]%andb_true_iff H2]%andb_true_iff H3]%andb_true_iff _.
    apply Nat.eqb_eq in H.
    rewrite (size_newline b0), (secondOk_newline b0 b1 H1),
      (cont_newline b2 H2), (cont_newline b3 H3); [reflexivity | congruence].
Qed.

(** The runes of a valid string without line break: none is the line
    break. *)
Lemma cleanLine_runes (s : string) :
  cleanLine s -> Forall (fun r => r <> newline) (runes s).
Proof.
  intros [Hv Hn]. unfold ToValidUTF8 in Hv. rewrite <- Hv, noByte_cat in Hn.
  rewrite forallb_forall in Hn. apply List.Forall_forall. intros r Hr ->.
  now specialize (Hn _ Hr).
Qed.

Lemma cat_cleanLine (rs : list string) :
  Forall (fun r => isRune r = true) rs ->
  Forall (fun r => r <> newline) rs -> cleanLine (cat rs).
Proof.
  intros Hr Hn. split.
  - unfold ToValidUTF8. now rewrite runes_cat_all.
  - rewrite noByte_cat. apply forallb_forall. intros r Hin.
    rewrite List.Forall_forall in Hr, Hn.
    apply rune_noNL; [now apply Hr | now apply Hn].
Qed.

Lemma cleanLine_app (a b : string) :
  cleanLine a -> cleanLine b -> cleanLine (a +:+ b).
Proof.
  intros [Ha Na] [Hb Nb]. split; [now apply valid_app |].
  now rewrite noByte_append, Na, Nb.
Qed.

End GoUtf8Facts.


(** ** The configuration file *)

Module ConfigFileFacts.
Import GoStrings GoUtf8 GoPath GoPathFacts Daemon Cli CliSpec CliFacts.
Import ConfigFile ConfigFileSpec GoUtf8Facts.

Local Abbreviation cat := (List.fold_right String.append EmptyString).

Lemma isRune_newline : isRune newline = true.
Proof. reflexivity. Qed.

Lemma splitLinesLoop_line (rs rest lines : list string) (current : string) :
  Forall (fun r => r <> newline) rs ->
  splitLinesLoop (rs ++ rest) lines current
  = splitLinesLoop rest lines (current +:+ cat rs).
Proof.
  intros H. revert current.
  induction H as [|r rs Hr _ IH]; intros current.
  - simpl. now rewrite append_nil_r.
  - change ((r :: rs) ++ rest)%list with (r :: (rs ++ rest))%list.
    cbn [splitLinesLoop]. fold newline.
    destruct (String.eqb_spec r newline) as [E|_]; [contradiction |].
    rewrite IH. change (cat (r :: rs)) with (r +:+ cat rs).
    now rewrite append_assoc.
Qed.

Lemma joinLinesFrom_joinNL (lines : list string) (i : nat) (joined : string) :
  joinLinesFrom i (i + length lines) lines joined = joined +:+ joinNL lines.
Proof.
  revert i joined. induction lines as [|l rest IH]; intros i joined.
  - simpl. now rewrite append_nil_r.
  - cbn [joinLinesFrom length]. cbv zeta.
    replace (i + S (length rest)) with (S i + length rest) by lia.
    rewrite IH. destruct rest as [|l2 rest].
    + replace (i <? S i + length [] - 1)%nat with false
        by (symmetry; apply Nat.ltb_ge; simpl; lia).
      simpl. now rewrite append_nil_r.
    + replace (i <? S i + length (l2 :: rest) - 1)%nat with true
        by (symmetry; apply Nat.ltb_lt; simpl; lia).
      change (joinNL (l :: l2 :: rest))
        with (l +:+ newline +:+ joinNL (l2 :: rest)).
      fold newline. now rewrite !append_assoc.
Qed.

Lemma joinLines_joinNL (lines : list string) : joinLines lines = joinNL lines.
Proof. unfold joinLines. exact (joinLinesFrom_joinNL lines 0 ""). Qed.

(** Reading the lines that were written gives them back, without the last
    one when it is empty. *)
Lemma splitLinesLoop_joinNL (L lines : list string) :
  Forall cleanLine L ->
  splitLinesLoop (runes (joinNL L)) lines "" = (lines ++ dropLastEmpty L)%list.
Proof.
  intros H. revert lines. induction H as [|l L Hl HL IH]; intros lines.
  - simpl. now rewrite app_nil_r.
  - pose proof (cleanLine_runes l Hl) as Hn. destruct Hl as [Hv _].
    destruct L as [|l2 L].
    + cbn [joinNL dropLastEmpty].
      rewrite <- (app_nil_r (runes l)), (splitLinesLoop_line _ [] _ _ Hn).
      fold (ToValidUTF8 l). rewrite Hv. cbn [splitLinesLoop String.append].
      destruct (String.eqb l ""); [now rewrite app_nil_r | reflexivity].
    + change (joinNL (l :: l2 :: L))
        with (l +:+ newline +:+ joinNL (l2 :: L)).
      rewrite (runes_valid_app l _ Hv), (runes_rune _ _ isRune_newline).
      rewrite (splitLinesLoop_line _ _ _ _ Hn).
      fold (ToValidUTF8 l). rewrite Hv.
      cbn [splitLinesLoop String.append]. fold newline.
      rewrite String.eqb_refl, IH.
      change (dropLastEmpty (l :: l2 :: L))
        with (l :: dropLastEmpty (l2 :: L)).
      now rewrite <- app_assoc.
Qed.

Lemma splitLines_joinLines (L : list string) :
  Forall cleanLine L -> splitLines (joinLines L) = dropLastEmpty L.
Proof.
  intros H. unfold splitLines. rewrite joinLines_joinNL.
  exact (splitLinesLoop_joinNL L [] H).
Qed.

(** The lines the loop returns are valid and have no line break. *)
Lemma splitLinesLoop_clean (rs crs lines : list string) :
  Forall (fun r => isRune r = true) rs ->
  Forall cleanLine lines ->
  Forall (fun r => isRune r = true) crs ->
  Forall (fun r => r <> newline) crs ->
  Forall cleanLine (splitLinesLoop rs lines (cat crs)).
Proof.
  intros Hrs. revert crs lines.
  induction Hrs as [|r rs Hr _ IH]; intros crs lines Hl Hc Hn.
  - cbn [splitLinesLoop]. destruct (String.eqb (cat crs) ""); [exact Hl |].
    apply Forall_app. split; [exact Hl |].
    constructor; [now apply cat_cleanLine | constructor].
  - cbn [splitLinesLoop]. fold newline.
    destruct (String.eqb_spec r newline) as [E|Hne].
    + apply (IH []); [| constructor | constructor].
      apply Forall_app. split; [exact Hl |].
      constructor; [now apply cat_cleanLine | constructor].
    + replace (cat crs +:+ r) with (cat (crs ++ [r])).
      * apply IH; [exact Hl | |]; apply Forall_app; split; try assumption;
          now repeat constructor.
      * rewrite cat_app. simpl. now rewrite append_nil_r.
Qed.

Lemma splitLines_clean (s : string) : Forall cleanLine (splitLines s).
Proof.
  unfold splitLines.
  apply (splitLinesLoop_clean (runes s) [] []); try constructor.
  apply runes_isRune.
Qed.

Lemma eachNL_snoc (lines : list string) (l : string) :
  eachNL (lines ++ [l]) = eachNL lines +:+ l +:+ newline.
Proof.
  induction lines as [|x lines IH]; simpl; [reflexivity |].
  now rewrite IH, !append_assoc.
Qed.

Lemma joinNL_snoc (lines : list string) (l : string) :
  joinNL (lines ++ [l]) = eachNL lines +:+ l.
Proof.
  induction lines as [|x lines IH]; [reflexivity |].
  change ((x :: lines) ++ [l])%list with (x :: (lines ++ [l]))%list.
  destruct lines as [|y lines].
  - cbn [app joinNL eachNL]. rewrite !append_assoc. reflexivity.
  - change (joinNL (x :: (y :: lines) ++ [l]))
      with (x +:+ newline +:+ joinNL ((y :: lines) ++ [l])).
    rewrite IH. cbn [eachNL]. now rewrite !append_assoc.
Qed.

Lemma eachNL_joinNL (lines : list string) :
  lines <> [] -> eachNL lines = joinNL lines +:+ newline.
Proof.
  induction lines as [|x lines IH]; [congruence |]. intros _.
  destruct lines as [|y lines]; [reflexivity |].
  change (eachNL (x :: y :: lines)) with (x +:+ newline +:+ eachNL (y :: lines)).
  change (joinNL (x :: y :: lines)) with (x +:+ newline +:+ joinNL (y :: lines)).
  rewrite IH by discriminate. now rewrite !append_assoc.
Qed.

(** What the loop has seen at its end, in terms of the lines it returns:
    they are what was written, or what was written without one final line
    break. *)
Lemma splitLinesLoop_content (rs lines : list string) (current : string) :
  let R := splitLinesLoop rs lines current in
  joinNL R = eachNL lines +:+ current +:+ cat rs
  \/ joinNL R +:+ newline = eachNL lines +:+ current +:+ cat rs.
Proof.
  cbv zeta. revert lines current.
  induction rs as [|r rs IH]; intros lines current.
  - cbn [splitLinesLoop]. simpl. rewrite append_nil_r.
    destruct (String.eqb_spec current "") as [-> | Hne].
    + rewrite append_nil_r. destruct lines as [|l lines]; [now left |].
      right. symmetry. now apply eachNL_joinNL.
    + left. apply joinNL_snoc.
  - cbn [splitLinesLoop]. fold newline.
    change (cat (r :: rs)) with (r +:+ cat rs).
    destruct (String.eqb_spec r newline) as [-> | Hne].
    + specialize (IH (lines ++ [current])%list "").
      rewrite eachNL_snoc in IH. cbn [String.append] in IH.
      now rewrite !append_assoc in IH.
    + specialize (IH lines (current +:+ r)).
      now rewrite !append_assoc in IH.
Qed.

Lemma splitKeyValue_cutEq (line : string) :
  splitKeyValue line = match cutEq line with
                       | None => [line]
                       | Some (k, v) => [k; v]
                       end.
Proof. exact (SplitN2_cutEq line). Qed.

Lemma lookupLine_cons (key line : string) (rest : list string) :
  lookupLine key (line :: rest)
  = match cutEq line with
    | Some (k, v) => if String.eqb k key then v else lookupLine key rest
    | None => lookupLine key rest
    end.
Proof.
  cbn [lookupLine]. rewrite splitKeyValue_cutEq.
  now destruct (cutEq line) as [[k v]|].
Qed.

Lemma updateLine_cons (key value line : string) (rest : list string) :
  updateLine key value (line :: rest)
  = match cutEq line with
    | Some (k, _) =>
        if String.eqb k key then Some ((key +:+ "=" +:+ value) :: rest)
        else option_map (cons line) (updateLine key value rest)
    | None => option_map (cons line) (updateLine key value rest)
    end.
Proof.
  cbn [updateLine]. cbv zeta. rewrite splitKeyValue_cutEq.
  now destruct (cutEq line) as [[k v]|].
Qed.

Lemma lookupLine_dropLastEmpty (key : string) (L : list string) :
  lookupLine key (dropLastEmpty L) = lookupLine key L.
Proof.
  induction L as [|l L IH]; [reflexivity |].
  destruct L as [|l2 L].
  - cbn [dropLastEmpty]. destruct (String.eqb_spec l "") as [-> | _];
      reflexivity.
  - change (dropLastEmpty (l :: l2 :: L)) with (l :: dropLastEmpty (l2 :: L)).
    rewrite (lookupLine_cons key l (dropLastEmpty (l2 :: L))),
      (lookupLine_cons key l (l2 :: L)), IH. reflexivity.
Qed.

(** The lines [setConfig] writes. *)
Lemma updated_lookup (key value : string) (L : list string) :
  noByte "=" key = true ->
  lookupLine key
    (match updateLine key value L with
     | Some L' => L'
     | None => (L ++ [key +:+ "=" +:+ value])%list
     end) = value.
Proof.
  intros Hk. pose proof (cutEq_flag key value Hk) as Hf. unfold flag in Hf.
  simpl fst in Hf. simpl snd in Hf.
  induction L as [|l L IH].
  - cbn [updateLine app]. now rewrite lookupLine_cons, Hf, String.eqb_refl.
  - rewrite updateLine_cons.
    destruct (cutEq l) as [[k v]|] eqn:Hc.
    + destruct (String.eqb k key) eqn:Ek.
      * now rewrite lookupLine_cons, Hf, String.eqb_refl.
      * destruct (updateLine key value L) as [L'|]; cbn [option_map];
          [| change ((l :: L) ++ [key +:+ "=" +:+ value])%list
               with (l :: (L ++ [key +:+ "=" +:+ value]))%list];
          now rewrite lookupLine_cons, Hc, Ek.
    + destruct (updateLine key value L) as [L'|]; cbn [option_map];
        [| change ((l :: L) ++ [key +:+ "=" +:+ value])%list
             with (l :: (L ++ [key +:+ "=" +:+ value]))%list];
        now rewrite lookupLine_cons, Hc.
Qed.

Lemma updated_other (key value key' : string) (L : list string) :
  noByte "=" key = true -> key' <> key ->
  lookupLine key'
    (match updateLine key value L with
     | Some L' => L'
     | None => (L ++ [key +:+ "=" +:+ value])%list
     end) = lookupLine key' L.
Proof.
  intros Hk Hne. pose proof (cutEq_flag key value Hk) as Hf. unfold flag in Hf.
  simpl fst in Hf. simpl snd in Hf.
  assert (Ekk : String.eqb key key' = false)
    by (apply String.eqb_neq; congruence).
  induction L as [|l L IH].
  - cbn [updateLine app]. now rewrite lookupLine_cons, Hf, Ekk.
  - rewrite updateLine_cons, (lookupLine_cons key' l L).
    destruct (cutEq l) as [[k v]|] eqn:Hc.
    + destruct (String.eqb_spec k key) as [-> | Hkk].
      * now rewrite lookupLine_cons, Hf, Ekk.
      * destruct (updateLine key value L) as [L'|]; cbn [option_map];
          [| change ((l :: L) ++ [key +:+ "=" +:+ value])%list
               with (l :: (L ++ [key +:+ "=" +:+ value]))%list];
          now rewrite lookupLine_cons, Hc, IH.
    + destruct (updateLine key value L) as [L'|]; cbn [option_map];
        [| change ((l :: L) ++ [key +:+ "=" +:+ value])%list
             with (l :: (L ++ [key +:+ "=" +:+ value]))%list];
        now rewrite lookupLine_cons, Hc, IH.
Qed.

Lemma updated_clean (key value : string) (L : list string) :
  cleanLine key -> cleanLine value -> Forall cleanLine L ->
  Forall cleanLine
    (match updateLine key value L with
     | Some L' => L'
     | None => (L ++ [key +:+ "=" +:+ value])%list
     end).
Proof.
  intros Hk Hv HL.
  assert (Hnew : cleanLine (key +:+ "=" +:+ value)).
  { apply cleanLine_app; [exact Hk |]. apply cleanLine_app; [| exact Hv].
    now split. }
  induction HL as [|l L Hl HL IH].
  - cbn [updateLine app]. constructor; [exact Hnew | constructor].
  - rewrite updateLine_cons.
    destruct (cutEq l) as [[k v]|].
    + destruct (String.eqb k key); [now constructor |].
      destruct (updateLine key value L) as [L'|]; cbn [option_map];
        [| change ((l :: L) ++ [key +:+ "=" +:+ value])%list
             with (l :: (L ++ [key +:+ "=" +:+ value]))%list];
        now constructor.
    + destruct (updateLine key value L) as [L'|]; cbn [option_map];
        [| change ((l :: L) ++ [key +:+ "=" +:+ value])%list
             with (l :: (L ++ [key +:+ "=" +:+ value]))%list];
        now constructor.
Qed.

(** A key with an ['='] or a line break is the key of no line. *)
Lemma lookupLine_never (key : string) (L : list string) :
  noByte "=" key = false \/ noByte "010" key = false ->
  Forall cleanLine L -> lookupLine key L = "".
Proof.
  intros Hkey HL. induction HL as [|l L [_ Hl] _ IH]; [reflexivity |].
  rewrite lookupLine_cons.
  destruct (cutEq l) as [[k v]|] eqn:Hc; [| exact IH].
  destruct (String.eqb_spec k key) as [-> | _]; [| exact IH].
  exfalso. destruct (cutEq_Some l key v Hc) as [-> Hk].
  unfold flag in Hl. simpl fst in Hl. rewrite noByte_append in Hl.
  apply andb_true_iff in Hl as [Hl _].
  destruct Hkey; congruence.
Qed.

End ConfigFileFacts.


Module ConfigFileExtras.
Import GoStrings GoUtf8 GoPath GoPathFacts Daemon Cli CliSpec CliFacts.
Import ConfigFile ConfigFileSpec GoUtf8Facts ConfigFileFacts DaemonFacts.

Lemma arctlDirOf_shape (homeDir : string) :
  homeDir <> "" ->
  arctlDirOf homeDir <> "" /\ exists p, arctlDirOf homeDir = p +:+ ".arctl".
Proof.
  intros Hne. unfold arctlDirOf. cbn [Join].
  destruct (String.eqb_spec homeDir "") as [E|_]; [congruence |].
  split; [apply Clean_nonempty |].
  destruct (Clean_last_elem homeDir ".arctl" Hne eq_refl) as (p & Hp & _).
  exists p. exact Hp.
Qed.

(** The configuration file is not its directory. *)
Lemma configPath_not_dir (homeDir : string) :
  homeDir <> "" -> configPathOf homeDir <> arctlDirOf homeDir.
Proof.
  intros Hne E. destruct (arctlDirOf_shape homeDir Hne) as (Ha & p1 & E1).
  destruct (Clean_last_elem (arctlDirOf homeDir) "config" Ha eq_refl)
    as (p2 & E2 & _).
  unfold configPathOf in E. cbn [Join] in E.
  destruct (String.eqb_spec (arctlDirOf homeDir) "") as [E0|_];
    [congruence |].
  change (joinRaw [arctlDirOf homeDir; "config"])
    with (arctlDirOf homeDir +:+ String "/" "config") in E.
  rewrite E2 in E. rewrite E1 in E.
  apply (f_equal list_ascii_of_string) in E.
  rewrite !list_ascii_app in E.
  change (list_ascii_of_string ".arctl")
    with (list_ascii_of_string ".arct" ++ list_ascii_of_string "l")%list in E.
  change (list_ascii_of_string "config")
    with (list_ascii_of_string "confi" ++ list_ascii_of_string "g")%list in E.
  rewrite !app_assoc in E.
  apply app_inj_2 in E as [_ E]; [discriminate E | reflexivity].
Qed.

Lemma getConfigPath_eq (w : World) :
  getConfigPath w
  = match UserHomeDir w with
    | Err e => (Err ("failed to get home directory: " +:+ e), w)
    | Ok homeDir =>
        match MkdirAll w (arctlDirOf homeDir) with
        | Err e => (Err ("failed to create config directory: " +:+ e), w)
        | Ok w1 => (Ok (configPathOf homeDir), w1)
        end
    end.
Proof.
  unfold getConfigPath, getConfigDir, configPathOf, arctlDirOf.
  destruct (UserHomeDir w) as [homeDir|e]; [| reflexivity].
  now destruct (MkdirAll w (Join [homeDir; ".arctl"])).
Qed.

Lemma union_again (a : string) (X : gset string) :
  {[a]} ∪ ({[a]} ∪ X) = {[a]} ∪ X.
Proof. apply set_eq. intros x. rewrite !elem_of_union. tauto. Qed.

(** After the configuration file is written, its path is found again
    without any change to the machine, and the file is read as written. *)
Lemma written_read (w w1 w2 : World) (homeDir content : string) :
  UserHomeDir w = Ok homeDir ->
  MkdirAll w (arctlDirOf homeDir) = Ok w1 ->
  WriteFile w1 (configPathOf homeDir) content = Ok w2 ->
  getConfigPath w2 = (Ok (configPathOf homeDir), w2)
  /\ ReadFile w2 (configPathOf homeDir) = Ok content.
Proof.
  intros Eh Em Ew.
  pose proof (configPath_not_dir homeDir (UserHomeDir_nonempty _ _ Eh)) as Hne.
  unfold MkdirAll in Em.
  destruct (decide (arctlDirOf homeDir ∈ denied w)) as [|Hd]; [discriminate |].
  destruct (files w !! arctlDirOf homeDir) eqn:Ef; [discriminate |].
  injection Em as <-.
  unfold WriteFile in Ew. cbn [denied dirs files GOOS environ] in Ew.
  destruct (decide (configPathOf homeDir ∈ denied w)) as [|Hpd];
    [discriminate |].
  destruct (decide (configPathOf homeDir ∈ {[arctlDirOf homeDir]} ∪ dirs w))
    as [|Hpdir]; [discriminate |].
  injection Ew as <-. split.
  - rewrite getConfigPath_eq.
    assert (Eh2 : UserHomeDir
                    {| GOOS := GOOS w; environ := environ w;
                       files := <[configPathOf homeDir := content]> (files w);
                       dirs := {[arctlDirOf homeDir]} ∪ dirs w;
                       denied := denied w |} = Ok homeDir) by exact Eh.
    rewrite Eh2. unfold MkdirAll. cbn [denied dirs files GOOS environ].
    destruct (decide (arctlDirOf homeDir ∈ denied w)); [contradiction |].
    rewrite lookup_insert_ne by exact Hne. rewrite Ef.
    now rewrite union_again.
  - unfold ReadFile, Daemon.ReadFile. cbn [denied dirs files].
    destruct (decide (configPathOf homeDir
                      ∈ {[arctlDirOf homeDir]} ∪ dirs w)); [contradiction |].
    destruct (decide (configPathOf homeDir ∈ denied w)); [contradiction |].
    now rewrite lookup_insert_eq.
Qed.

(** What [setConfig] did when it returns no error, with the lines it found. *)
Lemma setConfig_Ok (key value : string) (w w' : World) :
  setConfig key value w = (Ok tt, w') ->
  exists homeDir w1 L0,
    UserHomeDir w = Ok homeDir
    /\ MkdirAll w (arctlDirOf homeDir) = Ok w1
    /\ Forall cleanLine L0
    /\ (forall key', getConfig key' w = (Ok (lookupLine key' L0), w1))
    /\ WriteFile w1 (configPathOf homeDir)
         (joinLines (match updateLine key value L0 with
                     | Some L' => L'
                     | None => (L0 ++ [key +:+ "=" +:+ value])%list
                     end)) = Ok w'.
Proof.
  unfold setConfig, getConfig. rewrite getConfigPath_eq.
  destruct (UserHomeDir w) as [homeDir|e] eqn:Eh; [| discriminate].
  destruct (MkdirAll w (arctlDirOf homeDir)) as [w1|e] eqn:Em;
    [| discriminate].
  cbv zeta.
  destruct (ReadFile w1 (configPathOf homeDir)) as [data|e] eqn:Er.
  - destruct (WriteFile w1 (configPathOf homeDir) _) as [w2|e] eqn:Ew;
      [| discriminate].
    intros [= <-]. exists homeDir, w1, (splitLines data).
    split; [reflexivity |]. split; [exact Em |].
    split; [apply splitLines_clean |].
    split; [intros key'; reflexivity | exact Ew].
  - destruct (IsNotExist e) eqn:Ei; cbn [negb]; [| discriminate].
    destruct (WriteFile w1 (configPathOf homeDir) _) as [w2|e2] eqn:Ew;
      [| discriminate].
    intros [= <-]. exists homeDir, w1, [].
    split; [reflexivity |]. split; [exact Em |].
    split; [constructor |].
    split; [intros key'; reflexivity | exact Ew].
Qed.

(** X18 ([splitLines], [joinLines]).  The lines of a content are valid
    UTF-8 and have no line break; joined again they are the content with
    U+FFFD for each byte that is in no valid encoding, without one final
    line break if it has one; an ASCII content has no such byte.  Lines
    that are valid and have no line break are read again as they were
    joined, except that an empty last line is lost. *)
Theorem splitLines_joinLines_content (s : string) :
  Forall cleanLine (splitLines s)
  /\ (joinLines (splitLines s) = ToValidUTF8 s
      \/ joinLines (splitLines s) +:+ newline = ToValidUTF8 s)
  /\ (isASCII s = true -> ToValidUTF8 s = s)
  /\ (forall L, Forall cleanLine L ->
        splitLines (joinLines L) = dropLastEmpty L).
Proof.
  split; [apply splitLines_clean |]. split.
  - rewrite joinLines_joinNL. unfold splitLines, ToValidUTF8.
    exact (splitLinesLoop_content (runes s) [] "").
  - split; [apply isASCII_valid | apply splitLines_joinLines].
Qed.

(** X19 ([setConfig], [getConfig], [GetDefaultRegistry]).  A value set under
    a key is the value got under that key afterwards, and the machine is
    not changed by getting it, when the key and the value are valid UTF-8
    without line break and the key has no ['=']; set under [registry] it is
    the default registry. *)
Theorem setConfig_getConfig (key value : string) (w w' : World) :
  noByte "=" key = true -> cleanLine key -> cleanLine value ->
  setConfig key value w = (Ok tt, w') ->
  getConfig key w' = (Ok value, w')
  /\ (key = "registry" -> GetDefaultRegistry w' = (value, w')).
Proof.
  intros Hk Hck Hcv Hs.
  destruct (setConfig_Ok key value w w' Hs)
    as (homeDir & w1 & L0 & Eh & Em & HL & _ & Ew).
  destruct (written_read w w1 w' homeDir _ Eh Em Ew) as [Ep Er].
  assert (Hg : getConfig key w' = (Ok value, w')).
  { unfold getConfig. rewrite Ep, Er.
    rewrite splitLines_joinLines by now apply updated_clean.
    now rewrite lookupLine_dropLastEmpty, updated_lookup. }
  split; [exact Hg |]. intros ->. unfold GetDefaultRegistry. now rewrite Hg.
Qed.

Lemma setConfig_getConfig_witness :
  getConfig "registry"
    (snd (setConfig "registry" "ghcr.io"
            {| GOOS := "linux"; environ := {["HOME" := "/home/u"]};
               files := ∅; dirs := ∅; denied := ∅ |}))
  = (Ok "ghcr.io",
     snd (setConfig "registry" "ghcr.io"
            {| GOOS := "linux"; environ := {["HOME" := "/home/u"]};
               files := ∅; dirs := ∅; denied := ∅ |})).
Proof.
  apply (setConfig_getConfig "registry" "ghcr.io"
           {| GOOS := "linux"; environ := {["HOME" := "/home/u"]};
              files := ∅; dirs := ∅; denied := ∅ |}).
  - reflexivity.
  - split; reflexivity.
  - split; reflexivity.
  - reflexivity.
Defined.

(** X20 ([setConfig], [getConfig]).  Setting a key changes the value of no
    other key, under the same conditions on the key and the value; it
    leaves the system, the environment and every file but the configuration
    file as they were. *)
Theorem setConfig_other_keys (key value : string) (w w' : World) :
  noByte "=" key = true -> cleanLine key -> cleanLine value ->
  setConfig key value w = (Ok tt, w') ->
  (forall key', key' <> key ->
     fst (getConfig key' w') = fst (getConfig key' w))
  /\ GOOS w' = GOOS w /\ environ w' = environ w /\ denied w' = denied w
  /\ exists homeDir,
       UserHomeDir w = Ok homeDir
       /\ forall p, p <> configPathOf homeDir -> files w' !! p = files w !! p.
Proof.
  intros Hk Hck Hcv Hs.
  destruct (setConfig_Ok key value w w' Hs)
    as (homeDir & w1 & L0 & Eh & Em & HL & Hget & Ew).
  destruct (written_read w w1 w' homeDir _ Eh Em Ew) as [Ep Er].
  split.
  - intros key' Hne. rewrite Hget. unfold getConfig. rewrite Ep, Er.
    rewrite splitLines_joinLines by now apply updated_clean.
    cbn [fst]. now rewrite lookupLine_dropLastEmpty, updated_other.
  - unfold MkdirAll in Em.
    destruct (decide (arctlDirOf homeDir ∈ denied w)); [discriminate |].
    destruct (files w !! arctlDirOf homeDir); [discriminate |].
    injection Em as <-. unfold WriteFile in Ew.
    cbn [denied dirs files GOOS environ] in Ew.
    destruct (decide (configPathOf homeDir ∈ denied w)); [discriminate |].
    destruct (decide (configPathOf homeDir ∈ _)); [discriminate |].
    injection Ew as <-. cbn [denied dirs files GOOS environ].
    repeat split. exists homeDir. split; [exact Eh |].
    intros p Hp. now rewrite lookup_insert_ne.
Qed.

Lemma setConfig_other_keys_witness :
  fst (getConfig "other"
         (snd (setConfig "registry" "ghcr.io"
                 {| GOOS := "linux"; environ := {["HOME" := "/home/u"]};
                    files := {["/home/u/.arctl/config" := "other=1"]};
                    dirs := ∅; denied := ∅ |})))
  = fst (getConfig "other"
           {| GOOS := "linux"; environ := {["HOME" := "/home/u"]};
              files := {["/home/u/.arctl/config" := "other=1"]};
              dirs := ∅; denied := ∅ |}).
Proof.
  refine (proj1 (setConfig_other_keys "registry" "ghcr.io"
                   {| GOOS := "linux"; environ := {["HOME" := "/home/u"]};
                      files := {["/home/u/.arctl/config" := "other=1"]};
                      dirs := ∅; denied := ∅ |} _ _ _ _ _) "other" _).
  - reflexivity.
  - split; reflexivity.
  - split; reflexivity.
  - reflexivity.
  - discriminate.
Defined.

(** X21 ([getConfig], [setConfig]).  A key with an ['='] or a line break is
    never found: getting it gives the empty value or an error, also right
    after it was set. *)
Theorem getConfig_never (key : string) (w : World) :
  noByte "=" key = false \/ noByte "010" key = false ->
  (fst (getConfig key w) = Ok "" \/ isErr (fst (getConfig key w)) = true)
  /\ (forall value w',
        setConfig key value w = (Ok tt, w') -> getConfig key w' = (Ok "", w')).
Proof.
  intros Hkey. split.
  - unfold getConfig. destruct (getConfigPath w) as [[path|e] w1];
      [| now right].
    destruct (ReadFile w1 path) as [data|e].
    + left. cbn [fst]. f_equal.
      apply lookupLine_never; [exact Hkey | apply splitLines_clean].
    + destruct (IsNotExist e); [now left | now right].
  - intros value w' Hs.
    destruct (setConfig_Ok key value w w' Hs)
      as (homeDir & w1 & L0 & Eh & Em & HL & _ & Ew).
    destruct (written_read w w1 w' homeDir _ Eh Em Ew) as [Ep Er].
    unfold getConfig. rewrite Ep, Er. f_equal. f_equal.
    apply lookupLine_never; [exact Hkey | apply splitLines_clean].
Qed.

Lemma getConfig_never_witness :
  getConfig "a=b"
    (snd (setConfig "a=b" "c"
            {| GOOS := "linux"; environ := {["HOME" := "/home/u"]};
               files := ∅; dirs := ∅; denied := ∅ |}))
  = (Ok "",
     snd (setConfig "a=b" "c"
            {| GOOS := "linux"; environ := {["HOME" := "/home/u"]};
               files := ∅; dirs := ∅; denied := ∅ |})).
Proof.
  refine (proj2 (getConfig_never "a=b"
                   {| GOOS := "linux"; environ := {["HOME" := "/home/u"]};
                      files := ∅; dirs := ∅; denied := ∅ |} _) "c" _ _).
  - left. reflexivity.
  - reflexivity.
Defined.

End ConfigFileExtras.


(** ** The project detector *)

Module DetectorExtras.
Import GoStrings GoPathFacts Cli CliFacts Detector.

Lemma substring_prefix (sub t : string) :
  String.eqb (String.substring 0 (String.length sub) t) sub
  = String.prefix sub t.
Proof.
  revert t. induction sub as [|c sub IH]; intros t.
  - simpl. now destruct t.
  - destruct t as [|x t]; [reflexivity |].
    cbn [String.length String.substring String.prefix String.eqb].
    rewrite IH. destruct (ascii_dec c x) as [-> | Hne].
    + now rewrite Ascii.eqb_refl.
    + apply Ascii.eqb_neq in Hne. rewrite Ascii.eqb_sym in Hne.
      now rewrite Hne.
Qed.

Lemma prefix_length (sub t : string) :
  String.prefix sub t = true -> String.length sub <= String.length t.
Proof.
  revert t. induction sub as [|c sub IH]; intros t; [simpl; lia |].
  destruct t as [|x t]; cbn [String.prefix String.length];
    [intros H; discriminate H |].
  destruct (ascii_dec c x); [| intros H; discriminate H].
  intros H%IH. lia.
Qed.

Lemma Contains_short (t sub : string) :
  String.length t < String.length sub -> Contains t sub = false.
Proof.
  induction t as [|x t IH]; intros Hl; cbn [Contains]; unfold HasPrefix.
  - destruct (String.prefix sub "") eqn:E; [| reflexivity].
    apply prefix_length in E. lia.
  - rewrite IH by (simpl in Hl; lia).
    destruct (String.prefix sub (String x t)) eqn:E; [| reflexivity].
    apply prefix_length in E. lia.
Qed.

Lemma prefix_same_length (sub t : string) :
  String.length sub = String.length t ->
  String.prefix sub t = String.eqb t sub.
Proof.
  revert t. induction sub as [|c sub IH]; intros [|x t];
    cbn [String.prefix String.length String.eqb];
    try discriminate; [reflexivity |].
  intros [= Hl]. rewrite <- (IH t Hl).
  destruct (ascii_dec c x) as [-> | Hne].
  - now rewrite Ascii.eqb_refl.
  - apply Ascii.eqb_neq in Hne. rewrite Ascii.eqb_sym in Hne. now rewrite Hne.
Qed.

Lemma slice_after (pre t : string) (m : nat) :
  slice (pre +:+ t) (String.length pre) (String.length pre + m)
  = String.substring 0 m t.
Proof.
  unfold slice.
  replace (String.length pre + m - String.length pre) with m by lia.
  induction pre as [|c pre IH]; simpl; [reflexivity | exact IH].
Qed.

(** The loop over the offsets that are left finds what [strings.Contains]
    finds in what is left of the string. *)
Lemma containsHelperFrom_Contains (t pre sub : string) :
  String.length sub <= String.length t ->
  containsHelperFrom (String.length t - String.length sub + 1)
    (String.length pre) (pre +:+ t) sub
  = Contains t sub.
Proof.
  revert pre. induction t as [|x t IH]; intros pre Hl.
  - simpl in Hl. assert (sub = "") as -> by (destruct sub; simpl in *;
      [reflexivity | lia]).
    cbn [String.length Nat.sub Nat.add containsHelperFrom].
    rewrite slice_after. reflexivity.
  - cbn [Contains]. unfold HasPrefix.
    replace (String.length (String x t) - String.length sub + 1)
      with (S (String.length t - String.length sub
               + (if (String.length sub <=? String.length t)%nat
                  then 1 else 0)))
      by (cbn [String.length]; destruct (Nat.leb_spec (String.length sub)
            (String.length t)); lia).
    cbn [containsHelperFrom]. rewrite slice_after, substring_prefix.
    destruct (String.prefix sub (String x t)); [reflexivity |].
    cbn [orb].
    destruct (Nat.leb_spec (String.length sub) (String.length t)) as [Hle|Hgt].
    + specialize (IH (pre +:+ String x "") Hle).
      rewrite length_append, append_assoc in IH. cbn [String.length] in IH.
      replace (String.length pre + 1) with (S (String.length pre)) in IH
        by lia.
      exact IH.
    + replace (String.length t - String.length sub + 0) with 0 by lia.
      cbn [containsHelperFrom]. symmetry. now apply Contains_short.
Qed.

(** X22 ([contains], [containsHelper] of the detector).  The detector's own
    search finds a substring that is not empty exactly where
    [strings.Contains] finds it, and finds the empty substring nowhere. *)
Theorem contains_Contains (s substr : string) :
  contains s substr = negb (String.eqb substr "") && Contains s substr.
Proof.
  unfold contains.
  destruct (String.eqb_spec substr "") as [-> | Hne].
  - cbn [String.length]. now rewrite andb_false_r.
  - assert (Hm : 0 < String.length substr)
      by (destruct substr; [congruence | simpl; lia]).
    cbn [negb andb].
    destruct (Nat.leb_spec (String.length substr) (String.length s))
      as [Hle|Hgt].
    + replace (0 <? String.length s)%nat with true
        by (symmetry; apply Nat.ltb_lt; lia).
      replace (0 <? String.length substr)%nat with true
        by (symmetry; apply Nat.ltb_lt; lia).
      cbn [andb].
      destruct (Nat.ltb_spec (String.length substr) (String.length s))
        as [Hlt|Hge].
      * cbn [andb]. unfold containsHelper.
        replace (Z.to_nat (Z.of_nat (String.length s)
                           - Z.of_nat (String.length substr) + 1))
          with (String.length s - String.length substr + 1) by lia.
        pose proof (containsHelperFrom_Contains s "" substr Hle) as Hc.
        cbn [String.length String.append] in Hc. rewrite Hc.
        destruct (String.eqb_spec s substr) as [-> | _]; [lia | reflexivity].
      * cbn [andb]. rewrite orb_false_r.
        assert (El : String.length substr = String.length s) by lia.
        destruct s as [|x t]; [simpl in *; lia |].
        cbn [Contains]. unfold HasPrefix.
        rewrite (Contains_short t substr) by (simpl in El; lia).
        now rewrite orb_false_r, prefix_same_length.
    + rewrite andb_false_r. symmetry. now apply Contains_short.
Qed.

End DetectorExtras.
